(** * Snowglobe: the spend-governed turn orchestrator

    A shallow embedding of [llm_snowglobe/core/cost_tracker.py] (the pricing
    table, the file-backed cost ledger and its two spend caps, the steps of a
    save and two saves at once), of [llm_snowglobe/user_defined_game.py] (the
    round loop, the players and advisors the constructor builds, and
    [__call__]), of [merge_config] of [llm_snowglobe/scenario_loader.py] and of
    the two constructors of [llm_snowglobe/core/configuration.py], followed by
    the properties the specification states about them and by further
    properties of the code.

    Python floats are IEEE binary64 values: they are modelled by Rocq's
    primitive floats, whose operations are the same correctly rounded ones.
    Exceptions are values of a result type, mutable objects are threaded as
    explicit state. *)

From Stdlib Require Import ZArith Lia List String Ascii Bool.
From Stdlib Require Import Floats Uint63.
Import ListNotations.

Set Warnings "-inexact-float".
Set Implicit Arguments.

(* ================================================================== *)
(** * Part I: the model *)
(* ================================================================== *)

(** ** Python values, exceptions and formatted text *)

Module Py.

(** The exception classes that occur in the modelled code, with the base class
    of each as in CPython ([IOError] is an alias of [OSError]). *)
Inductive exn_class : Type :=
| Exception
| ValueError
| UnicodeError
| UnicodeDecodeError
| JSONDecodeError
| OSError
| FileNotFoundError
| PermissionError
| LookupError
| IndexError
| RuntimeError
| CostLimitExceeded.

Definition IOError : exn_class := OSError.

Definition exn_class_eqb (a b : exn_class) : bool :=
  match a, b with
  | Exception, Exception | ValueError, ValueError | UnicodeError, UnicodeError
  | UnicodeDecodeError, UnicodeDecodeError | JSONDecodeError, JSONDecodeError
  | OSError, OSError | FileNotFoundError, FileNotFoundError
  | PermissionError, PermissionError | LookupError, LookupError
  | IndexError, IndexError | RuntimeError, RuntimeError
  | CostLimitExceeded, CostLimitExceeded => true
  | _, _ => false
  end.

Definition base (c : exn_class) : option exn_class :=
  match c with
  | Exception => None
  | ValueError => Some Exception
  | UnicodeError => Some ValueError
  | UnicodeDecodeError => Some UnicodeError
  | JSONDecodeError => Some ValueError
  | OSError => Some Exception
  | FileNotFoundError => Some OSError
  | PermissionError => Some OSError
  | LookupError => Some Exception
  | IndexError => Some LookupError
  | RuntimeError => Some Exception
  | CostLimitExceeded => Some Exception
  end.

(** [issubclass c d]: [d] is [c] or one of its ancestors (the hierarchy above
    has depth three). *)
Fixpoint issubclass_upto (fuel : nat) (c d : exn_class) : bool :=
  exn_class_eqb c d ||
  match fuel with
  | O => false
  | S fuel' => match base c with
               | Some b => issubclass_upto fuel' b d
               | None => false
               end
  end.

Definition issubclass : exn_class -> exn_class -> bool := issubclass_upto 3.

(** An f-string is kept as its pieces: literal text, the integers printed into
    it, and the floats formatted into it with [:.Nf]. *)
Inductive fragment : Type :=
| Lit (s : string)
| Num (n : Z)
| Fixed (decimals : nat) (x : float).

Definition text : Type := list fragment.

Record exn : Type := { exn_cls : exn_class; exn_args : text }.

(** [except (c1, c2, ...)] matches an exception that is an instance of one of
    the listed classes. *)
Definition caught_by (handlers : list exn_class) (e : exn) : bool :=
  existsb (issubclass (exn_cls e)) handlers.

Inductive result (A : Type) : Type :=
| Return (a : A)
| Raise (e : exn).

Arguments Return {A} a.
Arguments Raise {A} e.

End Py.

Import Py.

(** ** Builtins and library functions the ledger calls *)

Module Builtins.

(** The builtin [sum] over floats: accumulation from the integer [0], left to
    right.  (CPython 3.12 and later add a compensation term to the result; for
    fewer than two summands, and whenever the partial sums are exact, the two
    agree.  No property below depends on how the sum is rounded.) *)
Definition sum (xs : list float) : float := fold_left PrimFloat.add xs 0%float.

(** [a / b] on two ints.  For a power-of-two divisor and a dividend below
    [2^63] (the only use here is [chars / 4]) Python's correctly rounded quotient
    is the float quotient of the converted operands. *)
Definition int_truediv (a b : int) : float := (of_uint63 a / of_uint63 b)%float.

Definition round_half_even (num den : Z) : Z :=
  let q := (num / den)%Z in
  let r := (num mod den)%Z in
  match (2 * r ?= den)%Z with
  | Lt => q
  | Gt => (q + 1)%Z
  | Eq => if Z.even q then q else (q + 1)%Z
  end.

(** The binary64 value nearest to [num / den] (ties to even), with sign [s]. *)
Definition nearest_float (s : bool) (num den : Z) : spec_float :=
  match num with
  | Z0 => S754_zero s
  | _ => let '(q, e, l) := SFdiv_core_binary prec emax num 0 den 0 in
         binary_round_aux prec emax s q e l
  end.

(** The builtin [round(x, ndigits)] on a float, for [ndigits >= 0]: the exact
    binary value is rounded half-to-even to [ndigits] decimals, and the decimal
    obtained is converted back to the nearest float.  Zeros, infinities and NaN
    are returned unchanged. *)
Definition round (x : float) (ndigits : nat) : float :=
  match Prim2SF x with
  | S754_finite s m e =>
      let p := (10 ^ Z.of_nat ndigits)%Z in
      let q := match e with
               | Zneg k => round_half_even (Z.pos m * p) (2 ^ Z.pos k)
               | _ => (Z.pos m * 2 ^ e * p)%Z
               end in
      SF2Prim (nearest_float s q p)
  | _ => x
  end.

(** [os.path.dirname] (POSIX): the part before the last slash, trailing slashes
    of that part removed unless it consists of slashes only. *)
Fixpoint rfind_slash (p : list ascii) : option nat :=
  match p with
  | [] => None
  | c :: p' => match rfind_slash p' with
               | Some i => Some (S i)
               | None => if Ascii.eqb c "/" then Some O else None
               end
  end.

Fixpoint rstrip_slash (p : list ascii) : list ascii :=
  match p with
  | [] => []
  | c :: p' => match rstrip_slash p' with
               | [] => if Ascii.eqb c "/" then [] else [c]
               | r => c :: r
               end
  end.

Definition dirname (p : string) : string :=
  let cs := list_ascii_of_string p in
  match rfind_slash cs with
  | None => EmptyString
  | Some i =>
      let head := firstn (S i) cs in
      if forallb (fun c => Ascii.eqb c "/") head then string_of_list_ascii head
      else string_of_list_ascii (rstrip_slash head)
  end.

End Builtins.

(** ** The pricing table and the cost estimate *)

Module Pricing.

Record Price : Type := { input : float; output : float }.

(** [PRICING]: estimated cost per million tokens by (source, model prefix), in
    declaration order, which is the order a dict iterates in. *)
Definition PRICING : list ((string * string) * Price) :=
  [ (("google", "gemini-2.5-flash"), {| input := 0.15; output := 0.60 |});
    (("google", "gemini-2.5-pro"),   {| input := 1.25; output := 10.00 |});
    (("google", "gemini-2.0-flash"), {| input := 0.10; output := 0.40 |});
    (("ollama", ""),                 {| input := 0.0;  output := 0.0 |});
    (("openai", "gpt-4o"),           {| input := 2.50; output := 10.00 |});
    (("openai", "gpt-4o-mini"),      {| input := 0.15; output := 0.60 |}) ]%string.

Definition CHARS_PER_TOKEN : int := 4%uint63.

Definition free : Price := {| input := 0.0; output := 0.0 |}.
Definition fallback : Price := {| input := 5.00; output := 15.00 |}.

Definition key_eqb (k1 k2 : string * string) : bool :=
  (fst k1 =? fst k2)%string && (snd k1 =? snd k2)%string.

(** [key in PRICING] and [PRICING[key]]. *)
Definition dict_get (d : list ((string * string) * Price)) (key : string * string)
  : option Price :=
  option_map snd (find (fun kv => key_eqb (fst kv) key) d).

(** The test of the loop over [PRICING.items()]:
    [s == source and model.startswith(prefix)]. *)
Definition prefix_match (source model : string) (kv : (string * string) * Price) : bool :=
  (fst (fst kv) =? source)%string && String.prefix (snd (fst kv)) model.

Definition _lookup_pricing (source model : string) : Price :=
  if (source =? "ollama")%string then free
  else
    match dict_get PRICING (source, model) with
    | Some price => price
    | None =>
        match find (prefix_match source model) PRICING with
        | Some kv => snd kv
        | None => fallback
        end
    end.

(** [estimate_cost]; the two counts are character counts, that is lengths, in
    [0 .. 2^63 - 1]. *)
Definition estimate_cost (source model : string) (prompt_chars response_chars : int)
  : float :=
  let pricing := _lookup_pricing source model in
  let input_tokens := Builtins.int_truediv prompt_chars CHARS_PER_TOKEN in
  let output_tokens := Builtins.int_truediv response_chars CHARS_PER_TOKEN in
  (input_tokens * input pricing / 1000000
   + output_tokens * output pricing / 1000000)%float.

End Pricing.

(** ** The cost ledger *)

Module CostTracker.

Import Pricing.

Definition DEFAULT_DAILY_CAP : float := 2.00.
Definition DEFAULT_TOTAL_CAP : float := 10.00.

(** One entry of [self.records]; the dict keys become fields.  Character
    counts are lengths, which CPython bounds by [sys.maxsize = 2^63 - 1]. *)
Record CostRecord : Type := {
  ts : float;
  source : string;
  model : string;
  prompt_chars : int;
  response_chars : int;
  duration : float;
  cost : float
}.

(** What the backing file can be, by what [os.path.exists], [open] and
    [json.load] do with it: missing; present but not openable or readable;
    bytes that do not decode in the text encoding; text that is no JSON
    document; or the JSON array of records that [_save] writes. *)
Inductive file_state : Type :=
| Absent
| Unreadable (why : string)
| Undecodable (why : string)
| Malformed (why : string)
| Ledger (rs : list CostRecord).

Inductive level : Type := INFO | WARNING.

(** The part of the world the ledger acts on: the files by path, whether the
    file system refuses writes, and what the logger received. *)
Record World : Type := {
  files : string -> file_state;
  read_only : bool;
  log : list (level * text)
}.

Definition set_file (w : World) (p : string) (f : file_state) : World :=
  {| files := fun q => if (q =? p)%string then f else files w q;
     read_only := read_only w;
     log := log w |}.

Definition emit (w : World) (l : level) (t : text) : World :=
  {| files := files w; read_only := read_only w; log := log w ++ [(l, t)] |}.

Record t : Type := {
  path : string;
  daily_cap : float;
  total_cap : float;
  logger : bool;
  records : list CostRecord
}.

Definition with_records (self : t) (rs : list CostRecord) : t :=
  {| path := path self; daily_cap := daily_cap self; total_cap := total_cap self;
     logger := logger self; records := rs |}.

(** *** Persistence *)

Definition exists_ (w : World) (p : string) : bool :=
  match files w p with
  | Absent => false
  | _ => true
  end.

(** [with open(path, "r") as f: ... json.load(f)]: the value read, or the
    exception the library raises.  The shared lock taken on the file has no
    effect on a single reader and is left out. *)
Definition open_and_load (w : World) (p : string) : result (list CostRecord) :=
  match files w p with
  | Absent => Raise {| exn_cls := FileNotFoundError; exn_args := [Lit p] |}
  | Unreadable why => Raise {| exn_cls := PermissionError; exn_args := [Lit why] |}
  | Undecodable why => Raise {| exn_cls := UnicodeDecodeError; exn_args := [Lit why] |}
  | Malformed why => Raise {| exn_cls := JSONDecodeError; exn_args := [Lit why] |}
  | Ledger rs => Return rs
  end.

Definition _load (self : t) (w : World) : World * result t :=
  if exists_ w (path self) then
    match open_and_load w (path self) with
    | Return rs => (w, Return (with_records self rs))
    | Raise e =>
        if caught_by [JSONDecodeError; IOError] e then
          let w' :=
            if logger self then
              emit w WARNING
                   ([Lit "Cost ledger corrupted or unreadable ("] ++ exn_args e
                    ++ [Lit "), starting fresh"])
            else w in
          (w', Return (with_records self []))
        else (w, Raise e)
    end
  else (w, Return (with_records self [])).

Definition __init__ (path : string) (daily_cap total_cap : option float)
    (logger : bool) (w : World) : World * result t :=
  let self :=
    {| path := path;
       daily_cap := match daily_cap with Some c => c | None => DEFAULT_DAILY_CAP end;
       total_cap := match total_cap with Some c => c | None => DEFAULT_TOTAL_CAP end;
       logger := logger;
       records := [] |} in
  _load self w.

(** [os.makedirs(d, exist_ok=True)]: the empty path names no directory. *)
Definition makedirs (w : World) (d : string) : result unit :=
  if (d =? "")%string then
    Raise {| exn_cls := FileNotFoundError; exn_args := [Lit d] |}
  else if read_only w then
    Raise {| exn_cls := PermissionError; exn_args := [Lit d] |}
  else Return tt.

(** [os.replace(tmp, path)]. *)
Definition replace (w : World) (tmp p : string) : World :=
  set_file (set_file w p (files w tmp)) tmp Absent.

(** [_save], run alone: the directory, the temporary file with the JSON array
    of the records, the rename, on a file system that accepts every step after
    [os.makedirs].  The exclusive lock on the temporary file is left out, as
    above.  The separate steps, each of which the operating system may refuse,
    and two calls at once are the subject of [Overlap]. *)
Definition _save (self : t) (w : World) : World * result unit :=
  match makedirs w (Builtins.dirname (path self)) with
  | Raise e => (w, Raise e)
  | Return _ =>
      let tmp := (path self ++ ".tmp")%string in
      let w1 := set_file w tmp (Ledger (records self)) in
      (replace w1 tmp (path self), Return tt)
  end.

(** *** Budget queries; [now] is the reading of [time.time()]. *)

Definition spend_last_24h (self : t) (now : float) : float :=
  let cutoff := (now - 86400)%float in
  Builtins.sum (map cost (filter (fun r => (cutoff <=? ts r)%float) (records self))).

Definition spend_total (self : t) : float :=
  Builtins.sum (map cost (records self)).

(** *** Enforcement *)

Definition daily_message (daily estimated_cost cap : float) : text :=
  [Lit "24h spend $"; Fixed 4 daily; Lit " + $"; Fixed 4 estimated_cost;
   Lit " would exceed daily cap $"; Fixed 2 cap].

Definition total_message (total estimated_cost cap : float) : text :=
  [Lit "Total spend $"; Fixed 4 total; Lit " + $"; Fixed 4 estimated_cost;
   Lit " would exceed lifetime cap $"; Fixed 2 cap].

Definition check_budget (self : t) (now : float) (estimated_cost : float) : result unit :=
  let daily := spend_last_24h self now in
  let total := spend_total self in
  if (daily_cap self <? daily + estimated_cost)%float then
    Raise {| exn_cls := CostLimitExceeded;
             exn_args := daily_message daily estimated_cost (daily_cap self) |}
  else if (total_cap self <? total + estimated_cost)%float then
    Raise {| exn_cls := CostLimitExceeded;
             exn_args := total_message total estimated_cost (total_cap self) |}
  else Return tt.

(** [record], first half: the estimate, the entry and [self.records.append]. *)
Definition new_entry (now : float) (source model : string)
    (prompt_chars response_chars : int) (duration : float) : CostRecord :=
  let cost := estimate_cost source model prompt_chars response_chars in
  {| ts := now;
     source := source;
     model := model;
     prompt_chars := prompt_chars;
     response_chars := response_chars;
     duration := Builtins.round duration 2;
     cost := Builtins.round cost 6 |}.

Definition append (self : t) (entry : CostRecord) : t :=
  with_records self (records self ++ [entry]).

Definition cost_message (self : t) (cost daily total : float) : text :=
  [Lit "Cost | call=$"; Fixed 6 cost; Lit " | 24h=$"; Fixed 4 daily; Lit "/";
   Fixed 2 (daily_cap self); Lit " | total=$"; Fixed 4 total; Lit "/";
   Fixed 2 (total_cap self)].

(** [record]; [now] is the clock reading stored in the entry, [now_log] the
    later one taken for the log line.  The object keeps the appended entry
    also when [_save] raises. *)
Definition record (self : t) (w : World) (now now_log : float) (source model : string)
    (prompt_chars response_chars : int) (duration : float)
  : (t * World) * result float :=
  let cost := estimate_cost source model prompt_chars response_chars in
  let self1 := append self (new_entry now source model prompt_chars response_chars duration) in
  match _save self1 w with
  | (w1, Raise e) => ((self1, w1), Raise e)
  | (w1, Return _) =>
      let w2 :=
        if logger self1 then
          emit w1 INFO
               (cost_message self1 cost (spend_last_24h self1 now_log) (spend_total self1))
        else w1 in
      ((self1, w2), Return cost)
  end.

Record Summary : Type := {
  daily_spend : float;
  summary_daily_cap : float;
  total_spend : float;
  summary_total_cap : float;
  call_count : nat
}.

Definition summary (self : t) (now : float) : Summary :=
  {| daily_spend := Builtins.round (spend_last_24h self now) 4;
     summary_daily_cap := daily_cap self;
     total_spend := Builtins.round (spend_total self) 4;
     summary_total_cap := total_cap self;
     call_count := List.length (records self) |}.

End CostTracker.

(** ** The round loop of the game controller *)

Module UserDefinedGame.

Inductive player_kind : Type := human | ai.

(** Modelled from the spec: the [Player] class of [llm_snowglobe.core], of which
    the controller reads the name, the kind, the two rooms and the [active]
    flag it clears on advisors. *)
Record Player : Type := {
  name : string;
  kind : player_kind;
  gameroom : string;
  chatroom : string;
  active : bool
}.

Definition is_human (p : Player) : bool :=
  match kind p with
  | human => true
  | ai => false
  end.

Definition deactivate (p : Player) : Player :=
  {| name := name p; kind := kind p; gameroom := gameroom p;
     chatroom := chatroom p; active := false |}.

(** Modelled from the spec: the shared timeline ([History] of
    [llm_snowglobe.core]), an ordered list of (author, text) entries. *)
Definition History : Type := list (string * string).

(** The messages the controller sends to a player's game room. *)
Inductive content : Type :=
| YouAre (player_name : string)
| HowDoYouRespond (narration : string)
| GameStopped (e : exn)
| GameOver (narration : string).

Definition blank_line : string :=
  String (ascii_of_nat 10) (String (ascii_of_nat 10) EmptyString).

(** The text of each message, as the source builds it. *)
Definition render (c : content) : text :=
  match c with
  | YouAre n => [Lit "You are "; Lit n; Lit "."]
  | HowDoYouRespond n => [Lit n; Lit blank_line; Lit "**How do you respond?**"]
  | GameStopped e =>
      [Lit "**Game stopped: spending limit reached.**"; Lit blank_line] ++ exn_args e
  | GameOver n => [Lit n; Lit blank_line; Lit "**Game Over**"]
  end.

(** The awaited calls on collaborators: an AI player's priced [respond], a
    human player's [interface_get_message], and [adjudicate]; each is
    identified by the move and, for players, the position in [self.players]. *)
Inductive call : Type :=
| Respond (move idx : nat)
| GetMessage (move idx : nat)
| Adjudicate (move : nat).

(** What the collaborators answer in one run: for each call, the value it
    returns or the exception it raises. *)
Record Env : Type := {
  respond : nat -> nat -> result string;
  interface_get_message : nat -> nat -> result string;
  adjudicate : nat -> result string
}.

(** The attributes of the controller the round loop reads. *)
Record t : Type := {
  ioid : string;
  title : string;
  scenario : string;
  players : list Player;
  ai_only : bool;
  moves : nat
}.

(** What a run acts on: the timeline, the messages sent, the calls awaited, the
    headers written, the log, the advisors (whose flags the run clears) and the
    local variable [moves_completed]. *)
Record Run : Type := {
  history : History;
  sent : list (string * content);
  calls : list call;
  headers : list (text * nat);
  log : list (CostTracker.level * text);
  advisors : list Player;
  moves_completed : nat
}.

Definition M (A : Type) : Type := Run -> Run * result A.

Definition ret {A : Type} (a : A) : M A := fun s => (s, Return a).

Definition bind {A B : Type} (m : M A) (k : A -> M B) : M B :=
  fun s => match m s with
           | (s', Return a) => k a s'
           | (s', Raise e) => (s', Raise e)
           end.

Notation "x <- m ;; k" := (bind m (fun x => k))
  (at level 61, m at next level, right associativity).
Notation "m ;; k" := (bind m (fun _ => k))
  (at level 61, right associativity).

(** [try: body except cls as e: handler e]. *)
Definition try_except (body : M unit) (cls : exn_class) (handler : exn -> M unit) : M unit :=
  fun s => match body s with
           | (s', Raise e) =>
               if issubclass (exn_cls e) cls then handler e s' else (s', Raise e)
           | r => r
           end.

Fixpoint for_each {A : Type} (xs : list A) (body : A -> M unit) : M unit :=
  match xs with
  | [] => ret tt
  | x :: xs' => body x ;; for_each xs' body
  end.

Definition modify (f : Run -> Run) : M unit := fun s => (f s, Return tt).

Definition history_clear : M unit :=
  modify (fun s => {| history := []; sent := sent s; calls := calls s;
                      headers := headers s; log := log s; advisors := advisors s;
                      moves_completed := moves_completed s |}).

(** Modelled from the spec: [Control.record_narration] appends one entry,
    authored by the controller, to the timeline. *)
Definition record_narration (narration : string) : M unit :=
  modify (fun s => {| history := history s ++ [("Game Control"%string, narration)];
                      sent := sent s; calls := calls s; headers := headers s;
                      log := log s; advisors := advisors s;
                      moves_completed := moves_completed s |}).

(** Modelled from the spec: [Control.interface_send_message] delivers one
    message to a room. *)
Definition interface_send_message (room : string) (c : content) : M unit :=
  modify (fun s => {| history := history s; sent := sent s ++ [(room, c)];
                      calls := calls s; headers := headers s; log := log s;
                      advisors := advisors s; moves_completed := moves_completed s |}).

Definition header (title : text) (h : nat) : M unit :=
  modify (fun s => {| history := history s; sent := sent s; calls := calls s;
                      headers := headers s ++ [(title, h)]; log := log s;
                      advisors := advisors s; moves_completed := moves_completed s |}).

Definition logger_emit (l : CostTracker.level) (line : text) : M unit :=
  modify (fun s => {| history := history s; sent := sent s; calls := calls s;
                      headers := headers s; log := log s ++ [(l, line)];
                      advisors := advisors s; moves_completed := moves_completed s |}).

Definition set_moves_completed (n : nat) : M unit :=
  modify (fun s => {| history := history s; sent := sent s; calls := calls s;
                      headers := headers s; log := log s; advisors := advisors s;
                      moves_completed := n |}).

Definition set_advisors (l : list Player) : M unit :=
  modify (fun s => {| history := history s; sent := sent s; calls := calls s;
                      headers := headers s; log := log s; advisors := l;
                      moves_completed := moves_completed s |}).

Definition await (c : call) (answer : result string) : M string :=
  fun s => ({| history := history s; sent := sent s; calls := calls s ++ [c];
               headers := headers s; log := log s; advisors := advisors s;
               moves_completed := moves_completed s |}, answer).

(** Modelled from the spec: [self.history[-1].textonly()], the text of the
    latest narration; indexing an empty timeline raises. *)
Definition latest_narration : M string :=
  fun s => match rev (history s) with
           | (_, narration) :: _ => (s, Return narration)
           | [] => (s, Raise {| exn_cls := IndexError; exn_args := [] |})
           end.

(** The body of [for player in self.players] inside one move; [idx] is the
    position of the first player of [ps] in [self.players]. *)
Fixpoint poll (env : Env) (move idx : nat) (ps : list Player) (responses : History)
  : M History :=
  match ps with
  | [] => ret responses
  | player :: ps' =>
      header [Lit "### "; Lit (name player)] 2 ;;
      response <-
        (if is_human player then
           narration <- latest_narration ;;
           interface_send_message (gameroom player) (HowDoYouRespond narration) ;;
           r <- await (GetMessage move idx) (interface_get_message env move idx) ;;
           logger_emit CostTracker.INFO
             [Lit "Response received from player "; Lit (name player); Lit " in ";
              Lit (gameroom player)] ;;
           ret r
         else
           r <- await (Respond move idx) (respond env move idx) ;;
           logger_emit CostTracker.INFO
             [Lit "Response received from AI player "; Lit (name player)] ;;
           ret r) ;;
      poll env move (S idx) ps' (responses ++ [(name player, response)])
  end.

(** The body of [for move in range(self.moves)].  Elapsed times, read from the
    monotonic clock, are left out of the log lines. *)
Definition one_move (env : Env) (g : t) (move : nat) : M unit :=
  logger_emit CostTracker.INFO [Lit "Taking move number "; Num (Z.of_nat move)] ;;
  header [Lit "Move "; Num (Z.of_nat move + 1)] 1 ;;
  _ <- poll env move 0 (players g) [] ;;
  header [Lit "### Result"] 2 ;;
  logger_emit CostTracker.INFO
    [Lit "Adjudicating results for move "; Num (Z.of_nat move); Lit " of game ";
     Lit (ioid g)] ;;
  outcome <- await (Adjudicate move) (adjudicate env move) ;;
  logger_emit CostTracker.INFO
    [Lit "Move "; Num (Z.of_nat move); Lit " complete | game="; Lit (ioid g)] ;;
  record_narration outcome ;;
  fun s => set_moves_completed (moves_completed s + 1) s.

Definition game_complete_line (g : t) (completed : nat) : text :=
  [Lit "Game complete | game="; Lit (ioid g); Lit " | moves=";
   Num (Z.of_nat completed); Lit "/"; Num (Z.of_nat (moves g))].

Definition game (env : Env) (g : t) : M unit :=
  (* Setup *)
  history_clear ;;
  logger_emit CostTracker.INFO [Lit "History cleared."] ;;
  header [Lit (title g)] 0 ;;
  record_narration (scenario g) ;;
  header [Lit (scenario g)] 2 ;;
  logger_emit CostTracker.INFO [Lit "Interface headers set."] ;;
  for_each (players g) (fun player =>
    if is_human player then
      interface_send_message (gameroom player) (YouAre (name player))
    else ret tt) ;;
  (* Moves *)
  set_moves_completed 0 ;;
  try_except
    (for_each (seq 0 (moves g)) (one_move env g))
    CostLimitExceeded
    (fun e =>
       logger_emit CostTracker.WARNING
         ([Lit "Budget exceeded, stopping game: "] ++ exn_args e) ;;
       for_each (players g) (fun player =>
         if is_human player then
           interface_send_message (gameroom player) (GameStopped e)
         else ret tt)) ;;
  (* Conclusion *)
  for_each (players g) (fun player =>
    if is_human player then
      narration <- latest_narration ;;
      interface_send_message (gameroom player) (GameOver narration)
    else ret tt) ;;
  (fun s => logger_emit CostTracker.INFO (game_complete_line g (moves_completed s)) s) ;;
  logger_emit CostTracker.INFO [Lit "Terminating advisor chats."] ;;
  fun s => set_advisors (map deactivate (advisors s)) s.

(** *** Starting the tasks *)

Inductive task : Type :=
| ChatSession (advisor : Player) (room : string)
| Game.

(** What [__call__] starts: one awaited coroutine, or the tasks created, in
    order, inside one [asyncio.TaskGroup]. *)
Inductive launch : Type :=
| Await (c : task)
| TaskGroup (tasks : list task).

Definition __call__ (g : t) (s : Run) : launch :=
  if ai_only g then Await Game
  else TaskGroup (map (fun advisor => ChatSession advisor (chatroom advisor)) (advisors s)
                  ++ [Game]).

Definition chat_sessions (l : launch) : list task :=
  match l with
  | Await Game | Await (ChatSession _ _) => []
  | TaskGroup tasks =>
      filter (fun c => match c with ChatSession _ _ => true | Game => false end) tasks
  end.

(** [asyncio.TaskGroup], as the library documents it: the first task that ends
    with an exception makes the group cancel every task still running. *)
Inductive task_status : Type :=
| Running
| Finished
| Failed (e : exn)
| Cancelled.

Inductive ending : Type :=
| Returns
| Raises (e : exn).

Fixpoint settle (group : list task_status) (i : nat) (o : ending) : list task_status :=
  match group with
  | [] => []
  | st :: rest =>
      match i with
      | O =>
          match o with
          | Returns => Finished :: rest
          | Raises e =>
              Failed e :: map (fun st' => match st' with Running => Cancelled | _ => st' end) rest
          end
      | S i' =>
          match o with
          | Returns => st :: settle rest i' o
          | Raises _ =>
              match st with Running => Cancelled | _ => st end :: settle rest i' o
          end
      end
  end.

End UserDefinedGame.

(** ** Who is human: the merged configuration *)

Module ScenarioLoader.

(** The part of [merge_config] that decides [ai_only]: every player of the
    scenario gets the kind the user chose for it, ['ai'] when none was chosen,
    and the session is AI-only when no kind is ['human']. *)
Definition role_of (roles : list (string * string)) (player_name : string) : string :=
  match find (fun r => (fst r =? player_name)%string) roles with
  | Some r => snd r
  | None => "ai"%string
  end.

Definition merged_kinds (roles : list (string * string)) (player_names : list string)
  : list (string * string) :=
  map (fun n => (n, role_of roles n)) player_names.

Definition has_human (players_cfg : list (string * string)) : bool :=
  existsb (fun p => (snd p =? "human")%string) players_cfg.

Definition merged_ai_only (roles : list (string * string)) (player_names : list string)
  : bool :=
  negb (has_human (merged_kinds roles player_names)).

End ScenarioLoader.

(** ** Overlapping [record] calls *)

Module Overlap.

Inductive caller : Type := First | Second.

Definition other (c : caller) : caller :=
  match c with
  | First => Second
  | Second => First
  end.

Definition caller_eqb (a b : caller) : bool :=
  match a, b with
  | First, First | Second, Second => true
  | _, _ => false
  end.

(** What a file holds: nothing (just created or truncated), the complete JSON
    text of a list of records, or other bytes (a text cut short, or a text
    with bytes of an older, longer one after it), of which nothing is
    claimed. *)
Inductive content : Type :=
| Empty
| Whole (rs : list CostTracker.CostRecord)
| Garbled.

(** The two names the calls use, [self.path] and [self.path + ".tmp"], over
    numbered files: a name may be moved to another file while a call still
    writes to the file it opened.  [flock] locks belong to the file. *)
Record Disk : Type := {
  at_path : option nat;
  at_tmp : option nat;
  data : nat -> content;
  fresh : nat;
  lock : nat -> option caller
}.

Definition ledger_file (d : Disk) : option content :=
  match at_path d with
  | Some n => Some (data d n)
  | None => None
  end.

Definition set_data (d : Disk) (n : nat) (c : content) : Disk :=
  {| at_path := at_path d; at_tmp := at_tmp d;
     data := fun m => if Nat.eqb m n then c else data d m;
     fresh := fresh d; lock := lock d |}.

Definition set_lock (d : Disk) (n : nat) (holder : option caller) : Disk :=
  {| at_path := at_path d; at_tmp := at_tmp d; data := data d; fresh := fresh d;
     lock := fun m => if Nat.eqb m n then holder else lock d m |}.

(** [open(tmp, "w")]: the file the temporary name reaches is truncated, or a
    new one is created under that name. *)
Definition open_tmp (d : Disk) : Disk * nat :=
  match at_tmp d with
  | Some n => (set_data d n Empty, n)
  | None =>
      let n := fresh d in
      ({| at_path := at_path d; at_tmp := Some n;
          data := fun m => if Nat.eqb m n then Empty else data d m;
          fresh := S n; lock := lock d |}, n)
  end.

(** Writing a text from the start of a file: over an empty file the file is
    the text; over older bytes it is the text when the text covers them, and
    else the text with the rest of the older bytes after it. *)
Definition written (c : content) (text : list CostTracker.CostRecord) (shorter : bool)
  : content :=
  match c with
  | Empty => Whole text
  | Whole _ | Garbled => if shorter then Garbled else Whole text
  end.

(** [os.replace(tmp, path)], when the temporary name exists. *)
Definition rename (d : Disk) (n : nat) : Disk :=
  {| at_path := Some n; at_tmp := None; data := data d; fresh := fresh d;
     lock := lock d |}.

(** The ledger objects the two calls go through: one object, or one each, as
    two processes have. *)
Inductive objects : Type :=
| Shared (records : list CostTracker.CostRecord)
| Separate (records1 records2 : list CostTracker.CostRecord).

Definition records_of (o : objects) (c : caller) : list CostTracker.CostRecord :=
  match o, c with
  | Shared rs, _ => rs
  | Separate rs1 _, First => rs1
  | Separate _ rs2, Second => rs2
  end.

Definition append_to (o : objects) (c : caller) (entry : CostTracker.CostRecord) : objects :=
  match o, c with
  | Shared rs, _ => Shared (rs ++ [entry])
  | Separate rs1 rs2, First => Separate (rs1 ++ [entry]) rs2
  | Separate rs1 rs2, Second => Separate rs1 (rs2 ++ [entry])
  end.

(** Where a [record] call is: before [self.records.append], and then before
    each step of [_save]: [os.makedirs], [open], [fcntl.flock],
    [json.dump] (into the buffer of the file object), the end of the [with]
    block (which writes the buffer out, closes the file and so drops the
    lock), and [os.replace].  A call past [open] carries the file it
    opened. *)
Inductive stage : Type :=
| ToAppend
| ToMakedirs
| ToOpen
| ToLock (f : nat)
| ToDump (f : nat)
| ToClose (f : nat) (text : list CostTracker.CostRecord)
| ToReplace (f : nat)
| Returned
| Raised (e : exn).

(** One scheduling decision: the call that takes its next step, the exception
    with which the operating system refuses that step, if it does, and, for a
    write over a file that is not empty, whether the text is shorter than the
    bytes there. *)
Record event : Type := {
  who : caller;
  refused : option exn;
  shorter : bool
}.

Record state : Type := {
  ledger_path : string;
  entry : caller -> CostTracker.CostRecord;
  memory : objects;
  at_ : caller -> stage;
  disk : Disk;
  renames : list caller
}.

Definition no_such_file (name : string) : exn :=
  {| exn_cls := FileNotFoundError; exn_args := [Lit name] |}.

(** The next step of the call [who ev]: its new stage, the disk, the ledger
    objects and whether it renamed the temporary file. *)
Definition advance (st : state) (ev : event) : (stage * Disk) * (objects * bool) :=
  let c := who ev in
  let d := disk st in
  let m := memory st in
  match at_ st c with
  | ToAppend => ((ToMakedirs, d), (append_to m c (entry st c), false))
  | ToMakedirs =>
      if (Builtins.dirname (ledger_path st) =? "")%string then
        ((Raised (no_such_file ""), d), (m, false))
      else
        match refused ev with
        | Some e => ((Raised e, d), (m, false))
        | None => ((ToOpen, d), (m, false))
        end
  | ToOpen =>
      match refused ev with
      | Some e => ((Raised e, d), (m, false))
      | None => let '(d', f) := open_tmp d in ((ToLock f, d'), (m, false))
      end
  | ToLock f =>
      match refused ev with
      | Some e => ((Raised e, d), (m, false))
      | None =>
          match lock d f with
          | Some _ => ((ToLock f, d), (m, false))
          | None => ((ToDump f, set_lock d f (Some c)), (m, false))
          end
      end
  | ToDump f => ((ToClose f (records_of m c), d), (m, false))
  | ToClose f text =>
      match refused ev with
      | Some e => ((Raised e, set_lock (set_data d f Garbled) f None), (m, false))
      | None =>
          ((ToReplace f,
            set_lock (set_data d f (written (data d f) text (shorter ev))) f None),
           (m, false))
      end
  | ToReplace f =>
      match refused ev with
      | Some e => ((Raised e, d), (m, false))
      | None =>
          match at_tmp d with
          | Some n => ((Returned, rename d n), (m, true))
          | None =>
              ((Raised (no_such_file (ledger_path st ++ ".tmp")), d), (m, false))
          end
      end
  | Returned => ((Returned, d), (m, false))
  | Raised e => ((Raised e, d), (m, false))
  end.

Definition step (st : state) (ev : event) : state :=
  let '((s, d), (m, renamed)) := advance st ev in
  {| ledger_path := ledger_path st;
     entry := entry st;
     memory := m;
     at_ := fun c => if caller_eqb c (who ev) then s else at_ st c;
     disk := d;
     renames := if renamed then renames st ++ [who ev] else renames st |}.

Definition run (events : list event) (st : state) : state :=
  fold_left step events st.

(** Two calls about to start. *)
Definition start (p : string) (entry1 entry2 : CostTracker.CostRecord) (m : objects)
    (d : Disk) : state :=
  {| ledger_path := p;
     entry := fun c => match c with First => entry1 | Second => entry2 end;
     memory := m;
     at_ := fun _ => ToAppend;
     disk := d;
     renames := [] |}.

(** A step that the operating system does not refuse. *)
Definition go (c : caller) : event :=
  {| who := c; refused := None; shorter := false |}.

End Overlap.



(** ** Merging a scenario template with the user's choices *)

Module MergeConfig.

(** A player's entry of the template, a dict: the three keys [merge_config]
    reads or writes, each absent or present, and the keys it leaves alone
    (persona, goals, infodocs). *)
Record PlayerCfg : Type := {
  kind : option string;
  ioid : option string;
  player_advisors : option (list string);
  player_other_keys : list (string * string)
}.

Record AdvisorCfg : Type := {
  persona : string;
  goals : list string
}.

(** The template and the merged configuration are dicts of the same shape:
    [dict(template)] copies the top-level keys, so the merged dict holds the
    very [players] dict of the template.  A dict is kept as the list of its
    items in iteration order. *)
Record Config : Type := {
  data_directory : option string;
  game_id_file : option string;
  source : option (option string);
  model : option (option string);
  players : option (list (string * PlayerCfg));
  advisors : option (list (string * AdvisorCfg));
  moves : option Z;
  ai_only : option bool;
  other_keys : list (string * string)
}.

(** [infra]: two required keys, two read with [.get]. *)
Record Infra : Type := {
  infra_data_directory : option string;
  infra_game_id_file : option string;
  infra_source : option string;
  infra_model : option string
}.

Record UserChoices : Type := {
  roles : option (list (string * string));
  active_advisors : option (list string);
  chosen_moves : option Z
}.

Inductive error : Type :=
| KeyError (key : string)
| IndexError.

Inductive outcome : Type :=
| Returns (config : Config)
| Raises (e : error).

Definition ascii_uppercase : string := "ABCDEFGHIJKLMNOPQRSTUVWXYZ".

(** ['Player' + string.ascii_uppercase[human_index]]; [None] stands for the
    [IndexError] of the indexing. *)
Definition label (human_index : nat) : option string :=
  match String.get human_index ascii_uppercase with
  | Some c => Some ("Player" ++ String c EmptyString)%string
  | None => None
  end.

Definition set_kind (p : PlayerCfg) (k : string) : PlayerCfg :=
  {| kind := Some k; ioid := ioid p; player_advisors := player_advisors p;
     player_other_keys := player_other_keys p |}.

Definition set_ioid (p : PlayerCfg) (l : string) : PlayerCfg :=
  {| kind := kind p; ioid := Some l; player_advisors := player_advisors p;
     player_other_keys := player_other_keys p |}.

Definition set_player_advisors (p : PlayerCfg) (l : list string) : PlayerCfg :=
  {| kind := kind p; ioid := ioid p; player_advisors := Some l;
     player_other_keys := player_other_keys p |}.

(** The loop over [config['players'].items()] that assigns the roles.  Each
    entry is updated in place; the flag tells that the indexing raised, which
    leaves the entries after the failing one as they were and the failing one
    with its kind set. *)
Fixpoint assign_roles (roles : list (string * string)) (human_index : nat)
    (ps : list (string * PlayerCfg)) : list (string * PlayerCfg) * bool :=
  match ps with
  | [] => ([], false)
  | (player_name, player_cfg) :: ps' =>
      let kind := ScenarioLoader.role_of roles player_name in
      let player_cfg1 := set_kind player_cfg kind in
      if (kind =? "human")%string then
        match label human_index with
        | Some l =>
            let '(rest, raised) := assign_roles roles (S human_index) ps' in
            ((player_name, set_ioid player_cfg1 l) :: rest, raised)
        | None => ((player_name, player_cfg1) :: ps', true)
        end
      else
        let '(rest, raised) := assign_roles roles human_index ps' in
        ((player_name, player_cfg1) :: rest, raised)
  end.

(** [a in active_advisors]. *)
Definition is_active (active : list string) (a : string) : bool :=
  existsb (String.eqb a) active.

Definition filter_references (active : list string) (p : PlayerCfg) : PlayerCfg :=
  match player_advisors p with
  | Some refs => set_player_advisors p (filter (is_active active) refs)
  | None => p
  end.

(** [cfg.get('kind') == 'human']. *)
Definition is_human (p : PlayerCfg) : bool :=
  match kind p with
  | Some k => (k =? "human")%string
  | None => false
  end.

Definition set_players (template : Config) (ps : list (string * PlayerCfg)) : Config :=
  {| data_directory := data_directory template; game_id_file := game_id_file template;
     source := source template; model := model template;
     players := Some ps; advisors := advisors template; moves := moves template;
     ai_only := ai_only template; other_keys := other_keys template |}.

(** [merge_config]: the template object as the call leaves it, and the dict
    returned or the exception raised. *)
Definition merge_config (template : Config) (infra : Infra) (user_choices : UserChoices)
  : Config * outcome :=
  match infra_data_directory infra with
  | None => (template, Raises (KeyError "data_directory"))
  | Some dd =>
  match infra_game_id_file infra with
  | None => (template, Raises (KeyError "game_id_file"))
  | Some gif =>
  match players template with
  | None => (template, Raises (KeyError "players"))
  | Some ps =>
      let roles := match roles user_choices with Some r => r | None => [] end in
      let '(ps1, raised) := assign_roles roles 0 ps in
      if raised then (set_players template ps1, Raises IndexError)
      else
        let active :=
          match active_advisors user_choices with Some l => l | None => [] end in
        let advisors' :=
          match advisors template with
          | Some (a :: l) => filter (fun item => is_active active (fst item)) (a :: l)
          | Some [] | None => []
          end in
        let ps2 := map (fun item => (fst item, filter_references active (snd item))) ps1 in
        let moves' :=
          match chosen_moves user_choices with
          | Some m => Some m
          | None => moves template
          end in
        (set_players template ps2,
         Returns {| data_directory := Some dd;
                    game_id_file := Some gif;
                    source := Some (infra_source infra);
                    model := Some (infra_model infra);
                    players := Some ps2;
                    advisors := Some advisors';
                    moves := moves';
                    ai_only := Some (negb (existsb (fun item => is_human (snd item)) ps2));
                    other_keys := other_keys template |})
  end end end.

End MergeConfig.

(** ** The configuration object *)

Module Configuration.

Definition VALID_SOURCES : list string :=
  ["llamacpp"; "azure"; "openai"; "ollama"; "google"]%string.

(** [source if source in VALID_SOURCES else None], on the value of
    [config_dict.get('source')]. *)
Definition checked_source (source : option string) : option string :=
  match source with
  | Some s => if existsb (String.eqb s) VALID_SOURCES then Some s else None
  | None => None
  end.

(** The attributes of a [Configuration] object.  The values of [goals],
    [timestep], [nature] and [mode] are kept as the text of the dict they come
    from; [infodocs], which only the database reads, are left out. *)
Record t : Type := {
  data_dir : string;
  game_id_file : string;
  source : option string;
  model : option string;
  goals : string;
  title : string;
  scenario : string;
  moves : Z;
  timestep : string;
  nature : string;
  mode : string;
  players : list (string * MergeConfig.PlayerCfg);
  advisors : list (string * MergeConfig.AdvisorCfg);
  ai_only : bool
}.

(** What a constructor gives: the object, or the [KeyError] of a missing
    key. *)
Inductive result (A : Type) : Type :=
| Ok (a : A)
| KeyError (key : string).

Arguments Ok {A} a.
Arguments KeyError {A} key.

Definition bind {A B : Type} (r : result A) (k : A -> result B) : result B :=
  match r with
  | Ok a => k a
  | KeyError key => KeyError key
  end.

Notation "x <- r ;; k" := (bind r (fun x => k))
  (at level 61, r at next level, right associativity).

(** [d[key]], given the value of [d.get(key)]. *)
Definition need {A : Type} (key : string) (v : option A) : result A :=
  match v with
  | Some a => Ok a
  | None => KeyError key
  end.

(** [d.get(key)] on the keys kept in [other_keys]. *)
Definition item (d : MergeConfig.Config) (key : string) : option string :=
  option_map snd (find (fun kv => (fst kv =? key)%string) (MergeConfig.other_keys d)).

(** [d.get(key)] on a key whose value may be [None]. *)
Definition get {A : Type} (v : option (option A)) : option A :=
  match v with
  | Some a => a
  | None => None
  end.

(** [Configuration(config_path)], on the non-empty mapping the YAML file
    holds (for an empty file the constructor sets no attribute): every key is
    required but [source], [model], [infodocs] and [ai_only], which is false
    when the file does not give it. *)
Definition __init__ (file_config : MergeConfig.Config) : result t :=
  data_dir <- need "data_directory" (MergeConfig.data_directory file_config) ;;
  game_id_file <- need "game_id_file" (MergeConfig.game_id_file file_config) ;;
  goals <- need "goals" (item file_config "goals") ;;
  title <- need "title" (item file_config "title") ;;
  scenario <- need "scenario" (item file_config "scenario") ;;
  moves <- need "moves" (MergeConfig.moves file_config) ;;
  timestep <- need "timestep" (item file_config "timestep") ;;
  nature <- need "nature" (item file_config "nature") ;;
  mode <- need "mode" (item file_config "mode") ;;
  players <- need "players" (MergeConfig.players file_config) ;;
  advisors <- need "advisors" (MergeConfig.advisors file_config) ;;
  Ok {| data_dir := data_dir;
        game_id_file := game_id_file;
        source := checked_source (get (MergeConfig.source file_config));
        model := get (MergeConfig.model file_config);
        goals := goals; title := title; scenario := scenario; moves := moves;
        timestep := timestep; nature := nature; mode := mode;
        players := players; advisors := advisors;
        ai_only := match MergeConfig.ai_only file_config with
                   | Some b => b
                   | None => false
                   end |}.

(** [Configuration.from_dict]: as above, but without advisors when the dict
    has none. *)
Definition from_dict (config_dict : MergeConfig.Config) : result t :=
  data_dir <- need "data_directory" (MergeConfig.data_directory config_dict) ;;
  game_id_file <- need "game_id_file" (MergeConfig.game_id_file config_dict) ;;
  goals <- need "goals" (item config_dict "goals") ;;
  title <- need "title" (item config_dict "title") ;;
  scenario <- need "scenario" (item config_dict "scenario") ;;
  moves <- need "moves" (MergeConfig.moves config_dict) ;;
  timestep <- need "timestep" (item config_dict "timestep") ;;
  nature <- need "nature" (item config_dict "nature") ;;
  mode <- need "mode" (item config_dict "mode") ;;
  players <- need "players" (MergeConfig.players config_dict) ;;
  Ok {| data_dir := data_dir;
        game_id_file := game_id_file;
        source := checked_source (get (MergeConfig.source config_dict));
        model := get (MergeConfig.model config_dict);
        goals := goals; title := title; scenario := scenario; moves := moves;
        timestep := timestep; nature := nature; mode := mode;
        players := players;
        advisors := match MergeConfig.advisors config_dict with
                    | Some l => l
                    | None => []
                    end;
        ai_only := match MergeConfig.ai_only config_dict with
                   | Some b => b
                   | None => false
                   end |}.

End Configuration.

(** ** Building the game controller *)

Module GameConstruction.

Import Configuration.

(** [cfg_player.get(key)] on the keys kept in [player_other_keys]. *)
Definition player_item (cfg_player : MergeConfig.PlayerCfg) (key : string) : option string :=
  option_map snd
    (find (fun kv => (fst kv =? key)%string) (MergeConfig.player_other_keys cfg_player)).

(** The loop over [config.players] of [UserDefinedGame.__init__]: a human
    player with the two rooms of the game, an AI player, or, for any other
    kind, a warning and no player.  The keys it indexes are required. *)
Fixpoint build_players (gameroom chatroom : string)
    (ps : list (string * MergeConfig.PlayerCfg)) : result (list UserDefinedGame.Player) :=
  match ps with
  | [] => Ok []
  | (name, cfg_player) :: ps' =>
      kind <- need "kind" (MergeConfig.kind cfg_player) ;;
      sg_player <-
        (if (kind =? "human")%string then
           _ <- need "ioid" (MergeConfig.ioid cfg_player) ;;
           Ok (Some {| UserDefinedGame.name := name;
                       UserDefinedGame.kind := UserDefinedGame.human;
                       UserDefinedGame.gameroom := gameroom;
                       UserDefinedGame.chatroom := chatroom;
                       UserDefinedGame.active := true |})
         else if (kind =? "ai")%string then
           _ <- need "persona" (player_item cfg_player "persona") ;;
           _ <- need "goals" (player_item cfg_player "goals") ;;
           Ok (Some {| UserDefinedGame.name := name;
                       UserDefinedGame.kind := UserDefinedGame.ai;
                       UserDefinedGame.gameroom := "";
                       UserDefinedGame.chatroom := "";
                       UserDefinedGame.active := true |})
         else Ok None) ;;
      rest <- build_players gameroom chatroom ps' ;;
      Ok (match sg_player with
          | Some p => p :: rest
          | None => rest
          end)
  end.

(** The loop over [config.advisors]: one AI player per advisor, in the chat
    room of the game. *)
Definition build_advisors (chatroom : string)
    (advisors : list (string * MergeConfig.AdvisorCfg)) : list UserDefinedGame.Player :=
  map (fun item => {| UserDefinedGame.name := fst item;
                      UserDefinedGame.kind := UserDefinedGame.ai;
                      UserDefinedGame.gameroom := "";
                      UserDefinedGame.chatroom := chatroom;
                      UserDefinedGame.active := true |})
      advisors.

(** [UserDefinedGame.__init__], for the identifier [ioid] it draws: the
    controller and the state its coroutines start from.  The database, the
    game-id file, the cost ledger and the resolution of goal names, whose
    failures make the constructor raise too, are left out. *)
Definition __init__ (config : Configuration.t) (ioid : string)
  : result (UserDefinedGame.t * UserDefinedGame.Run) :=
  let gameroom := ("game" ++ ioid)%string in
  let chatroom := ("chat" ++ ioid)%string in
  players <- build_players gameroom chatroom (Configuration.players config) ;;
  Ok ({| UserDefinedGame.ioid := ioid;
         UserDefinedGame.title := Configuration.title config;
         UserDefinedGame.scenario := Configuration.scenario config;
         UserDefinedGame.players := players;
         UserDefinedGame.ai_only := Configuration.ai_only config;
         UserDefinedGame.moves := Z.to_nat (Configuration.moves config) |},
      {| UserDefinedGame.history := [];
         UserDefinedGame.sent := [];
         UserDefinedGame.calls := [];
         UserDefinedGame.headers := [];
         UserDefinedGame.log := [];
         UserDefinedGame.advisors := build_advisors chatroom (Configuration.advisors config);
         UserDefinedGame.moves_completed := 0 |}).

End GameConstruction.

(* ================================================================== *)
(** * Part II: binary64 facts *)
(* ================================================================== *)

(** The ledger's arithmetic is on non-negative quantities.  The facts below
    follow the sign (and, where needed, the size) of a value through the
    specification of the binary64 operations. *)

Section Binary64.

Unset Implicit Arguments.

Definition sf_pos_class (x : spec_float) : bool :=
  match x with
  | S754_zero false | S754_finite false _ _ | S754_infinity false => true
  | _ => false
  end.

Definition sf_pos_finite (x : spec_float) : bool :=
  match x with
  | S754_zero false | S754_finite false _ _ => true
  | _ => false
  end.

Lemma digits2_pos_size (p : positive) : digits2_pos p = Pos.size p.
Proof. induction p; simpl; congruence. Qed.

Lemma Zdigits2_le (m k : Z) : (0 <= m < 2 ^ k)%Z -> (0 <= k)%Z -> (Zdigits2 m <= k)%Z.
Proof.
  intros [H0 H1] Hk. destruct m as [|p|p]; simpl; try lia.
  rewrite digits2_pos_size.
  pose proof (Pos.size_le p) as Hs.
  assert (Hp : (2 ^ Z.pos (Pos.size p) <= 2 * Z.pos p)%Z).
  { rewrite <- Pos2Z.inj_pow. change (2 * Z.pos p)%Z with (Z.pos p~0). lia. }
  destruct (Z_lt_le_dec k (Z.pos (Pos.size p))) as [Hlt|]; [|lia].
  exfalso.
  assert (2 ^ (k + 1) <= 2 ^ Z.pos (Pos.size p))%Z by (apply Z.pow_le_mono_r; lia).
  rewrite Z.pow_add_r in H by lia. lia.
Qed.

Lemma shr_1_bounds (r : shr_record) :
  (0 <= shr_m r)%Z -> (0 <= shr_m (shr_1 r))%Z /\ (2 * shr_m (shr_1 r) <= shr_m r)%Z.
Proof.
  destruct r as [m r s]; simpl. intros H.
  destruct m as [|p|p]; simpl; try lia.
  destruct p; simpl; lia.
Qed.

Lemma iter_shr_1_bounds (p : positive) : forall r,
  (0 <= shr_m r)%Z ->
  (0 <= shr_m (iter_pos shr_1 p r))%Z /\
  (2 ^ Z.pos p * shr_m (iter_pos shr_1 p r) <= shr_m r)%Z.
Proof.
  induction p as [p IH|p IH|]; intros r H; simpl iter_pos.
  - destruct (shr_1_bounds r H) as [A1 A2].
    destruct (IH _ A1) as [B1 B2].
    destruct (IH _ B1) as [C1 C2].
    split; [exact C1|].
    replace (Z.pos p~1) with (Z.pos p + Z.pos p + 1)%Z by lia.
    rewrite !Z.pow_add_r by lia. change (2 ^ 1)%Z with 2%Z.
    assert (0 < 2 ^ Z.pos p)%Z by (apply Z.pow_pos_nonneg; lia). nia.
  - destruct (IH _ H) as [B1 B2].
    destruct (IH _ B1) as [C1 C2].
    split; [exact C1|].
    replace (Z.pos p~0) with (Z.pos p + Z.pos p)%Z by lia.
    rewrite !Z.pow_add_r by lia.
    assert (0 < 2 ^ Z.pos p)%Z by (apply Z.pow_pos_nonneg; lia). nia.
  - change (2 ^ 1)%Z with 2%Z. apply shr_1_bounds; assumption.
Qed.

Lemma shr_bounds (r : shr_record) (e n : Z) :
  (0 <= shr_m r)%Z ->
  (0 <= shr_m (fst (shr r e n)))%Z /\
  (2 ^ Z.max 0 n * shr_m (fst (shr r e n)) <= shr_m r)%Z /\
  snd (shr r e n) = (e + Z.max 0 n)%Z.
Proof.
  intros H. destruct n as [|p|p]; simpl fst; simpl snd.
  - change (Z.max 0 0) with 0%Z. change (2 ^ 0)%Z with 1%Z. lia.
  - replace (Z.max 0 (Z.pos p)) with (Z.pos p) by lia.
    destruct (iter_shr_1_bounds p r H) as [A B]. repeat split; auto.
  - replace (Z.max 0 (Z.neg p)) with 0%Z by lia. change (2 ^ 0)%Z with 1%Z. lia.
Qed.

Lemma shr_record_of_loc_m (m : Z) (l : location) : shr_m (shr_record_of_loc m l) = m.
Proof. destruct l as [|[]]; reflexivity. Qed.

Lemma shr_fexp_bounds (pr em m e : Z) (l : location) :
  (0 <= m)%Z ->
  let n := Z.max 0 (fexp pr em (Zdigits2 m + e) - e) in
  (0 <= shr_m (fst (shr_fexp pr em m e l)))%Z /\
  (2 ^ n * shr_m (fst (shr_fexp pr em m e l)) <= m)%Z /\
  snd (shr_fexp pr em m e l) = (e + n)%Z.
Proof.
  intros H n. unfold shr_fexp.
  pose proof (shr_bounds (shr_record_of_loc m l) e
                (fexp pr em (Zdigits2 m + e) - e)) as Hb.
  rewrite shr_record_of_loc_m in Hb. exact (Hb H).
Qed.

Lemma round_nearest_even_bounds (m : Z) (l : location) :
  (0 <= m)%Z -> (m <= round_nearest_even m l <= m + 1)%Z.
Proof.
  intros H. destruct l as [|[]]; simpl; try lia.
  destruct (Z.even m); lia.
Qed.

Lemma shifted_lt_pow (n k x m : Z) :
  (0 <= n)%Z -> (0 <= k)%Z -> (0 <= x)%Z ->
  (2 ^ n * x <= m)%Z -> (m < 2 ^ k)%Z -> (x < 2 ^ Z.max 0 (k - n))%Z.
Proof.
  intros Hn Hk Hx Hle Hlt.
  assert (Hp : (0 < 2 ^ n)%Z) by (apply Z.pow_pos_nonneg; lia).
  destruct (Z_le_gt_dec n k) as [Hnk|Hnk].
  - replace (Z.max 0 (k - n)) with (k - n)%Z by lia.
    replace k with (n + (k - n))%Z in Hlt by lia.
    rewrite Z.pow_add_r in Hlt by lia. nia.
  - replace (Z.max 0 (k - n)) with 0%Z by lia. change (2 ^ 0)%Z with 1%Z.
    assert (2 ^ k <= 2 ^ n)%Z by (apply Z.pow_le_mono_r; lia). nia.
Qed.

(** Rounding a non-negative mantissa with sign [false] never yields a NaN or a
    negative value. *)
Lemma binary_round_aux_pos_class (pr em m e : Z) (l : location) :
  (0 <= m)%Z -> sf_pos_class (binary_round_aux pr em false m e l) = true.
Proof.
  intros H. unfold binary_round_aux.
  pose proof (shr_fexp_bounds pr em m e l H) as [H1 _].
  destruct (shr_fexp pr em m e l) as [r1 e1]; simpl in H1.
  pose proof (round_nearest_even_bounds (shr_m r1) (loc_of_shr_record r1) H1) as H2.
  set (m1 := round_nearest_even (shr_m r1) (loc_of_shr_record r1)) in *.
  assert (Hm1 : (0 <= m1)%Z) by lia.
  pose proof (shr_fexp_bounds pr em m1 e1 loc_Exact Hm1) as [H3 _].
  destruct (shr_fexp pr em m1 e1 loc_Exact) as [r2 e2]; simpl in H3.
  destruct (shr_m r2) as [|p|p]; simpl; try lia; try reflexivity.
  destruct (Z.leb e2 (em - pr)); reflexivity.
Qed.

Definition sf_bounded (E : Z) (x : spec_float) : Prop :=
  match x with
  | S754_zero false => True
  | S754_finite false _ e => (e <= E)%Z
  | _ => False
  end.

(** When mantissa and exponent are small enough, the rounded result is finite,
    with an exponent below the bound [E]. *)
Lemma binary_round_aux_bounded (m e : Z) (l : location) (k E : Z) :
  (0 <= m < 2 ^ k)%Z -> (0 <= k)%Z -> (e <= E)%Z -> (k + e - 52 <= E)%Z ->
  (-1074 <= E <= 971)%Z ->
  sf_bounded E (binary_round_aux prec emax false m e l).
Proof.
  intros Hm Hk He Hke HE. unfold binary_round_aux.
  pose proof (shr_fexp_bounds prec emax m e l (proj1 Hm)) as H1.
  cbv zeta in H1.
  set (n1 := Z.max 0 (fexp prec emax (Zdigits2 m + e) - e)) in *.
  destruct H1 as (P1 & S1 & E1).
  destruct (shr_fexp prec emax m e l) as [r1 e1]; simpl in P1, S1, E1.
  pose proof (round_nearest_even_bounds (shr_m r1) (loc_of_shr_record r1) P1) as H2.
  set (m1 := round_nearest_even (shr_m r1) (loc_of_shr_record r1)) in *.
  assert (Hm1 : (0 <= m1)%Z) by lia.
  pose proof (shr_fexp_bounds prec emax m1 e1 loc_Exact Hm1) as H3.
  cbv zeta in H3.
  set (n2 := Z.max 0 (fexp prec emax (Zdigits2 m1 + e1) - e1)) in *.
  destruct H3 as (P2 & S2 & E2).
  destruct (shr_fexp prec emax m1 e1 loc_Exact) as [r2 e2]; simpl in P2, S2, E2.
  assert (Hd : (Zdigits2 m <= k)%Z) by (apply Zdigits2_le; lia).
  assert (Hn1 : (0 <= n1)%Z) by (unfold n1; lia).
  pose proof (shifted_lt_pow n1 k (shr_m r1) m Hn1 Hk P1 S1 (proj2 Hm)) as Hj.
  set (j := Z.max 0 (k - n1)) in *.
  assert (Hd1 : (Zdigits2 m1 <= j + 1)%Z).
  { apply Zdigits2_le; [|unfold j; lia]. rewrite Z.pow_add_r by (unfold j; lia). lia. }
  unfold fexp, SpecFloat.emin in n1, n2.
  change prec with 53%Z in *. change emax with 1024%Z in *.
  change IntDef.Z.max with Z.max in *.
  assert (He2 : (e2 <= E)%Z) by (unfold n1, n2, j in *; lia).
  destruct (shr_m r2) as [|p|p]; simpl; try lia; try exact I.
  destruct (Z.leb_spec e2 971) as [|Hgt]; simpl; lia.
Qed.

Lemma sf_bounded_finite (E : Z) (x : spec_float) : sf_bounded E x -> sf_pos_finite x = true.
Proof. destruct x as [[]|[]| |[] m e]; simpl; intros H; try reflexivity; contradiction. Qed.

Lemma sf_pos_finite_class (x : spec_float) : sf_pos_finite x = true -> sf_pos_class x = true.
Proof. destruct x as [[]|[]| |[] m e]; simpl; intros H; try reflexivity; discriminate. Qed.

Lemma pos_iter_xO (d m : positive) : Z.pos (Pos.iter xO m d) = (Z.pos m * 2 ^ Z.pos d)%Z.
Proof.
  revert m. induction d using Pos.peano_ind; intros m.
  - simpl. lia.
  - rewrite Pos.iter_succ. rewrite Pos2Z.inj_xO, IHd.
    rewrite Pos2Z.inj_succ, Z.pow_succ_r by lia. lia.
Qed.

Lemma shl_align_bounds (mx : positive) (ex ex' k : Z) :
  (Z.pos mx < 2 ^ k)%Z -> (0 <= k)%Z ->
  let mz := fst (shl_align mx ex ex') in
  let ez := snd (shl_align mx ex ex') in
  (ez <= ex)%Z /\ (Z.pos mz < 2 ^ (k + (ex - ez)))%Z.
Proof.
  intros Hm Hk. unfold shl_align.
  destruct (ex' - ex)%Z as [|d|d] eqn:Hd; simpl.
  - rewrite Z.sub_diag, Z.add_0_r. lia.
  - rewrite Z.sub_diag, Z.add_0_r. lia.
  - split; [lia|]. rewrite pos_iter_xO.
    replace (ex - ex')%Z with (Z.pos d) by lia.
    rewrite Z.pow_add_r by lia.
    assert (0 < 2 ^ Z.pos d)%Z by (apply Z.pow_pos_nonneg; lia). nia.
Qed.

Lemma binary_round_pos_class (pr em : Z) (mx : positive) (ex : Z) :
  sf_pos_class (binary_round pr em false mx ex) = true.
Proof.
  unfold binary_round.
  destruct (shl_align mx ex (fexp pr em (Z.pos (digits2_pos mx) + ex))) as [mz ez].
  apply binary_round_aux_pos_class. lia.
Qed.

Lemma binary_round_bounded (mx : positive) (ex k E : Z) :
  (Z.pos mx < 2 ^ k)%Z -> (0 <= k)%Z -> (ex <= E)%Z -> (k + ex - 52 <= E)%Z ->
  (-1074 <= E <= 971)%Z ->
  sf_bounded E (binary_round prec emax false mx ex).
Proof.
  intros Hm Hk He Hke HE. unfold binary_round.
  pose proof (shl_align_bounds mx ex (fexp prec emax (Z.pos (digits2_pos mx) + ex)) k Hm Hk) as Hs.
  destruct (shl_align mx ex (fexp prec emax (Z.pos (digits2_pos mx) + ex))) as [mz ez].
  simpl in Hs. destruct Hs as [Hez Hmz].
  apply binary_round_aux_bounded with (k := (k + (ex - ez))%Z); lia.
Qed.

Lemma binary_normalize_pos_class (pr em m e : Z) :
  (0 <= m)%Z -> sf_pos_class (binary_normalize pr em m e false) = true.
Proof.
  intros H. destruct m as [|p|p]; simpl; try reflexivity; try lia.
  apply binary_round_pos_class.
Qed.

(** A valid finite binary64 value has a mantissa below [2^53]. *)
Lemma valid_mantissa (s : bool) (m : positive) (e : Z) :
  valid_binary (S754_finite s m e) = true -> (Z.pos m < 2 ^ 53)%Z.
Proof.
  simpl. unfold bounded, canonical_mantissa. intros H.
  apply andb_prop in H. destruct H as [H _]. apply Z.eqb_eq in H.
  unfold fexp, SpecFloat.emin in H. change prec with 53%Z in H.
  rewrite digits2_pos_size in H.
  assert (Hs : (Z.pos (Pos.size m) <= 53)%Z).
  { change IntDef.Z.max with Z.max in H. lia. }
  pose proof (Pos.size_gt m) as Hg.
  assert (Hg' : (Z.pos m < 2 ^ Z.pos (Pos.size m))%Z).
  { rewrite <- Pos2Z.inj_pow. lia. }
  assert (2 ^ Z.pos (Pos.size m) <= 2 ^ 53)%Z by (apply Z.pow_le_mono_r; lia).
  lia.
Qed.

Lemma SFdiv_core_binary_bounds (m1 m2 : positive) (e1 e2 k : Z) :
  (Z.pos m1 < 2 ^ k)%Z -> (0 <= k)%Z ->
  let '(q, e', _) := SFdiv_core_binary prec emax (Z.pos m1) e1 (Z.pos m2) e2 in
  (e' <= e1 - e2)%Z /\ (0 <= q < 2 ^ (k + (e1 - e2 - e')))%Z.
Proof.
  intros Hm Hk. unfold SFdiv_core_binary.
  set (e' := Z.min _ _).
  assert (He' : (e' <= e1 - e2)%Z) by (unfold e'; change IntDef.Z.min with Z.min; lia).
  set (m' := match (e1 - e2 - e')%Z with Z.pos _ => _ | Z0 => _ | Z.neg _ => _ end).
  assert (Hm' : (0 <= m' < 2 ^ (k + (e1 - e2 - e')))%Z).
  { unfold m'. destruct (e1 - e2 - e')%Z as [|s|s] eqn:Hs; try lia.
    - rewrite Z.add_0_r. lia.
    - rewrite Z.shiftl_mul_pow2 by lia. rewrite Z.pow_add_r by lia.
      assert (0 < 2 ^ Z.pos s)%Z by (apply Z.pow_pos_nonneg; lia). nia. }
  clearbody m' e'.
  pose proof (Z.div_eucl_eq m' (Z.pos m2) ltac:(lia)) as Heq.
  pose proof (Z.mod_pos_bound m' (Z.pos m2) ltac:(lia)) as Hmod.
  unfold Z.modulo in Hmod.
  destruct (Z.div_eucl m' (Z.pos m2)) as [q r].
  split; [exact He'|]. nia.
Qed.


(** *** On primitive floats *)

Definition nonneg (x : float) : Prop := sf_pos_class (Prim2SF x) = true.
Definition nonneg_finite (x : float) : Prop := sf_pos_finite (Prim2SF x) = true.

Lemma nonneg_finite_nonneg (x : float) : nonneg_finite x -> nonneg x.
Proof. apply sf_pos_finite_class. Qed.

Lemma of_uint63_bounded (n : int) : sf_bounded 11 (Prim2SF (of_uint63 n)).
Proof.
  rewrite FloatAxioms.of_uint63_spec.
  pose proof (Uint63.to_Z_bounded n) as Hb.
  change Uint63Axioms.to_Z with Uint63.to_Z.
  destruct (Uint63.to_Z n) as [|p|p] eqn:Hn; simpl; try exact I; try lia.
  apply binary_round_bounded with (k := 63%Z); try lia.
  change wB with (2 ^ 63)%Z in Hb. lia.
Qed.

(** A character count divided by [CHARS_PER_TOKEN] is a finite, non-negative
    number of tokens. *)
Lemma tokens_nonneg_finite (n : int) :
  nonneg_finite (Builtins.int_truediv n Pricing.CHARS_PER_TOKEN).
Proof.
  unfold nonneg_finite, Builtins.int_truediv. rewrite FloatAxioms.div_spec.
  pose proof (of_uint63_bounded n) as Hb.
  pose proof (Prim2SF_valid (of_uint63 n)) as Hv.
  replace (Prim2SF (of_uint63 Pricing.CHARS_PER_TOKEN))
    with (S754_finite false 4503599627370496 (-50)) by (vm_compute; reflexivity).
  destruct (Prim2SF (of_uint63 n)) as [[]|[]| |[] m e]; simpl in Hb; try contradiction;
    try reflexivity.
  apply valid_mantissa in Hv.
  unfold SF64div, SFdiv.
  pose proof (SFdiv_core_binary_bounds m 4503599627370496 e (-50) 53 Hv ltac:(lia)) as Hd.
  destruct (SFdiv_core_binary prec emax (Z.pos m) e (Z.pos 4503599627370496) (-50))
    as [[q e'] l].
  destruct Hd as [He' Hq]. simpl xorb.
  apply sf_bounded_finite with (E := 62%Z).
  apply binary_round_aux_bounded with (k := (53 + (e - -50 - e'))%Z); lia.
Qed.

Lemma mul_nonneg (x y : float) : nonneg_finite x -> nonneg_finite y -> nonneg (x * y).
Proof.
  unfold nonneg_finite, nonneg. rewrite FloatAxioms.mul_spec. unfold SF64mul.
  destruct (Prim2SF x) as [[]|[]| |[] mx ex]; simpl; try discriminate;
    destruct (Prim2SF y) as [[]|[]| |[] my ey]; simpl; try discriminate;
    intros _ _; try reflexivity.
  apply binary_round_aux_pos_class. lia.
Qed.

Lemma mul_zero (x : float) : nonneg_finite x -> (x * 0)%float = 0%float.
Proof.
  unfold nonneg_finite. intros H. apply Prim2SF_inj. rewrite FloatAxioms.mul_spec.
  unfold SF64mul.
  replace (Prim2SF 0) with (S754_zero false) by (vm_compute; reflexivity).
  destruct (Prim2SF x) as [[]|[]| |[] mx ex]; simpl in *; try discriminate; reflexivity.
Qed.

Definition sf_pos_normal (x : spec_float) : bool :=
  match x with
  | S754_finite false _ _ => true
  | _ => false
  end.

Lemma SFdiv_core_binary_nonneg (m1 m2 : positive) (e1 e2 : Z) :
  (0 <= fst (fst (SFdiv_core_binary prec emax (Z.pos m1) e1 (Z.pos m2) e2)))%Z.
Proof.
  pose proof (Pos.size_gt m1) as Hg.
  assert (Hg' : (Z.pos m1 < 2 ^ Z.pos (Pos.size m1))%Z).
  { rewrite <- Pos2Z.inj_pow. lia. }
  pose proof (SFdiv_core_binary_bounds m1 m2 e1 e2 _ Hg' ltac:(lia)) as Hd.
  destruct (SFdiv_core_binary prec emax (Z.pos m1) e1 (Z.pos m2) e2) as [[q e'] l].
  simpl. lia.
Qed.

Lemma div_nonneg (x y : float) :
  nonneg x -> sf_pos_normal (Prim2SF y) = true -> nonneg (x / y).
Proof.
  unfold nonneg. rewrite FloatAxioms.div_spec. unfold SF64div.
  destruct (Prim2SF x) as [[]|[]| |[] mx ex]; simpl; try discriminate;
    destruct (Prim2SF y) as [[]|[]| |[] my ey]; simpl; try discriminate;
    intros _ _; try reflexivity.
  pose proof (SFdiv_core_binary_nonneg mx my ex ey) as Hq.
  destruct (SFdiv_core_binary prec emax (Z.pos mx) ex (Z.pos my) ey) as [[q e'] l].
  simpl in Hq. apply binary_round_aux_pos_class. exact Hq.
Qed.

Lemma zero_div (y : float) :
  sf_pos_normal (Prim2SF y) = true -> (0 / y)%float = 0%float.
Proof.
  intros H. apply Prim2SF_inj. rewrite FloatAxioms.div_spec. unfold SF64div.
  replace (Prim2SF 0) with (S754_zero false) by (vm_compute; reflexivity).
  destruct (Prim2SF y) as [[]|[]| |[] my ey]; simpl in *; try discriminate; reflexivity.
Qed.

Lemma add_nonneg (x y : float) : nonneg x -> nonneg y -> nonneg (x + y).
Proof.
  unfold nonneg. rewrite FloatAxioms.add_spec. unfold SF64add.
  destruct (Prim2SF x) as [[]|[]| |[] mx ex]; simpl; try discriminate;
    destruct (Prim2SF y) as [[]|[]| |[] my ey]; simpl; try discriminate;
    intros _ _; try reflexivity.
  apply binary_round_pos_class.
Qed.

Lemma nonneg_leb (x : float) : nonneg x -> (0 <=? x)%float = true.
Proof.
  unfold nonneg. rewrite FloatAxioms.leb_spec.
  replace (Prim2SF 0) with (S754_zero false) by (vm_compute; reflexivity).
  destruct (Prim2SF x) as [[]|[]| |[] mx ex]; simpl; try discriminate; reflexivity.
Qed.

(** Converting a sign-clear specification value to a float keeps the sign
    clear. *)
Lemma SF2Prim_nonneg (x : spec_float) : sf_pos_class x = true -> nonneg (SF2Prim x).
Proof.
  unfold nonneg.
  destruct x as [[]|[]| |[] m e]; simpl; try discriminate; intros _;
    try (vm_compute; reflexivity).
  rewrite Z_ldexp_spec, FloatAxioms.of_uint63_spec.
  set (z := Uint63Axioms.to_Z _).
  assert (Hz : (0 <= z)%Z).
  { unfold z. change Uint63Axioms.to_Z with Uint63.to_Z.
    apply (Uint63.to_Z_bounded _). }
  clearbody z.
  destruct z as [|p|p]; simpl; try reflexivity; try lia.
  pose proof (binary_round_pos_class prec emax p 0) as Hc.
  destruct (binary_round prec emax false p 0) as [[]|[]| |[] m' e']; simpl in *;
    try discriminate; try reflexivity.
  apply binary_round_pos_class.
Qed.

Lemma nearest_float_pos_class (num den : Z) :
  (0 <= num)%Z -> (0 < den)%Z ->
  sf_pos_class (Builtins.nearest_float false num den) = true.
Proof.
  intros Hn Hd. unfold Builtins.nearest_float.
  destruct num as [|n|n]; try reflexivity; try lia.
  destruct den as [|d|d]; try lia.
  pose proof (SFdiv_core_binary_nonneg n d 0 0) as Hq.
  destruct (SFdiv_core_binary prec emax (Z.pos n) 0 (Z.pos d) 0) as [[q e'] l].
  simpl in Hq. apply binary_round_aux_pos_class. exact Hq.
Qed.

Lemma round_half_even_nonneg (num den : Z) :
  (0 <= num)%Z -> (0 < den)%Z -> (0 <= Builtins.round_half_even num den)%Z.
Proof.
  intros Hn Hd. unfold Builtins.round_half_even.
  assert (0 <= num / den)%Z by (apply Z.div_pos; lia).
  destruct (2 * (num mod den) ?= den)%Z; try lia.
  destruct (Z.even (num / den)); lia.
Qed.

(** [round] keeps a sign-clear value sign-clear. *)
Lemma round_nonneg (x : float) (n : nat) : nonneg x -> nonneg (Builtins.round x n).
Proof.
  intros H. unfold Builtins.round. unfold nonneg in H.
  destruct (Prim2SF x) as [[]|[]| |[] m e] eqn:Hx; simpl in H; try discriminate;
    try (unfold nonneg; rewrite Hx; reflexivity).
  apply SF2Prim_nonneg. apply nearest_float_pos_class.
  - assert (Hp : (0 < 10 ^ Z.of_nat n)%Z) by (apply Z.pow_pos_nonneg; lia).
    destruct e as [|e|e].
    + change (2 ^ 0)%Z with 1%Z. apply Z.mul_nonneg_nonneg; lia.
    + assert (0 < 2 ^ Z.pos e)%Z by (apply Z.pow_pos_nonneg; lia).
      apply Z.mul_nonneg_nonneg; [apply Z.mul_nonneg_nonneg|]; lia.
    + apply round_half_even_nonneg; [apply Z.mul_nonneg_nonneg; lia|].
      apply Z.pow_pos_nonneg; lia.
  - apply Z.pow_pos_nonneg; lia.
Qed.

(** Adding the float zero does not change how a value compares. *)
Lemma ltb_add_zero (c x : float) : (c <? x + 0)%float = (c <? x)%float.
Proof.
  rewrite !FloatAxioms.ltb_spec, FloatAxioms.add_spec. unfold SF64add.
  replace (Prim2SF 0) with (S754_zero false) by (vm_compute; reflexivity).
  destruct (Prim2SF x) as [[]|[]| |[] mx ex]; simpl; try reflexivity;
    destruct (Prim2SF c) as [[]|[]| |[] mc ec]; reflexivity.
Qed.

End Binary64.

(** *** Comparisons *)

Lemma SFcompare_swap (x y : spec_float) :
  SFcompare y x = option_map CompOpp (SFcompare x y).
Proof.
  destruct x as [[]|[]| |[] mx ex]; destruct y as [[]|[]| |[] my ey]; simpl;
    try reflexivity;
    rewrite (Z.compare_antisym ex ey); destruct (ex ?= ey)%Z; simpl; try reflexivity;
    rewrite !Pos.compare_cont_spec;
    rewrite (Pos.compare_antisym mx my); destruct (mx ?= my)%positive; reflexivity.
Qed.

Lemma leb_not_ltb (a b : float) : (a <=? b)%float = true -> (b <? a)%float = false.
Proof.
  rewrite FloatAxioms.leb_spec, FloatAxioms.ltb_spec. unfold SFleb, SFltb.
  rewrite (SFcompare_swap (Prim2SF a) (Prim2SF b)).
  destruct (SFcompare (Prim2SF a) (Prim2SF b)) as [[]|]; simpl; congruence.
Qed.

Lemma eqb_leb (a b : float) : (a =? b)%float = true -> (a <=? b)%float = true.
Proof.
  rewrite FloatAxioms.eqb_spec, FloatAxioms.leb_spec. unfold SFeqb, SFleb.
  destruct (SFcompare (Prim2SF a) (Prim2SF b)) as [[]|]; simpl; congruence.
Qed.

(* ================================================================== *)
(** * Part III: the ledger's properties *)
(* ================================================================== *)

Section LedgerFacts.

Import Pricing CostTracker.

Unset Implicit Arguments.

(** The ledger of the specification's scenario: caps 2.00 and 10.00, one
    recorded call that cost 1.50. *)
Definition scenario_entry : CostRecord :=
  new_entry 1000 "openai" "gpt-4o" 2400000%uint63 0%uint63 1.25.

Definition scenario_ledger : CostTracker.t :=
  {| path := "/data/snowglobe/cost_ledger.json";
     daily_cap := 2.00; total_cap := 10.00; logger := false;
     records := [scenario_entry] |}.

(** C1.  [check_budget x] raises [CostLimitExceeded], and nothing else, exactly
    when [daily + x > daily_cap] or [total + x > total_cap], where [daily] sums
    the costs of the records with [ts >= now - 86400] and [total] sums all
    costs.  The daily check comes first: when it fails the message is the daily
    one, whatever the total check would say; the total message is raised only
    when the daily check passes.  Each message holds the spend, the increment
    and the cap of the check that failed.  With a sum equal to its cap (and the
    other check passing) nothing is raised.  In the scenario of the
    specification, a single recorded cost of 1.50 under caps 2.00 and 10.00,
    [check_budget 0.60] raises the daily message although the total check
    passes. *)
Theorem check_budget_raises_iff_over_a_cap :
  (forall (self : CostTracker.t) (now x : float),
     let daily :=
       Builtins.sum (map cost (filter (fun r => (now - 86400 <=? ts r)%float)
                                      (records self))) in
     let total := Builtins.sum (map cost (records self)) in
     spend_last_24h self now = daily /\
     spend_total self = total /\
     ((exists e, check_budget self now x = Raise e)
      <-> ((daily_cap self <? daily + x)%float = true
           \/ (total_cap self <? total + x)%float = true)) /\
     (forall e, check_budget self now x = Raise e -> exn_cls e = CostLimitExceeded) /\
     ((daily_cap self <? daily + x)%float = true ->
      check_budget self now x
      = Raise {| exn_cls := CostLimitExceeded;
                 exn_args := daily_message daily x (daily_cap self) |}) /\
     ((daily_cap self <? daily + x)%float = false ->
      (total_cap self <? total + x)%float = true ->
      check_budget self now x
      = Raise {| exn_cls := CostLimitExceeded;
                 exn_args := total_message total x (total_cap self) |}) /\
     (In (Fixed 4 daily) (daily_message daily x (daily_cap self))
      /\ In (Fixed 4 x) (daily_message daily x (daily_cap self))
      /\ In (Fixed 2 (daily_cap self)) (daily_message daily x (daily_cap self))) /\
     (In (Fixed 4 total) (total_message total x (total_cap self))
      /\ In (Fixed 4 x) (total_message total x (total_cap self))
      /\ In (Fixed 2 (total_cap self)) (total_message total x (total_cap self))) /\
     ((daily + x =? daily_cap self)%float = true ->
      (total + x <=? total_cap self)%float = true ->
      check_budget self now x = Return tt) /\
     ((total + x =? total_cap self)%float = true ->
      (daily + x <=? daily_cap self)%float = true ->
      check_budget self now x = Return tt))
  /\
  (cost scenario_entry = 1.5%float
   /\ check_budget scenario_ledger 1060 0.60
      = Raise {| exn_cls := CostLimitExceeded;
                 exn_args := daily_message 1.5 0.60 2.00 |}
   /\ (total_cap scenario_ledger <? spend_total scenario_ledger + 0.60)%float = false).
Proof.
  split.
  - intros self now x daily total.
    assert (Hd : spend_last_24h self now = daily) by reflexivity.
    assert (Ht : spend_total self = total) by reflexivity.
    unfold check_budget. rewrite Hd, Ht. clearbody daily total.
    repeat split.
    + intros [e He].
      destruct (daily_cap self <? daily + x)%float; [now left|].
      destruct (total_cap self <? total + x)%float; [now right|discriminate].
    + intros [H|H].
      * rewrite H. eexists; reflexivity.
      * rewrite H. destruct (daily_cap self <? daily + x)%float; eexists; reflexivity.
    + intros e He.
      destruct (daily_cap self <? daily + x)%float;
        [|destruct (total_cap self <? total + x)%float];
        inversion He; reflexivity.
    + intros H. rewrite H. reflexivity.
    + intros H1 H2. rewrite H1, H2. reflexivity.
    + simpl; auto.
    + simpl; auto 10.
    + simpl; auto 10.
    + simpl; auto.
    + simpl; auto 10.
    + simpl; auto 10.
    + intros H1 H2.
      rewrite (leb_not_ltb _ _ (eqb_leb _ _ H1)), (leb_not_ltb _ _ H2). reflexivity.
    + intros H1 H2.
      rewrite (leb_not_ltb _ _ H2), (leb_not_ltb _ _ (eqb_leb _ _ H1)). reflexivity.
  - repeat split; vm_compute; reflexivity.
Qed.

(** *** The pricing lookup *)

Lemma find_first {A : Type} (f : A -> bool) (before : list A) (x : A) (after : list A) :
  (forall y, In y before -> f y = false) -> f x = true ->
  find f (before ++ x :: after) = Some x.
Proof.
  intros Hb Hx. induction before as [|y before IH]; simpl.
  - rewrite Hx. reflexivity.
  - rewrite (Hb y (or_introl eq_refl)). apply IH.
    intros z Hz. apply Hb. right. exact Hz.
Qed.

Lemma find_nowhere {A : Type} (f : A -> bool) (l : list A) :
  (forall y, In y l -> f y = false) -> find f l = None.
Proof.
  intros H. induction l as [|y l IH]; simpl; [reflexivity|].
  rewrite (H y (or_introl eq_refl)). apply IH. intros z Hz. apply H. right. exact Hz.
Qed.

Lemma key_eqb_eq (k1 k2 : string * string) : key_eqb k1 k2 = true <-> k1 = k2.
Proof.
  unfold key_eqb. destruct k1 as [a b], k2 as [c d]; simpl.
  rewrite andb_true_iff, !String.eqb_eq. split.
  - intros [-> ->]. reflexivity.
  - intros H. inversion H. auto.
Qed.

Lemma prefix_match_spec (source model : string) (kv : (string * string) * Price) :
  prefix_match source model kv = true
  <-> fst (fst kv) = source /\ String.prefix (snd (fst kv)) model = true.
Proof.
  unfold prefix_match. rewrite andb_true_iff, String.eqb_eq. reflexivity.
Qed.

Lemma dict_get_missing (key : string * string) :
  (forall price, ~ In (key, price) PRICING) -> dict_get PRICING key = None.
Proof.
  intros H. unfold dict_get. rewrite find_nowhere; [reflexivity|].
  intros [k price] Hin. simpl. destruct (key_eqb k key) eqn:E; [|reflexivity].
  apply key_eqb_eq in E. subst k. elim (H price Hin).
Qed.

(** The keys of [PRICING] are pairwise distinct, so an entry of the table is
    what indexing by its key returns. *)
Lemma dict_get_entry (key : string * string) (price : Price) :
  In (key, price) PRICING -> dict_get PRICING key = Some price.
Proof.
  unfold PRICING. simpl.
  intros [H|[H|[H|[H|[H|[H|[]]]]]]]; inversion H; reflexivity.
Qed.

(** The two terms of the estimate of a free call vanish. *)
Lemma free_term (n : int) :
  (Builtins.int_truediv n CHARS_PER_TOKEN * 0 / 1000000)%float = 0%float.
Proof.
  rewrite (mul_zero _ (tokens_nonneg_finite n)).
  apply zero_div. vm_compute. reflexivity.
Qed.

(** C2.  [estimate_cost] is a function of its four arguments:
    [(prompt_chars / 4) * input_rate / 1e6 + (response_chars / 4) * output_rate / 1e6],
    with the rates [_lookup_pricing] resolves.  The lookup gives rate 0 to the
    local provider [ollama] for every model; otherwise the entry of [PRICING]
    under the exact key (source, model); otherwise the first declared entry
    whose source matches and whose model prefix is a prefix of the model;
    otherwise the fallback rates.  A call to [ollama] costs exactly 0. *)
Theorem estimate_cost_formula_and_lookup_precedence
    (source model : string) (prompt_chars response_chars : int) :
  estimate_cost source model prompt_chars response_chars
  = (Builtins.int_truediv prompt_chars 4%uint63
       * input (_lookup_pricing source model) / 1000000
     + Builtins.int_truediv response_chars 4%uint63
       * output (_lookup_pricing source model) / 1000000)%float
  /\ (source = "ollama"%string ->
      _lookup_pricing source model = {| input := 0; output := 0 |})
  /\ (source <> "ollama"%string ->
      forall price, In ((source, model), price) PRICING ->
      _lookup_pricing source model = price)
  /\ (source <> "ollama"%string ->
      (forall price, ~ In ((source, model), price) PRICING) ->
      forall before kv after,
        PRICING = before ++ kv :: after ->
        (forall kv', In kv' before ->
           ~ (fst (fst kv') = source /\ String.prefix (snd (fst kv')) model = true)) ->
        fst (fst kv) = source -> String.prefix (snd (fst kv)) model = true ->
        _lookup_pricing source model = snd kv)
  /\ (source <> "ollama"%string ->
      (forall price, ~ In ((source, model), price) PRICING) ->
      (forall kv, In kv PRICING ->
         ~ (fst (fst kv) = source /\ String.prefix (snd (fst kv)) model = true)) ->
      _lookup_pricing source model = {| input := 5.00; output := 15.00 |})
  /\ estimate_cost "ollama" model prompt_chars response_chars = 0%float.
Proof.
  assert (Hno : forall l : list ((string * string) * Price),
             (forall kv', In kv' l ->
                ~ (fst (fst kv') = source /\ String.prefix (snd (fst kv')) model = true)) ->
             forall y, In y l -> prefix_match source model y = false).
  { intros l H y Hy. destruct (prefix_match source model y) eqn:E; [|reflexivity].
    apply prefix_match_spec in E. elim (H y Hy E). }
  repeat split.
  - intros ->. reflexivity.
  - intros Hs price Hin. unfold _lookup_pricing.
    apply String.eqb_neq in Hs. rewrite Hs, (dict_get_entry _ _ Hin). reflexivity.
  - intros Hs Hex before kv after Hsplit Hbefore Hk Hp. unfold _lookup_pricing.
    apply String.eqb_neq in Hs. rewrite Hs, (dict_get_missing _ Hex), Hsplit.
    rewrite find_first; [reflexivity| |].
    + apply Hno. exact Hbefore.
    + apply prefix_match_spec. split; assumption.
  - intros Hs Hex Hnone. unfold _lookup_pricing.
    apply String.eqb_neq in Hs. rewrite Hs, (dict_get_missing _ Hex).
    rewrite find_nowhere; [reflexivity|]. apply Hno. exact Hnone.
  - unfold estimate_cost. change (_lookup_pricing "ollama" model) with free.
    change (input free) with 0%float. change (output free) with 0%float.
    rewrite !free_term. vm_compute. reflexivity.
Qed.

(** The precedence at work: an exact key wins over an earlier prefix, a dated
    model name falls to the first declared prefix, an unknown source to the
    fallback, and [ollama] is free. *)
Lemma estimate_cost_formula_and_lookup_precedence_witness :
  _lookup_pricing "ollama" "llama3" = {| input := 0; output := 0 |}
  /\ _lookup_pricing "openai" "gpt-4o-mini" = {| input := 0.15; output := 0.60 |}
  /\ _lookup_pricing "openai" "gpt-4o-mini-2024" = {| input := 2.50; output := 10.00 |}
  /\ _lookup_pricing "azure" "gpt-4o" = {| input := 5.00; output := 15.00 |}
  /\ estimate_cost "ollama" "llama3" 4000000%uint63 4000000%uint63 = 0%float.
Proof.
  pose proof (estimate_cost_formula_and_lookup_precedence
                "ollama" "llama3" 4000000%uint63 4000000%uint63) as (_ & H1 & _ & _ & _ & H5).
  pose proof (estimate_cost_formula_and_lookup_precedence
                "openai" "gpt-4o-mini" 0%uint63 0%uint63) as (_ & _ & H2 & _).
  pose proof (estimate_cost_formula_and_lookup_precedence
                "openai" "gpt-4o-mini-2024" 0%uint63 0%uint63) as (_ & _ & _ & H3 & _).
  pose proof (estimate_cost_formula_and_lookup_precedence
                "azure" "gpt-4o" 0%uint63 0%uint63) as (_ & _ & _ & _ & H4 & _).
  split; [exact (H1 eq_refl)|].
  split; [apply H2; [discriminate | simpl; auto 10]|].
  split.
  { apply (H3 ltac:(discriminate)) with
      (before := firstn 4 PRICING) (kv := nth 4 PRICING (("", ""), free)%string)
      (after := skipn 5 PRICING).
    - intros price Hin. simpl in Hin.
      repeat (destruct Hin as [Hin|Hin]; [discriminate Hin|]). exact Hin.
    - reflexivity.
    - intros kv' Hin [Hsrc Hpre]. simpl in Hin.
      repeat (destruct Hin as [Hin|Hin]; [subst kv'; simpl in *; discriminate|]).
      exact Hin.
    - reflexivity.
    - reflexivity. }
  split; [|exact H5].
  apply (H4 ltac:(discriminate)).
  - intros price Hin. simpl in Hin.
    repeat (destruct Hin as [Hin|Hin]; [discriminate Hin|]). exact Hin.
  - intros kv Hin [Hsrc Hpre]. simpl in Hin.
    repeat (destruct Hin as [Hin|Hin]; [subst kv; simpl in *; discriminate|]).
    exact Hin.
Defined.

(** C7.  A (source, model) pair that matches no declared entry, neither by its
    exact key nor by source and model prefix, with a source other than the free
    local one, resolves to the fallback rates; and the fallback's input and
    output rates are strictly higher than the input and output rates of every
    declared entry (hence of every entry of the pair's provider). *)
Theorem unmatched_pair_gets_pessimistic_fallback (source model : string) :
  source <> "ollama"%string ->
  (forall kv, In kv PRICING ->
     ~ (fst (fst kv) = source
        /\ (snd (fst kv) = model \/ String.prefix (snd (fst kv)) model = true))) ->
  _lookup_pricing source model = fallback
  /\ fallback = {| input := 5.00; output := 15.00 |}
  /\ forall kv, In kv PRICING ->
       (input (snd kv) <? input fallback)%float = true
       /\ (output (snd kv) <? output fallback)%float = true.
Proof.
  intros Hs Hnone. split; [|split; [reflexivity|]].
  - unfold _lookup_pricing. apply String.eqb_neq in Hs. rewrite Hs.
    rewrite dict_get_missing.
    + rewrite find_nowhere; [reflexivity|].
      intros y Hy. destruct (prefix_match source model y) eqn:E; [|reflexivity].
      apply prefix_match_spec in E. destruct E as [E1 E2].
      elim (Hnone y Hy). split; [exact E1 | right; exact E2].
    + intros price Hin. apply (Hnone _ Hin). simpl. split; [reflexivity | left; reflexivity].
  - intros kv Hin. simpl in Hin.
    repeat (destruct Hin as [Hin|Hin]; [subst kv; split; vm_compute; reflexivity|]).
    elim Hin.
Qed.

Lemma unmatched_pair_gets_pessimistic_fallback_witness :
  _lookup_pricing "google" "palm-2" = fallback
  /\ fallback = {| input := 5.00; output := 15.00 |}
  /\ forall kv, In kv PRICING ->
       (input (snd kv) <? input fallback)%float = true
       /\ (output (snd kv) <? output fallback)%float = true.
Proof.
  apply (unmatched_pair_gets_pessimistic_fallback "google" "palm-2").
  - discriminate.
  - intros kv Hin [Hsrc Hm]. simpl in Hin.
    repeat (destruct Hin as [Hin|Hin];
            [subst kv; simpl in *; destruct Hm; discriminate|]).
    exact Hin.
Defined.

(** *** Recording a call *)

Lemma append_length (a b : string) :
  String.length (a ++ b) = String.length a + String.length b.
Proof. induction a as [|c a IH]; simpl; [reflexivity | rewrite IH; reflexivity]. Qed.

Lemma tmp_differs (p : string) : (p =? p ++ ".tmp")%string = false.
Proof.
  apply String.eqb_neq. intros H.
  apply (f_equal String.length) in H. rewrite append_length in H. simpl in H. lia.
Qed.

(** On a file system that accepts the write, [_save] leaves the JSON array of
    the records at [self.path], and nothing at the temporary path. *)
Lemma save_writes (self : CostTracker.t) (w : World) :
  Builtins.dirname (path self) <> ""%string -> read_only w = false ->
  snd (_save self w) = Return tt
  /\ files (fst (_save self w)) (path self) = Ledger (records self)
  /\ read_only (fst (_save self w)) = false
  /\ log (fst (_save self w)) = log w.
Proof.
  intros Hd Hr. unfold _save, makedirs.
  apply String.eqb_neq in Hd. rewrite Hd, Hr. simpl.
  rewrite tmp_differs, String.eqb_refl, String.eqb_refl. auto.
Qed.

(** [_save] raises nothing but the [OSError]s of [os.makedirs], and then leaves
    the files as they were. *)
Lemma save_raises (self : CostTracker.t) (w : World) (e : exn) :
  snd (_save self w) = Raise e ->
  (exn_cls e = FileNotFoundError \/ exn_cls e = PermissionError)
  /\ fst (_save self w) = w.
Proof.
  unfold _save, makedirs.
  destruct (Builtins.dirname (path self) =? "")%string; simpl.
  - intros H. inversion H. auto.
  - destruct (read_only w); simpl; intros H; inversion H. auto.
Qed.

Lemma record_unfold (self : CostTracker.t) (w : World) (now now_log : float)
    (source model : string) (pc rc : int) (duration : float) :
  let self1 := append self (new_entry now source model pc rc duration) in
  fst (fst (record self w now now_log source model pc rc duration)) = self1
  /\ (forall e, snd (_save self1 w) = Raise e ->
        record self w now now_log source model pc rc duration = ((self1, w), Raise e))
  /\ (snd (_save self1 w) = Return tt ->
        snd (record self w now now_log source model pc rc duration)
        = Return (estimate_cost source model pc rc)
        /\ files (snd (fst (record self w now now_log source model pc rc duration)))
           = files (fst (_save self1 w))
        /\ read_only (snd (fst (record self w now now_log source model pc rc duration)))
           = read_only (fst (_save self1 w))).
Proof.
  intros self1. unfold record. fold self1.
  pose proof (save_raises self1 w) as Hr.
  destruct (_save self1 w) as [w1 [[]|e]]; simpl in *.
  - repeat split; try discriminate; destruct (logger self); reflexivity.
  - repeat split; try discriminate.
    intros e' He'. inversion He'; subst e'.
    destruct (Hr e eq_refl) as [_ ->]. reflexivity.
Qed.

Lemma lookup_candidates (source model : string) :
  In (_lookup_pricing source model) (free :: fallback :: map snd PRICING).
Proof.
  unfold _lookup_pricing, dict_get.
  set (tbl := PRICING). clearbody tbl.
  destruct (source =? "ollama")%string; [apply in_eq|].
  destruct (find (fun kv => key_eqb (fst kv) (source, model)) tbl) as [kv|] eqn:E;
    cbn [option_map].
  - apply find_some in E. do 2 apply in_cons. apply in_map. exact (proj1 E).
  - destruct (find (prefix_match source model) tbl) as [kv|] eqn:E'.
    + apply find_some in E'. do 2 apply in_cons. apply in_map. exact (proj1 E').
    + apply in_cons, in_eq.
Qed.

Lemma rates_nonneg_finite (source model : string) :
  nonneg_finite (input (_lookup_pricing source model))
  /\ nonneg_finite (output (_lookup_pricing source model)).
Proof.
  pose proof (lookup_candidates source model) as H.
  set (p := _lookup_pricing source model) in *. clearbody p. simpl in H.
  repeat (destruct H as [H|H]; [subst p; split; vm_compute; reflexivity|]).
  elim H.
Qed.

(** Every estimate is a sign-clear number: rates and token counts are. *)
Lemma estimate_nonneg (source model : string) (pc rc : int) :
  nonneg (estimate_cost source model pc rc).
Proof.
  unfold estimate_cost. destruct (rates_nonneg_finite source model) as [Hi Ho].
  apply add_nonneg; (apply div_nonneg; [|vm_compute; reflexivity]);
    apply mul_nonneg; auto using tokens_nonneg_finite.
Qed.

(** C5.  One call of [record] appends exactly one entry at the end of
    [self.records] and leaves the entries before it as they were.  The entry
    holds the estimate rounded to 6 decimals as its cost, which is
    non-negative, and the duration rounded to 2 decimals.  Nothing else of the
    ledger object changes.  When the file system takes the write (the path has
    a directory part and writes are not refused) the call returns the computed,
    unrounded, estimate and the backing file holds the new record list; the only
    exceptions [record] can raise are the [OSError]s of the write. *)
Theorem record_appends_one_entry (self : CostTracker.t) (w : World)
    (now now_log : float) (source model : string)
    (prompt_chars response_chars : int) (duration : float) :
  let entry :=
    {| ts := now; source := source; model := model;
       prompt_chars := prompt_chars; response_chars := response_chars;
       duration := Builtins.round duration 2;
       cost := Builtins.round
                 (estimate_cost source model prompt_chars response_chars) 6 |} in
  let out := record self w now now_log source model prompt_chars response_chars duration in
  let self' := fst (fst out) in
  records self' = records self ++ [entry]
  /\ firstn (List.length (records self)) (records self') = records self
  /\ List.length (records self') = S (List.length (records self))
  /\ (0 <=? cost entry)%float = true
  /\ (path self' = path self /\ daily_cap self' = daily_cap self
      /\ total_cap self' = total_cap self /\ logger self' = logger self)
  /\ (Builtins.dirname (path self) <> ""%string -> read_only w = false ->
      snd out = Return (estimate_cost source model prompt_chars response_chars)
      /\ files (snd (fst out)) (path self) = Ledger (records self ++ [entry]))
  /\ (forall e, snd out = Raise e -> issubclass (exn_cls e) OSError = true).
Proof.
  intros entry out self'.
  destruct (record_unfold self w now now_log source model prompt_chars response_chars
              duration) as (Hself & Hraise & Hret).
  fold out in Hself, Hraise, Hret. fold self' in Hself.
  assert (Hrec : records self' = records self ++ [entry]) by (rewrite Hself; reflexivity).
  split; [exact Hrec|].
  split; [rewrite Hrec, firstn_app, Nat.sub_diag, firstn_all; simpl; apply app_nil_r|].
  split; [rewrite Hrec, length_app; simpl; lia|].
  split; [apply nonneg_leb, round_nonneg, estimate_nonneg|].
  split; [rewrite Hself; simpl; auto|].
  split.
  - intros Hd Hr.
    pose proof (save_writes (append self entry) w Hd Hr) as (S1 & S2 & _).
    destruct (Hret S1) as (R1 & R2 & _). split; [exact R1|].
    rewrite R2. exact S2.
  - intros e He.
    destruct (snd (_save (append self entry) w)) as [[]|e'] eqn:Es.
    + destruct (Hret Es) as (R1 & _). rewrite R1 in He. discriminate.
    + rewrite (Hraise e' Es) in He. simpl in He. inversion He; subst e'.
      destruct (save_raises _ _ _ Es) as [[->| ->] _]; reflexivity.
Qed.

Definition empty_world : World :=
  {| files := fun _ => Absent; read_only := false; log := [] |}.

Lemma record_appends_one_entry_witness :
  snd (record scenario_ledger empty_world 2000 2001 "google" "gemini-2.5-pro"
         800000%uint63 40000%uint63 3.14159)
  = Return (estimate_cost "google" "gemini-2.5-pro" 800000%uint63 40000%uint63)
  /\ files (snd (fst (record scenario_ledger empty_world 2000 2001 "google"
                        "gemini-2.5-pro" 800000%uint63 40000%uint63 3.14159)))
           (path scenario_ledger)
     = Ledger (records scenario_ledger
               ++ [ {| ts := 2000; source := "google"; model := "gemini-2.5-pro";
                       prompt_chars := 800000%uint63; response_chars := 40000%uint63;
                       duration := Builtins.round 3.14159 2;
                       cost := Builtins.round
                                 (estimate_cost "google" "gemini-2.5-pro"
                                    800000%uint63 40000%uint63) 6 |} ]).
Proof.
  apply (record_appends_one_entry scenario_ledger empty_world 2000 2001
           "google" "gemini-2.5-pro" 800000%uint63 40000%uint63 3.14159).
  - vm_compute. discriminate.
  - reflexivity.
Defined.

(** *** Caps are enforced by [check_budget] only *)

(** A ledger whose spend already exceeds both caps. *)
Definition overdrawn_ledger : CostTracker.t :=
  {| path := "/data/snowglobe/cost_ledger.json";
     daily_cap := 2.00; total_cap := 10.00; logger := true;
     records :=
       [ new_entry 500 "openai" "gpt-4o" 8000000%uint63 2000000%uint63 30;
         new_entry 900 "openai" "gpt-4o" 8000000%uint63 2000000%uint63 30 ] |}.

(** C10.  [record] never enforces the caps.  Whatever the ledger holds and
    whatever its caps are, an exception raised by [record] is never the budget
    error; and when the file system takes the write, [record] appends the call,
    leaves the new record list in the backing file and returns the cost.  A
    spend above a cap shows only at the next [check_budget]: with the daily or
    the total spend over its cap, [check_budget()] (estimated cost 0.0) raises
    [CostLimitExceeded].  The overdrawn ledger of the example (20.00 spent under
    caps 2.00 and 10.00) still records a call and returns its cost, and the
    check that follows raises. *)
Theorem record_never_enforces_caps :
  (forall (self : CostTracker.t) (w : World) (now now_log : float)
          (source model : string) (prompt_chars response_chars : int)
          (duration : float),
     let out :=
       record self w now now_log source model prompt_chars response_chars duration in
     let self' := fst (fst out) in
     (forall e, snd out = Raise e -> issubclass (exn_cls e) CostLimitExceeded = false)
     /\ (Builtins.dirname (path self) <> ""%string -> read_only w = false ->
         snd out = Return (estimate_cost source model prompt_chars response_chars)
         /\ records self'
            = records self
              ++ [new_entry now source model prompt_chars response_chars duration]
         /\ files (snd (fst out)) (path self) = Ledger (records self'))
     /\ (forall now',
           (daily_cap self' <? spend_last_24h self' now')%float = true
           \/ (total_cap self' <? spend_total self')%float = true ->
           exists e, check_budget self' now' 0 = Raise e
                     /\ exn_cls e = CostLimitExceeded))
  /\
  ((total_cap overdrawn_ledger <? spend_total overdrawn_ledger)%float = true
   /\ (daily_cap overdrawn_ledger <? spend_last_24h overdrawn_ledger 1000)%float = true
   /\ snd (record overdrawn_ledger empty_world 1000 1001 "openai" "gpt-4o"
             4000000%uint63 0%uint63 12)
      = Return 2.5%float
   /\ List.length
        (records (fst (fst (record overdrawn_ledger empty_world 1000 1001
                              "openai" "gpt-4o" 4000000%uint63 0%uint63 12)))) = 3
   /\ exists e,
        check_budget
          (fst (fst (record overdrawn_ledger empty_world 1000 1001
                       "openai" "gpt-4o" 4000000%uint63 0%uint63 12)))
          1002 0.01 = Raise e
        /\ exn_cls e = CostLimitExceeded).
Proof.
  split.
  - intros self w now now_log source model pc rc duration out self'.
    destruct (record_unfold self w now now_log source model pc rc duration)
      as (Hself & Hraise & Hret).
    fold out in Hself, Hraise, Hret. fold self' in Hself.
    split; [|split].
    + intros e He.
      destruct (snd (_save (append self (new_entry now source model pc rc duration)) w))
        as [[]|e'] eqn:Es.
      * destruct (Hret eq_refl) as (R1 & _). rewrite R1 in He. discriminate.
      * rewrite (Hraise e' eq_refl) in He. simpl in He. inversion He; subst e'.
        destruct (save_raises _ _ _ Es) as [[->| ->] _]; reflexivity.
    + intros Hd Hr.
      pose proof (save_writes (append self (new_entry now source model pc rc duration))
                    w Hd Hr) as (S1 & S2 & _).
      destruct (Hret S1) as (R1 & R2 & _).
      split; [exact R1|]. split; [rewrite Hself; reflexivity|].
      rewrite R2, Hself. exact S2.
    + intros now' H. unfold check_budget. rewrite !ltb_add_zero.
      destruct (daily_cap self' <? spend_last_24h self' now')%float.
      * eexists; split; reflexivity.
      * destruct H as [H|H]; [discriminate|]. rewrite H. eexists; split; reflexivity.
  - repeat split; try (vm_compute; reflexivity).
    eexists. split; vm_compute; reflexivity.
Qed.

(** *** Loading and reloading *)

(** What reading the backing file yields, in the states [_load] provides for. *)
Definition loaded_records (f : file_state) : list CostRecord :=
  match f with
  | Ledger rs => rs
  | _ => []
  end.

(** [_load] returns, with the records of the file or with none, unless the
    bytes of the file do not decode. *)
Lemma load_returns (self : CostTracker.t) (w : World) :
  (forall why, files w (path self) <> Undecodable why) ->
  snd (_load self w) = Return (with_records self (loaded_records (files w (path self))))
  /\ files (fst (_load self w)) = files w
  /\ read_only (fst (_load self w)) = read_only w.
Proof.
  intros H. unfold _load, exists_, open_and_load.
  destruct (files w (path self)) as [|why|why|why|rs] eqn:E; simpl.
  - auto.
  - destruct (logger self); auto.
  - elim (H why eq_refl).
  - destruct (logger self); auto.
  - auto.
Qed.

(** A run of [record] calls, in order, stopping at the first that raises. *)
Record call_args : Type := {
  arg_now : float;
  arg_now_log : float;
  arg_source : string;
  arg_model : string;
  arg_prompt_chars : int;
  arg_response_chars : int;
  arg_duration : float
}.

Definition entry_of (c : call_args) : CostRecord :=
  new_entry (arg_now c) (arg_source c) (arg_model c) (arg_prompt_chars c)
            (arg_response_chars c) (arg_duration c).

Fixpoint record_all (cs : list call_args) (self : CostTracker.t) (w : World)
  : (CostTracker.t * World) * result unit :=
  match cs with
  | [] => ((self, w), Return tt)
  | c :: cs' =>
      match record self w (arg_now c) (arg_now_log c) (arg_source c) (arg_model c)
                   (arg_prompt_chars c) (arg_response_chars c) (arg_duration c) with
      | ((self1, w1), Return _) => record_all cs' self1 w1
      | ((self1, w1), Raise e) => ((self1, w1), Raise e)
      end
  end.

Lemma record_all_writes (cs : list call_args) : forall (self : CostTracker.t) (w : World),
  Builtins.dirname (path self) <> ""%string -> read_only w = false ->
  (forall why, files w (path self) <> Undecodable why) ->
  records self = loaded_records (files w (path self)) ->
  let out := record_all cs self w in
  snd out = Return tt
  /\ fst (fst out) = with_records self (records self ++ map entry_of cs)
  /\ read_only (snd (fst out)) = false
  /\ (forall why, files (snd (fst out)) (path self) <> Undecodable why)
  /\ loaded_records (files (snd (fst out)) (path self))
     = records self ++ map entry_of cs.
Proof.
  induction cs as [|c cs IH]; intros self w Hd Hr Hu Hl; simpl.
  - rewrite app_nil_r. repeat split; auto. destruct self; reflexivity.
  - destruct (record_unfold self w (arg_now c) (arg_now_log c) (arg_source c)
                (arg_model c) (arg_prompt_chars c) (arg_response_chars c)
                (arg_duration c)) as (Hself & _ & Hret).
    fold (entry_of c) in Hself, Hret.
    pose proof (save_writes (append self (entry_of c)) w Hd Hr) as (S1 & S2 & S3 & _).
    destruct (Hret S1) as (R1 & R2 & R3).
    destruct (record self w (arg_now c) (arg_now_log c) (arg_source c) (arg_model c)
                (arg_prompt_chars c) (arg_response_chars c) (arg_duration c))
      as [[self1 w1] r]. simpl in Hself, R1, R2, R3. subst self1 r.
    assert (Hf : files w1 (path self) = Ledger (records self ++ [entry_of c])).
    { rewrite R2. exact S2. }
    assert (Hr1 : read_only w1 = false) by (rewrite R3; exact S3).
    assert (Hu1 : forall why,
               files w1 (path (append self (entry_of c))) <> Undecodable why).
    { intros why. simpl. rewrite Hf. discriminate. }
    assert (Hl1 : records (append self (entry_of c))
                  = loaded_records (files w1 (path (append self (entry_of c))))).
    { simpl. rewrite Hf. reflexivity. }
    pose proof (IH (append self (entry_of c)) w1 Hd Hr1 Hu1 Hl1) as IH'.
    cbv zeta in IH'. simpl in IH'.
    destruct IH' as (I1 & I2 & I3 & I4 & I5).
    rewrite <- app_assoc in I2, I5. simpl in I2, I5.
    repeat split; assumption.
Qed.

(** C6.  Reload round trip.  Take a ledger constructed from a path, on a file
    system that takes writes, and make any sequence of [N] [record] calls
    through it: every call returns, and a new ledger constructed afterwards from
    the same path with the same caps has the same records, hence at every clock
    reading the same [summary()]: the same daily and total spend, the same caps
    and the same call count, which is the count the first ledger loaded plus
    [N], so [N] when the path was new. *)
Theorem reload_reproduces_summary
    (p : string) (daily total : option float) (logger1 logger2 : bool)
    (w0 : World) (self : CostTracker.t) (cs : list call_args) :
  Builtins.dirname p <> ""%string -> read_only w0 = false ->
  snd (__init__ p daily total logger1 w0) = Return self ->
  let w1 := fst (__init__ p daily total logger1 w0) in
  let self' := fst (fst (record_all cs self w1)) in
  let w' := snd (fst (record_all cs self w1)) in
  snd (record_all cs self w1) = Return tt
  /\ exists reloaded,
       snd (__init__ p daily total logger2 w') = Return reloaded
       /\ records reloaded = records self'
       /\ (forall now, summary reloaded now = summary self' now)
       /\ (forall now,
             call_count (summary reloaded now)
             = List.length (records self) + List.length cs)
       /\ (files w0 p = Absent ->
           forall now, call_count (summary reloaded now) = List.length cs).
Proof.
  intros Hd Hr Hinit w1 self' w'.
  assert (Hu : forall why, files w0 p <> Undecodable why).
  { intros why E. unfold __init__, _load, exists_, open_and_load in Hinit.
    simpl in Hinit. rewrite E in Hinit. simpl in Hinit. discriminate. }
  set (fresh := fun lg => {| path := p;
       daily_cap := match daily with Some c => c | None => DEFAULT_DAILY_CAP end;
       total_cap := match total with Some c => c | None => DEFAULT_TOTAL_CAP end;
       logger := lg; records := [] |}).
  pose proof (load_returns (fresh logger1) w0 Hu) as (L1 & L2 & L3).
  change (_load (fresh logger1) w0) with (__init__ p daily total logger1 w0) in L1, L2, L3.
  fold w1 in L2, L3. rewrite Hinit in L1.
  injection L1 as Hself. simpl in Hself.
  assert (Hp : path self = p) by (rewrite Hself; reflexivity).
  pose proof (record_all_writes cs self w1) as Hall.
  rewrite Hp, L2, L3 in Hall.
  destruct (Hall Hd Hr Hu) as (A1 & A2 & A3 & A4 & A5).
  { rewrite Hself. reflexivity. }
  fold self' in A2. fold w' in A3, A4, A5.
  split; [exact A1|].
  pose proof (load_returns (fresh logger2) w' A4) as (M1 & _).
  change (_load (fresh logger2) w') with (__init__ p daily total logger2 w') in M1.
  simpl in M1. rewrite A5 in M1.
  eexists. split; [exact M1|].
  assert (Hrec : records self' = records self ++ map entry_of cs)
    by (rewrite A2; reflexivity).
  assert (Hsum : forall now,
             summary (with_records (fresh logger2) (records self ++ map entry_of cs)) now
             = summary self' now).
  { intros now. rewrite A2, Hself. reflexivity. }
  split; [simpl; symmetry; exact Hrec|].
  split; [exact Hsum|].
  split.
  - intros now. simpl. rewrite length_app, length_map. reflexivity.
  - intros Habs now. simpl. rewrite length_app, length_map.
    rewrite Hself. simpl. rewrite Habs. reflexivity.
Qed.

Definition three_calls : list call_args :=
  [ {| arg_now := 100; arg_now_log := 101; arg_source := "openai";
       arg_model := "gpt-4o"; arg_prompt_chars := 12000%uint63;
       arg_response_chars := 3000%uint63; arg_duration := 2.5 |};
    {| arg_now := 200; arg_now_log := 201; arg_source := "google";
       arg_model := "gemini-2.5-flash-lite"; arg_prompt_chars := 52000%uint63;
       arg_response_chars := 900%uint63; arg_duration := 0.731 |};
    {| arg_now := 90000; arg_now_log := 90001; arg_source := "mistral";
       arg_model := "large"; arg_prompt_chars := 777%uint63;
       arg_response_chars := 4242%uint63; arg_duration := 11.999 |} ].

Definition fresh_ledger : CostTracker.t :=
  {| path := "/data/snowglobe/cost_ledger.json";
     daily_cap := 2.00; total_cap := 10.00; logger := true; records := [] |}.

Lemma reload_reproduces_summary_witness :
  snd (record_all three_calls fresh_ledger empty_world) = Return tt
  /\ exists reloaded,
       snd (__init__ "/data/snowglobe/cost_ledger.json" None None false
              (snd (fst (record_all three_calls fresh_ledger empty_world))))
       = Return reloaded
       /\ records reloaded
          = records (fst (fst (record_all three_calls fresh_ledger empty_world)))
       /\ (forall now,
             summary reloaded now
             = summary (fst (fst (record_all three_calls fresh_ledger empty_world))) now)
       /\ (forall now,
             call_count (summary reloaded now)
             = List.length (records fresh_ledger) + List.length three_calls)
       /\ (files empty_world "/data/snowglobe/cost_ledger.json" = Absent ->
           forall now, call_count (summary reloaded now) = List.length three_calls).
Proof.
  apply (reload_reproduces_summary "/data/snowglobe/cost_ledger.json" None None
           true false empty_world fresh_ledger three_calls).
  - vm_compute. discriminate.
  - reflexivity.
  - reflexivity.
Defined.

(** C4, where the code departs from it.  A backing file whose bytes are not
    valid in the text encoding makes [json.load] raise [UnicodeDecodeError], a
    [ValueError] that is neither a [JSONDecodeError] nor an [OSError]: the
    handler of [_load] lets it through and the construction of the ledger
    raises, with or without a logger. *)
Theorem ledger_construction_raises_on_undecodable_file :
  let w := set_file empty_world "/data/snowglobe/cost_ledger.json"
                    (Undecodable "invalid start byte") in
  caught_by [JSONDecodeError; IOError]
            {| exn_cls := UnicodeDecodeError; exn_args := [Lit "invalid start byte"] |}
  = false
  /\ forall logger,
       __init__ "/data/snowglobe/cost_ledger.json" None None logger w
       = (w, Raise {| exn_cls := UnicodeDecodeError;
                      exn_args := [Lit "invalid start byte"] |}).
Proof.
  split; [reflexivity|]. intros lg. reflexivity.
Qed.

(** In the other states of the backing file the construction succeeds: a
    missing file, an unreadable one and malformed JSON give an empty ledger, the
    last two with a warning when a logger is configured. *)
Lemma ledger_construction_recovers (p : string) (daily total : option float)
    (lg : bool) (w : World) :
  (forall why, files w p <> Undecodable why) ->
  exists self,
    snd (__init__ p daily total lg w) = Return self
    /\ records self = loaded_records (files w p)
    /\ (lg = true ->
        (exists why, files w p = Unreadable why \/ files w p = Malformed why) ->
        exists line, log (fst (__init__ p daily total lg w)) = log w ++ [(WARNING, line)]).
Proof.
  intros H. unfold __init__.
  set (self := {| path := p; daily_cap := _; total_cap := _; logger := lg; records := [] |}).
  pose proof (load_returns self w H) as (L1 & _).
  eexists. split; [exact L1|]. split; [reflexivity|].
  intros -> [why [E|E]]; unfold _load, exists_, open_and_load; simpl; rewrite E; simpl;
    eexists; reflexivity.
Qed.
End LedgerFacts.

(* ================================================================== *)
(** * Part IV: the round loop's properties *)
(* ================================================================== *)

Section SchedulerFacts.

Import UserDefinedGame.

Unset Implicit Arguments.

(** The call the loop awaits for the player at position [i] in move [move],
    and the answer the collaborators give to it. *)
Definition call_of (move i : nat) (p : Player) : call :=
  if is_human p then GetMessage move i else Respond move i.

Definition answer (env : Env) (move i : nat) (p : Player) : result string :=
  if is_human p then interface_get_message env move i else respond env move i.

Fixpoint poll_calls (move idx : nat) (ps : list Player) : list call :=
  match ps with
  | [] => []
  | p :: ps' => call_of move idx p :: poll_calls move (S idx) ps'
  end.

(** All the calls of a move that runs to its end. *)
Definition move_calls (g : UserDefinedGame.t) (move : nat) : list call :=
  poll_calls move 0 (players g) ++ [Adjudicate move].

Definition answered (env : Env) (move i : nat) (p : Player) : Prop :=
  exists r, answer env move i p = Return r.

Definition move_succeeds (env : Env) (g : UserDefinedGame.t) (move : nat) : Prop :=
  (forall i p, nth_error (players g) i = Some p -> answered env move i p)
  /\ exists outcome, adjudicate env move = Return outcome.

(** Where, in a move, the budget error is raised: by the [respond] call of the
    AI player at a position, or by the adjudication call. *)
Inductive failing_call : Type :=
| AtPlayer (j : nat)
| AtAdjudication.

Definition budget_failure (env : Env) (g : UserDefinedGame.t) (move : nat)
    (where_ : failing_call) (e : exn) : Prop :=
  match where_ with
  | AtPlayer j =>
      (exists p, nth_error (players g) j = Some p /\ kind p = ai)
      /\ respond env move j = Raise e
      /\ (forall i p, i < j -> nth_error (players g) i = Some p -> answered env move i p)
  | AtAdjudication =>
      (forall i p, nth_error (players g) i = Some p -> answered env move i p)
      /\ adjudicate env move = Raise e
  end.

(** The calls of the move that fails: up to and including the failing one. *)
Definition failed_move_calls (g : UserDefinedGame.t) (move : nat) (where_ : failing_call)
  : list call :=
  match where_ with
  | AtPlayer j => poll_calls move 0 (firstn (S j) (players g))
  | AtAdjudication => move_calls g move
  end.

Definition humans (g : UserDefinedGame.t) : list Player := filter is_human (players g).

(** The two closing messages: the budget notice and the game-over narration. *)
Definition is_notice (c : content) : bool :=
  match c with
  | GameStopped _ | GameOver _ => true
  | YouAre _ | HowDoYouRespond _ => false
  end.

Definition quiet (m : string * content) : Prop := is_notice (snd m) = false.

(** How a piece of the run changes the state: the calls and the messages it
    adds; the advisors are untouched and a timeline with entries keeps some. *)
Record evolves (s s' : Run) (cs : list call) (ms : list (string * content)) : Prop := {
  ev_calls : calls s' = calls s ++ cs;
  ev_sent : sent s' = sent s ++ ms;
  ev_advisors : advisors s' = advisors s;
  ev_history : history s <> [] -> history s' <> []
}.

Lemma evolves_refl (s : Run) : evolves s s [] [].
Proof. constructor; rewrite ?app_nil_r; auto. Qed.

Lemma evolves_trans (s s' s'' : Run) cs1 ms1 cs2 ms2 :
  evolves s s' cs1 ms1 -> evolves s' s'' cs2 ms2 ->
  evolves s s'' (cs1 ++ cs2) (ms1 ++ ms2).
Proof.
  intros [A1 A2 A3 A4] [B1 B2 B3 B4]. constructor.
  - rewrite B1, A1, app_assoc. reflexivity.
  - rewrite B2, A2, app_assoc. reflexivity.
  - congruence.
  - auto.
Qed.

Lemma latest_narration_returns (s : Run) :
  history s <> [] -> exists n, latest_narration s = (s, Return n).
Proof.
  intros H. unfold latest_narration.
  destruct (rev (history s)) as [|[a n] l] eqn:E.
  - apply (f_equal (@rev _)) in E. rewrite rev_involutive in E. simpl in E. contradiction.
  - eexists; reflexivity.
Qed.

(** Polling players that all answer. *)
Lemma poll_answered (env : Env) (move : nat) (ps : list Player) :
  forall (idx : nat) (responses : History) (s : Run),
  history s <> [] ->
  (forall i p, nth_error ps i = Some p -> answered env move (idx + i) p) ->
  exists s' rs ms,
    poll env move idx ps responses s = (s', Return rs)
    /\ evolves s s' (poll_calls move idx ps) ms
    /\ Forall quiet ms
    /\ history s' = history s
    /\ moves_completed s' = moves_completed s.
Proof.
  induction ps as [|p ps IH]; intros idx responses s Hh Hans.
  - exists s, responses, []. simpl.
    split; [reflexivity|]. split; [apply evolves_refl|]. split; [constructor|]. split; reflexivity.
  - destruct (Hans 0 p eq_refl) as [r Hr]. rewrite Nat.add_0_r in Hr.
    assert (Hans' : forall i q, nth_error ps i = Some q -> answered env move (S idx + i) q).
    { intros i q Hq. specialize (Hans (S i) q Hq).
      rewrite Nat.add_succ_r in Hans. exact Hans. }
    unfold answer in Hr. simpl poll. simpl poll_calls. unfold call_of.
    destruct (is_human p) eqn:Hk.
    + destruct (latest_narration_returns s Hh) as [n Hn].
      unfold latest_narration in *.
      unfold bind, await, interface_send_message, logger_emit, modify, ret; simpl.
      destruct (rev (history s)) as [|[a n'] l] eqn:E; [discriminate|].
      rewrite Hr. simpl.
      match goal with |- context [poll env move (S idx) ps ?rs ?s1] =>
        destruct (IH (S idx) rs s1) as (s' & rs' & ms & P1 & P2 & P3 & P4 & P5);
          [exact Hh | exact Hans' |] end.
      fold (poll env move (S idx) ps) in *.
      exists s', rs', ((gameroom p, HowDoYouRespond n') :: ms).
      split; [exact P1|]. split; [|split; [|split]]; auto.
      * destruct P2 as [B1 B2 B3 B4]. simpl in *. constructor; simpl; auto.
        -- rewrite B1, <- app_assoc. reflexivity.
        -- rewrite B2, <- app_assoc. reflexivity.
      * constructor; [reflexivity | exact P3].
    + unfold bind, await, header, logger_emit, modify, ret; simpl.
      rewrite Hr. simpl.
      match goal with |- context [poll env move (S idx) ps ?rs ?s1] =>
        destruct (IH (S idx) rs s1) as (s' & rs' & ms & P1 & P2 & P3 & P4 & P5);
          [exact Hh | exact Hans' |] end.
      exists s', rs', ms.
      split; [exact P1|]. split; [|split; [|split]]; auto.
      destruct P2 as [B1 B2 B3 B4]. simpl in *. constructor; simpl; auto.
      rewrite B1, <- app_assoc. reflexivity.
Qed.

(** One answered player: the loop goes on with the next one. *)
Lemma poll_step (env : Env) (move idx : nat) (p : Player) (s : Run) :
  history s <> [] -> answered env move idx p ->
  exists s1 r m1,
    (forall ps responses,
       poll env move idx (p :: ps) responses s
       = poll env move (S idx) ps (responses ++ [(name p, r)]) s1)
    /\ evolves s s1 [call_of move idx p] m1
    /\ Forall quiet m1
    /\ history s1 = history s
    /\ moves_completed s1 = moves_completed s.
Proof.
  intros Hh [r Hr]. unfold answer in Hr. unfold call_of.
  destruct (is_human p) eqn:Hk.
  - destruct (rev (history s)) as [|[a n'] l] eqn:E.
    { apply (f_equal (@rev _)) in E. rewrite rev_involutive in E. contradiction. }
    eexists _, r, [(gameroom p, HowDoYouRespond n')].
    split; [|split; [|split; [|split]]].
    + intros ps responses. simpl poll. rewrite Hk.
      unfold latest_narration.
      unfold bind, await, interface_send_message, logger_emit, header, modify, ret; simpl.
      rewrite E, Hr. simpl. reflexivity.
    + constructor; simpl; auto.
    + repeat constructor.
    + reflexivity.
    + reflexivity.
  - eexists _, r, [].
    split; [|split; [|split; [|split]]].
    + intros ps responses. simpl poll. rewrite Hk.
      unfold bind, await, logger_emit, header, modify, ret; simpl.
      rewrite Hr. simpl. reflexivity.
    + constructor; simpl; rewrite ?app_nil_r; auto.
    + constructor.
    + reflexivity.
    + reflexivity.
Qed.

(** Polling up to an AI player whose [respond] raises: the players after it
    are not polled. *)
Lemma poll_raises (env : Env) (move : nat) (e : exn) (j : nat) :
  forall (ps : list Player) (idx : nat) (responses : History) (s : Run) (p : Player),
  history s <> [] ->
  nth_error ps j = Some p -> kind p = ai ->
  respond env move (idx + j) = Raise e ->
  (forall i q, i < j -> nth_error ps i = Some q -> answered env move (idx + i) q) ->
  exists s' ms,
    poll env move idx ps responses s = (s', Raise e)
    /\ evolves s s' (poll_calls move idx (firstn (S j) ps)) ms
    /\ Forall quiet ms
    /\ history s' = history s
    /\ moves_completed s' = moves_completed s.
Proof.
  induction j as [|j IH]; intros ps idx responses s p Hh Hnth Hai Hraise Hbefore.
  - destruct ps as [|p0 ps]; [discriminate|]. simpl in Hnth. injection Hnth as ->.
    rewrite Nat.add_0_r in Hraise.
    assert (Hk : is_human p = false) by (unfold is_human; rewrite Hai; reflexivity).
    eexists _, []. split; [|split; [|split; [|split]]].
    + simpl poll. rewrite Hk.
      unfold bind, await, logger_emit, header, modify, ret; simpl.
      rewrite Hraise. reflexivity.
    + simpl. unfold call_of. rewrite Hk. constructor; simpl; rewrite ?app_nil_r; auto.
    + constructor.
    + reflexivity.
    + reflexivity.
  - destruct ps as [|q ps]; [discriminate|]. simpl in Hnth.
    assert (Hq : answered env move idx q).
    { specialize (Hbefore 0 q ltac:(lia) eq_refl). rewrite Nat.add_0_r in Hbefore.
      exact Hbefore. }
    destruct (poll_step env move idx q s Hh Hq) as (s1 & r & m1 & S1 & S2 & S3 & S4 & S5).
    rewrite S1.
    destruct (IH ps (S idx) (responses ++ [(name q, r)]) s1 p) as (s' & ms & P1 & P2 & P3 & P4 & P5).
    + rewrite S4. exact Hh.
    + exact Hnth.
    + exact Hai.
    + rewrite <- Hraise. f_equal. lia.
    + intros i q' Hi Hq'. specialize (Hbefore (S i) q' ltac:(lia) Hq').
      rewrite Nat.add_succ_r in Hbefore. exact Hbefore.
    + exists s', (m1 ++ ms). split; [exact P1|].
      split; [|split; [|split]].
      * change (poll_calls move idx (firstn (S (S j)) (q :: ps)))
          with ([call_of move idx q] ++ poll_calls move (S idx) (firstn (S j) ps)).
        apply evolves_trans with (s' := s1); assumption.
      * apply Forall_app. split; assumption.
      * congruence.
      * congruence.
Qed.

(** A move whose calls all return: one narration more, one move more. *)
Lemma one_move_returns (env : Env) (g : UserDefinedGame.t) (m : nat) (s : Run) :
  history s <> [] -> move_succeeds env g m ->
  exists s' ms,
    one_move env g m s = (s', Return tt)
    /\ evolves s s' (move_calls g m) ms
    /\ Forall quiet ms
    /\ moves_completed s' = moves_completed s + 1.
Proof.
  intros Hh [Hans [outcome Hadj]].
  unfold one_move.
  unfold bind at 1. unfold logger_emit at 1, modify at 1.
  unfold bind at 1. unfold header at 1, modify at 1.
  unfold bind at 1.
  match goal with |- context [poll env m 0 (players g) [] ?s1] =>
    destruct (poll_answered env m (players g) 0 [] s1) as (s2 & rs & ms & P1 & P2 & P3 & P4 & P5);
      [exact Hh | exact Hans | rewrite P1] end.
  unfold bind, header, logger_emit, await, record_narration, set_moves_completed, modify;
    simpl.
  rewrite Hadj. simpl.
  eexists _, ms. split; [reflexivity|].
  destruct P2 as [B1 B2 B3 B4]. simpl in *.
  split; [|split; [exact P3 | congruence]].
  constructor; simpl.
  - rewrite B1. unfold move_calls. rewrite app_assoc. reflexivity.
  - exact B2.
  - exact B3.
  - intros _ E. destruct (history s2); discriminate.
Qed.

(** A move in which a priced call raises the budget error: the error leaves
    the move at that call. *)
Lemma one_move_raises (env : Env) (g : UserDefinedGame.t) (m : nat)
    (where_ : failing_call) (e : exn) (s : Run) :
  history s <> [] -> budget_failure env g m where_ e ->
  exists s' ms,
    one_move env g m s = (s', Raise e)
    /\ evolves s s' (failed_move_calls g m where_) ms
    /\ Forall quiet ms
    /\ moves_completed s' = moves_completed s.
Proof.
  intros Hh Hf. unfold one_move.
  unfold bind at 1. unfold logger_emit at 1, modify at 1.
  unfold bind at 1. unfold header at 1, modify at 1.
  unfold bind at 1.
  destruct where_ as [j|]; simpl in Hf.
  - destruct Hf as ([p [Hnth Hai]] & Hraise & Hbefore).
    match goal with |- context [poll env m 0 (players g) [] ?s1] =>
      destruct (poll_raises env m e j (players g) 0 [] s1 p)
        as (s2 & ms & P1 & P2 & P3 & P4 & P5); auto; rewrite P1 end.
    exists s2, ms. split; [reflexivity|].
    destruct P2 as [B1 B2 B3 B4]. simpl in *.
    split; [|split; [exact P3 | exact P5]].
    constructor; simpl; auto.
  - destruct Hf as [Hans Hraise].
    match goal with |- context [poll env m 0 (players g) [] ?s1] =>
      destruct (poll_answered env m (players g) 0 [] s1)
        as (s2 & rs & ms & P1 & P2 & P3 & P4 & P5);
        [exact Hh | exact Hans | rewrite P1] end.
    unfold bind, header, logger_emit, await, modify; simpl.
    rewrite Hraise.
    eexists _, ms. split; [reflexivity|].
    destruct P2 as [B1 B2 B3 B4]. simpl in *.
    split; [|split; [exact P3 | exact P5]].
    constructor; simpl; auto.
    rewrite B1. unfold move_calls. rewrite app_assoc. reflexivity.
Qed.

Lemma for_each_app {A : Type} (body : A -> M unit) (xs ys : list A) (s : Run) :
  for_each (xs ++ ys) body s
  = match for_each xs body s with
    | (s', Return _) => for_each ys body s'
    | (s', Raise e) => (s', Raise e)
    end.
Proof.
  revert s. induction xs as [|x xs IH]; intros s; simpl.
  - reflexivity.
  - unfold bind. destruct (body x s) as [s1 [[]|e]]; [apply IH | reflexivity].
Qed.

(** A run of moves that all succeed. *)
Lemma moves_return (env : Env) (g : UserDefinedGame.t) (k : nat) :
  forall (a : nat) (s : Run),
  history s <> [] ->
  (forall m, a <= m < a + k -> move_succeeds env g m) ->
  exists s' ms,
    for_each (seq a k) (one_move env g) s = (s', Return tt)
    /\ evolves s s' (List.concat (map (move_calls g) (seq a k))) ms
    /\ Forall quiet ms
    /\ moves_completed s' = moves_completed s + k.
Proof.
  induction k as [|k IH]; intros a s Hh Hok.
  - exists s, []. simpl. rewrite Nat.add_0_r.
    split; [reflexivity|]. split; [apply evolves_refl|]. split; [constructor | reflexivity].
  - destruct (one_move_returns env g a s Hh (Hok a ltac:(lia)))
      as (s1 & m1 & O1 & O2 & O3 & O4).
    destruct (IH (S a) s1) as (s' & ms & P1 & P2 & P3 & P4).
    + apply (ev_history _ _ _ _ O2). exact Hh.
    + intros m Hm. apply Hok. lia.
    + exists s', (m1 ++ ms). simpl. unfold bind. rewrite O1.
      split; [exact P1|]. split; [|split].
      * apply evolves_trans with (s' := s1); assumption.
      * apply Forall_app. split; assumption.
      * lia.
Qed.

(** The loops that send one message to every human player. *)
Lemma notify_humans (f : Player -> content) (ps : list Player) :
  forall s,
  exists s',
    for_each ps (fun player =>
      if is_human player then interface_send_message (gameroom player) (f player)
      else ret tt) s = (s', Return tt)
    /\ evolves s s' [] (map (fun p => (gameroom p, f p)) (filter is_human ps))
    /\ history s' = history s
    /\ moves_completed s' = moves_completed s
    /\ log s' = log s.
Proof.
  induction ps as [|p ps IH]; intros s; simpl.
  - exists s. split; [reflexivity|]. split; [apply evolves_refl|]. auto.
  - unfold bind. destruct (is_human p) eqn:Hk.
    + unfold interface_send_message at 1, modify at 1.
      match goal with |- context [for_each ps _ ?s1] =>
        destruct (IH s1) as (s' & P1 & P2 & P3 & P4 & P5) end.
      exists s'. split; [exact P1|].
      destruct P2 as [B1 B2 B3 B4]. simpl in *.
      split; [|auto]. constructor; simpl; auto.
      rewrite B2, <- app_assoc. reflexivity.
    + unfold ret at 1. destruct (IH s) as (s' & P1 & P2 & P3 & P4 & P5).
      exists s'. auto.
Qed.

Lemma game_over_to_humans (ps : list Player) (n : string) :
  forall s,
  latest_narration s = (s, Return n) ->
  exists s',
    for_each ps (fun player =>
      if is_human player then
        narration <- latest_narration ;;
        interface_send_message (gameroom player) (GameOver narration)
      else ret tt) s = (s', Return tt)
    /\ evolves s s' [] (map (fun p => (gameroom p, GameOver n)) (filter is_human ps))
    /\ moves_completed s' = moves_completed s
    /\ log s' = log s.
Proof.
  induction ps as [|p ps IH]; intros s Hn; simpl.
  - exists s. split; [reflexivity|]. split; [apply evolves_refl|]. auto.
  - unfold bind at 1. destruct (is_human p) eqn:Hk.
    + unfold bind at 1. rewrite Hn.
      unfold interface_send_message at 1, modify at 1.
      match goal with |- context [for_each ps _ ?s1] =>
        destruct (IH s1) as (s' & P1 & P2 & P3 & P4) end.
      { unfold latest_narration in *. simpl.
        destruct (rev (history s)) as [|[a n'] l]; [discriminate|].
        injection Hn as ->. reflexivity. }
      exists s'. split; [exact P1|].
      destruct P2 as [B1 B2 B3 B4]. simpl in *.
      split; [|auto]. constructor; simpl; auto.
      rewrite B2, <- app_assoc. reflexivity.
    + unfold ret at 1. destruct (IH s Hn) as (s' & P1 & P2 & P3 & P4).
      exists s'. auto.
Qed.

Lemma bind_returns {A B : Type} (m : M A) (k : A -> M B) (s s' : Run) (a : A) :
  m s = (s', Return a) -> bind m k s = k a s'.
Proof. intros H. unfold bind. rewrite H. reflexivity. Qed.

Lemma seq_split (k n : nat) : k < n -> seq 0 n = seq 0 k ++ k :: seq (S k) (n - S k).
Proof.
  intros H. replace n with (k + S (n - S k)) at 1 by lia.
  rewrite seq_app. reflexivity.
Qed.

(** The budget notices among some messages. *)
Definition stopped_notices (ms : list (string * content)) : list (string * content) :=
  filter (fun m => match snd m with GameStopped _ => true | _ => false end) ms.

Lemma stopped_notices_quiet (ms : list (string * content)) :
  Forall quiet ms -> stopped_notices ms = [].
Proof.
  induction 1 as [|[room c] ms Hq _ IH]; simpl; [reflexivity|].
  unfold quiet in Hq. simpl in Hq. destruct c; try discriminate; exact IH.
Qed.

Lemma stopped_notices_run (earlier : list (string * content)) (hs : list Player)
    (e : exn) (n : string) :
  Forall quiet earlier ->
  stopped_notices (earlier ++ map (fun p => (gameroom p, GameStopped e)) hs
                   ++ map (fun p => (gameroom p, GameOver n)) hs)
  = map (fun p => (gameroom p, GameStopped e)) hs.
Proof.
  intros Hq. unfold stopped_notices. rewrite !filter_app.
  fold (stopped_notices earlier). rewrite (stopped_notices_quiet _ Hq). simpl.
  assert (H1 : forall l, filter (fun m : string * content =>
                 match snd m with GameStopped _ => true | _ => false end)
                 (map (fun p => (gameroom p, GameStopped e)) l)
               = map (fun p => (gameroom p, GameStopped e)) l).
  { induction l as [|p l IH]; simpl; [reflexivity | rewrite IH; reflexivity]. }
  assert (H2 : forall l, filter (fun m : string * content =>
                 match snd m with GameStopped _ => true | _ => false end)
                 (map (fun p => (gameroom p, GameOver n)) l) = []).
  { induction l as [|p l IH]; simpl; [reflexivity | exact IH]. }
  rewrite H1, H2, app_nil_r. reflexivity.
Qed.

(** C3.  Let the moves before move [k] of an [n]-move game run to their end,
    and let, in move [k], the [respond] call of an AI player or the
    adjudication call raise the budget error.  Then the run awaits no call
    after the failing one: no later player of move [k], no adjudication of it
    when a player failed, no later move.  The messages the run sends end with
    one budget notice per human player, embedding the error, followed by the
    game-over narration for every human player, and no other message of the
    run is a budget notice.  Every advisor ends with [active = False], the
    count of completed moves is [k < n] and is the one logged, and [game]
    returns instead of raising. *)
Theorem budget_error_stops_the_game (env : Env) (g : UserDefinedGame.t) (k : nat)
    (where_ : failing_call) (e : exn) (s0 : Run) :
  k < moves g ->
  (forall m, m < k -> move_succeeds env g m) ->
  budget_failure env g k where_ e ->
  exn_cls e = CostLimitExceeded ->
  let s := fst (game env g s0) in
  snd (game env g s0) = Return tt
  /\ calls s
     = calls s0 ++ List.concat (map (move_calls g) (seq 0 k))
       ++ failed_move_calls g k where_
  /\ (exists earlier narration,
        let notices := map (fun p => (gameroom p, GameStopped e)) (humans g) in
        let farewell := map (fun p => (gameroom p, GameOver narration)) (humans g) in
        sent s = sent s0 ++ earlier ++ notices ++ farewell
        /\ Forall quiet earlier
        /\ stopped_notices (earlier ++ notices ++ farewell) = notices
        /\ List.length notices = List.length (humans g)
        /\ exists pre, render (GameStopped e) = pre ++ exn_args e)
  /\ advisors s = map deactivate (advisors s0)
  /\ Forall (fun a => active a = false) (advisors s)
  /\ moves_completed s = k
  /\ k < moves g
  /\ In (CostTracker.INFO, game_complete_line g k) (log s).
Proof.
  intros Hk Hbefore Hfail Hcls s. subst s. unfold game.
  erewrite bind_returns by reflexivity.
  erewrite bind_returns by reflexivity.
  erewrite bind_returns by reflexivity.
  erewrite bind_returns by reflexivity.
  erewrite bind_returns by reflexivity.
  erewrite bind_returns by reflexivity.
  match goal with |- context [bind (for_each (players g) ?body) _ ?s1] =>
    destruct (notify_humans (fun p => YouAre (name p)) (players g) s1)
      as (s2 & N1 & N2 & N3 & N4 & N5) end.
  erewrite bind_returns by exact N1.
  erewrite bind_returns by reflexivity.
  (* the moves *)
  set (s3 := {| history := history s2; sent := sent s2; calls := calls s2;
                headers := headers s2; log := log s2; advisors := advisors s2;
                moves_completed := 0 |}).
  assert (Hh2 : history s2 <> []).
  { rewrite N3. simpl. discriminate. }
  destruct (moves_return env g k 0 s3 Hh2) as (s4 & m4 & L1 & L2 & L3 & L4).
  { intros m Hm. apply Hbefore. lia. }
  destruct (one_move_raises env g k where_ e s4) as (s5 & m5 & F1 & F2 & F3 & F4).
  { apply (ev_history _ _ _ _ L2). exact Hh2. }
  { exact Hfail. }
  assert (Hh5 : history s5 <> []).
  { apply (ev_history _ _ _ _ F2), (ev_history _ _ _ _ L2). exact Hh2. }
  assert (Hloop : for_each (seq 0 (moves g)) (one_move env g) s3 = (s5, Raise e)).
  { rewrite (seq_split k (moves g) Hk), for_each_app, L1. simpl. unfold bind.
    rewrite F1. reflexivity. }
  match goal with |- context [try_except ?body ?c ?h] =>
    assert (Htry : exists s6,
      try_except body c h s3 = (s6, Return tt)
      /\ evolves s5 s6 [] (map (fun p => (gameroom p, GameStopped e)) (humans g))
      /\ history s6 = history s5
      /\ moves_completed s6 = moves_completed s5) end.
  { unfold try_except. rewrite Hloop, Hcls. simpl.
    erewrite bind_returns by reflexivity.
    match goal with |- context [for_each (players g) ?body ?s'] =>
      destruct (notify_humans (fun _ => GameStopped e) (players g) s')
        as (s6 & T1 & T2 & T3 & T4 & T5) end.
    exists s6. split; [exact T1|].
    destruct T2 as [B1 B2 B3 B4]. simpl in *.
    split; [constructor; simpl; auto | auto]. }
  destruct Htry as (s6 & T1 & T2 & T3 & T4).
  erewrite bind_returns by exact T1.
  (* the conclusion *)
  assert (Hh6 : history s6 <> []) by (rewrite T3; exact Hh5).
  destruct (latest_narration_returns s6 Hh6) as [narration Hn].
  destruct (game_over_to_humans (players g) narration s6 Hn) as (s7 & G1 & G2 & G3 & G4).
  erewrite bind_returns by exact G1.
  erewrite bind_returns by reflexivity.
  erewrite bind_returns by reflexivity.
  unfold set_advisors, modify. simpl.
  destruct N2 as [N2c N2s N2a _]. destruct L2 as [L2c L2s L2a _].
  destruct F2 as [F2c F2s F2a _]. destruct T2 as [T2c T2s T2a _].
  destruct G2 as [G2c G2s G2a _]. simpl in *.
  rewrite app_nil_r in *.
  split; [reflexivity|].
  split.
  { rewrite G2c, T2c, F2c, L2c, N2c, <- app_assoc. reflexivity. }
  split.
  { exists ((map (fun p => (gameroom p, YouAre (name p))) (filter is_human (players g))
             ++ m4) ++ m5), narration.
    assert (Hq : Forall quiet
                   ((map (fun p => (gameroom p, YouAre (name p)))
                         (filter is_human (players g)) ++ m4) ++ m5)).
    { apply Forall_app; split; [apply Forall_app; split|]; auto.
      apply Forall_forall. intros x Hx. apply in_map_iff in Hx.
      destruct Hx as (p & <- & _). reflexivity. }
    split; [|split; [exact Hq | split; [apply stopped_notices_run; exact Hq | split]]].
    - rewrite G2s, T2s, F2s, L2s, N2s. unfold humans.
      rewrite <- !app_assoc. reflexivity.
    - apply length_map.
    - exists [Lit "**Game stopped: spending limit reached.**"; Lit blank_line].
      reflexivity. }
  split; [rewrite G2a, T2a, F2a, L2a, N2a; reflexivity|].
  split.
  { apply Forall_forall. intros a Ha. apply in_map_iff in Ha.
    destruct Ha as (a0 & <- & _). reflexivity. }
  split; [rewrite G3, T4, F4, L4; reflexivity|].
  split; [exact Hk|].
  rewrite G3, T4, F4, L4. simpl.
  apply in_or_app. left. apply in_or_app. right. left. reflexivity.
Qed.

(** The scenario of the specification, with a human player beside the two AI
    players: four moves, and in the third (move 2) the priced call of the first
    AI player would pass the lifetime cap. *)
Definition over_total_cap : exn :=
  {| exn_cls := CostLimitExceeded;
     exn_args := CostTracker.total_message 9.99 0.02 10.00 |}.

Definition four_round_game : UserDefinedGame.t :=
  {| ioid := "0042"; title := "Crisis"; scenario := "A storm closes the port.";
     players :=
       [ {| name := "Ann"; kind := human; gameroom := "game0042";
            chatroom := "chat0042"; active := true |};
         {| name := "Blue"; kind := ai; gameroom := ""; chatroom := ""; active := true |};
         {| name := "Red"; kind := ai; gameroom := ""; chatroom := ""; active := true |} ];
     ai_only := false; moves := 4 |}.

Definition capped_env : Env :=
  {| respond := fun move i =>
       if Nat.eqb move 2 && Nat.eqb i 1 then Raise over_total_cap
       else Return "We hold position."%string;
     interface_get_message := fun _ _ => Return "Evacuate the docks."%string;
     adjudicate := fun _ => Return "The storm worsens."%string |}.

Definition before_the_game : Run :=
  {| history := []; sent := []; calls := []; headers := []; log := [];
     advisors := [ {| name := "Sage"; kind := ai; gameroom := "";
                      chatroom := "chat0042"; active := true |} ];
     moves_completed := 0 |}.

Lemma budget_error_stops_the_game_witness :
  snd (game capped_env four_round_game before_the_game) = Return tt
  /\ calls (fst (game capped_env four_round_game before_the_game))
     = [ GetMessage 0 0; Respond 0 1; Respond 0 2; Adjudicate 0;
         GetMessage 1 0; Respond 1 1; Respond 1 2; Adjudicate 1;
         GetMessage 2 0; Respond 2 1 ]
  /\ moves_completed (fst (game capped_env four_round_game before_the_game)) = 2
  /\ Forall (fun a => active a = false)
            (advisors (fst (game capped_env four_round_game before_the_game))).
Proof.
  pose proof (budget_error_stops_the_game capped_env four_round_game 2 (AtPlayer 1)
                over_total_cap before_the_game) as H.
  destruct H as (H1 & H2 & _ & _ & H5 & H6 & _).
  - simpl. lia.
  - intros m Hm. split.
    + intros i p Hp. unfold answered, answer. simpl.
      destruct m as [|[|m]]; try lia; destruct (is_human p); eexists; reflexivity.
    + eexists. reflexivity.
  - simpl. split; [|split].
    + eexists. split; reflexivity.
    + reflexivity.
    + intros i p Hi Hp. unfold answered, answer.
      destruct i as [|i]; [|lia]. simpl in Hp. injection Hp as <-.
      eexists. reflexivity.
  - reflexivity.
  - split; [exact H1|]. split; [exact H2|]. split; [exact H6 | exact H5].
Defined.

(** *** Starting the tasks *)

Lemma settle_failure (group : list task_status) :
  forall (i : nat) (e : exn),
  nth_error group i = Some Running ->
  nth_error (settle group i (Raises e)) i = Some (Failed e)
  /\ (forall j st, j <> i -> nth_error group j = Some st ->
        nth_error (settle group i (Raises e)) j
        = Some (match st with Running => Cancelled | _ => st end))
  /\ ~ In Running (settle group i (Raises e)).
Proof.
  induction group as [|st0 group IH]; intros i e Hi.
  - destruct i; discriminate.
  - destruct i as [|i]; simpl in Hi.
    + injection Hi as ->. simpl. split; [reflexivity|]. split.
      * intros j st Hj Hst. destruct j as [|j]; [contradiction|]. simpl in *.
        rewrite nth_error_map, Hst. reflexivity.
      * intros [H|H]; [discriminate|]. apply in_map_iff in H.
        destruct H as (x & Hx & _). destruct x; discriminate.
    + destruct (IH i e Hi) as (I1 & I2 & I3). simpl. split; [exact I1|]. split.
      * intros j st Hj Hst. destruct j as [|j]; simpl in *.
        -- injection Hst as ->. reflexivity.
        -- apply I2; [lia | exact Hst].
      * intros [H|H]; [destruct st0; discriminate | exact (I3 H)].
Qed.

End SchedulerFacts.

(* ================================================================== *)
(** * Part V: overlapping calls *)
(* ================================================================== *)

Section OverlapFacts.

Import Pricing CostTracker Overlap.

Unset Implicit Arguments.

(** The file a call has open, from [open] to [os.replace]. *)
Definition window (s : stage) : option nat :=
  match s with
  | ToLock f | ToDump f | ToClose f _ | ToReplace f => Some f
  | _ => None
  end.

Definition appended (s : stage) : bool :=
  match s with
  | ToAppend => false
  | _ => true
  end.


Lemma other_differs (c : caller) : caller_eqb (other c) c = false.
Proof. destruct c; reflexivity. Qed.

Lemma caller_eqb_refl (c : caller) : caller_eqb c c = true.
Proof. destruct c; reflexivity. Qed.


(** *** What one step changes *)

Lemma step_self (st : state) (ev : event) :
  at_ (step st ev) (who ev) = fst (fst (advance st ev)).
Proof.
  unfold step. destruct (advance st ev) as [[s d] [m r]]. simpl.
  rewrite caller_eqb_refl. reflexivity.
Qed.

Lemma step_other (st : state) (ev : event) :
  at_ (step st ev) (other (who ev)) = at_ st (other (who ev)).
Proof.
  unfold step. destruct (advance st ev) as [[s d] [m r]]. simpl.
  rewrite other_differs. reflexivity.
Qed.

Lemma step_disk (st : state) (ev : event) :
  disk (step st ev) = snd (fst (advance st ev)).
Proof. unfold step. destruct (advance st ev) as [[s d] [m r]]. reflexivity. Qed.

Lemma step_memory (st : state) (ev : event) :
  memory (step st ev) = fst (snd (advance st ev)).
Proof. unfold step. destruct (advance st ev) as [[s d] [m r]]. reflexivity. Qed.


Lemma step_fixed (st : state) (ev : event) :
  ledger_path (step st ev) = ledger_path st /\ entry (step st ev) = entry st.
Proof. unfold step. destruct (advance st ev) as [[s d] [m r]]. split; reflexivity. Qed.

Lemma run_fixed (evs : list event) :
  forall st, ledger_path (run evs st) = ledger_path st /\ entry (run evs st) = entry st.
Proof.
  induction evs as [|ev evs IH]; intros st; simpl; [split; reflexivity|].
  destruct (IH (step st ev)) as [I1 I2]. destruct (step_fixed st ev) as [S1 S2].
  split; congruence.
Qed.

(** An invariant of the steps holds after every run. *)
Lemma run_invariant (P : state -> Prop) :
  (forall st ev, P st -> P (step st ev)) ->
  forall evs st, P st -> P (run evs st).
Proof.
  intros Hstep. induction evs as [|ev evs IH]; intros st H; simpl; [exact H|].
  apply IH, Hstep, H.
Qed.

(** *** The lists in memory *)

(** What the ledger objects hold, by the calls that have appended. *)
Definition memory_inv (m0 : objects) (st : state) : Prop :=
  let a1 := appended (at_ st First) in
  let a2 := appended (at_ st Second) in
  let e1 := entry st First in
  let e2 := entry st Second in
  match m0 with
  | Separate r1 r2 =>
      memory st = Separate (r1 ++ if a1 then [e1] else []) (r2 ++ if a2 then [e2] else [])
  | Shared rs =>
      exists l,
        memory st = Shared (rs ++ l)
        /\ ((a1 = false /\ a2 = false /\ l = [])
            \/ (a1 = true /\ a2 = false /\ l = [e1])
            \/ (a1 = false /\ a2 = true /\ l = [e2])
            \/ (a1 = true /\ a2 = true /\ (l = [e1; e2] \/ l = [e2; e1])))
  end.

Lemma advance_appended (st : state) (ev : event) :
  at_ st (who ev) <> ToAppend ->
  fst (snd (advance st ev)) = memory st
  /\ appended (fst (fst (advance st ev))) = true.
Proof.
  intros H. unfold advance.
  destruct (at_ st (who ev)) as [| | |f|f|f text|f| |e]; try contradiction; simpl;
    repeat match goal with
           | |- context [if ?b then _ else _] => destruct b; simpl
           | |- context [match ?x with _ => _ end] => destruct x; simpl
           end; auto.
Qed.

Lemma memory_inv_step (m0 : objects) (st : state) (ev : event) :
  memory_inv m0 st -> memory_inv m0 (step st ev).
Proof.
  unfold memory_inv. intros H.
  destruct (step_fixed st ev) as [_ ->].
  rewrite step_memory.
  destruct ev as [c r sh]. destruct c; simpl in *.
  - pose proof (step_self st {| who := First; refused := r; shorter := sh |}) as S1.
    pose proof (step_other st {| who := First; refused := r; shorter := sh |}) as S2.
    simpl in S1, S2. rewrite S1, S2.
    destruct (at_ st First) eqn:E1.
    + unfold advance. simpl. rewrite E1. simpl.
      destruct m0 as [rs|r1 r2].
      * destruct H as (l & Hm & Hl). rewrite Hm. simpl.
        destruct Hl as [(A1 & A2 & ->)|[(A1 & A2 & ->)|[(A1 & A2 & ->)|(A1 & _)]]];
          try discriminate.
        -- exists [entry st First]. rewrite app_nil_r. split; [reflexivity|].
           right. left. auto.
        -- exists [entry st Second; entry st First]. rewrite <- app_assoc.
           split; [reflexivity|]. right. right. right. auto.
      * rewrite H. simpl. rewrite app_nil_r. reflexivity.
    + destruct (advance_appended st {| who := First; refused := r; shorter := sh |})
        as [-> ->]; [simpl; congruence|]. exact H.
    + destruct (advance_appended st {| who := First; refused := r; shorter := sh |})
        as [-> ->]; [simpl; congruence|]. exact H.
    + destruct (advance_appended st {| who := First; refused := r; shorter := sh |})
        as [-> ->]; [simpl; congruence|]. exact H.
    + destruct (advance_appended st {| who := First; refused := r; shorter := sh |})
        as [-> ->]; [simpl; congruence|]. exact H.
    + destruct (advance_appended st {| who := First; refused := r; shorter := sh |})
        as [-> ->]; [simpl; congruence|]. exact H.
    + destruct (advance_appended st {| who := First; refused := r; shorter := sh |})
        as [-> ->]; [simpl; congruence|]. exact H.
    + destruct (advance_appended st {| who := First; refused := r; shorter := sh |})
        as [-> ->]; [simpl; congruence|]. exact H.
    + destruct (advance_appended st {| who := First; refused := r; shorter := sh |})
        as [-> ->]; [simpl; congruence|]. exact H.
  - pose proof (step_self st {| who := Second; refused := r; shorter := sh |}) as S1.
    pose proof (step_other st {| who := Second; refused := r; shorter := sh |}) as S2.
    simpl in S1, S2. rewrite S1, S2.
    destruct (at_ st Second) eqn:E2.
    + unfold advance. simpl. rewrite E2. simpl.
      destruct m0 as [rs|r1 r2].
      * destruct H as (l & Hm & Hl). rewrite Hm. simpl.
        destruct Hl as [(A1 & A2 & ->)|[(A1 & A2 & ->)|[(A1 & A2 & ->)|(_ & A2 & _)]]];
          try discriminate.
        -- exists [entry st Second]. rewrite app_nil_r. split; [reflexivity|].
           right. right. left. auto.
        -- exists [entry st First; entry st Second]. rewrite <- app_assoc.
           split; [reflexivity|]. right. right. right. auto.
      * rewrite H. simpl. rewrite app_nil_r. reflexivity.
    + destruct (advance_appended st {| who := Second; refused := r; shorter := sh |})
        as [-> ->]; [simpl; congruence|]. exact H.
    + destruct (advance_appended st {| who := Second; refused := r; shorter := sh |})
        as [-> ->]; [simpl; congruence|]. exact H.
    + destruct (advance_appended st {| who := Second; refused := r; shorter := sh |})
        as [-> ->]; [simpl; congruence|]. exact H.
    + destruct (advance_appended st {| who := Second; refused := r; shorter := sh |})
        as [-> ->]; [simpl; congruence|]. exact H.
    + destruct (advance_appended st {| who := Second; refused := r; shorter := sh |})
        as [-> ->]; [simpl; congruence|]. exact H.
    + destruct (advance_appended st {| who := Second; refused := r; shorter := sh |})
        as [-> ->]; [simpl; congruence|]. exact H.
    + destruct (advance_appended st {| who := Second; refused := r; shorter := sh |})
        as [-> ->]; [simpl; congruence|]. exact H.
    + destruct (advance_appended st {| who := Second; refused := r; shorter := sh |})
        as [-> ->]; [simpl; congruence|]. exact H.
Qed.

(** *** The temporary name *)

















(** Two processes that have both loaded a ledger of one record, and the calls
    they record. *)
Definition call_by_blue : CostRecord :=
  new_entry 2000 "openai" "gpt-4o-mini" 4000%uint63 800%uint63 2.5.

Definition call_by_red : CostRecord :=
  new_entry 2001 "google" "gemini-2.5-pro" 6000%uint63 400%uint63 3.5.

Definition ledger_of_one : Disk :=
  {| at_path := Some 0; at_tmp := None;
     data := fun n => match n with 0 => Whole [scenario_entry] | _ => Empty end;
     fresh := 1; lock := fun _ => None |}.

Definition ledger_path_of_two : string := "/data/snowglobe/cost_ledger.json".


Definition two_processes : state :=
  start ledger_path_of_two call_by_blue call_by_red
        (Separate [scenario_entry] [scenario_entry]) ledger_of_one.



(** *** One call alone *)

Lemma run_invariant_on (Q : event -> Prop) (P : state -> Prop) :
  (forall st ev, Q ev -> P st -> P (step st ev)) ->
  forall evs st, Forall Q evs -> P st -> P (run evs st).
Proof.
  intros Hstep. induction evs as [|ev evs IH]; intros st HQ H; simpl; [exact H|].
  inversion HQ. subst. apply IH; [assumption|]. apply Hstep; assumption.
Qed.

(** While the first call runs alone: the second has not started, the ledger
    name is not moved before the call returns, and the call writes only to the
    file under the temporary name or to a file it created. *)
Definition alone_inv (d0 : Disk) (st : state) : Prop :=
  at_ st Second = ToAppend
  /\ (at_ st First <> Returned -> at_path (disk st) = at_path d0)
  /\ (forall f, window (at_ st First) = Some f -> at_tmp d0 = Some f \/ fresh d0 <= f)
  /\ (forall f, at_tmp (disk st) = Some f -> at_tmp d0 = Some f \/ fresh d0 <= f)
  /\ fresh d0 <= fresh (disk st)
  /\ (forall n, n < fresh d0 -> at_tmp d0 <> Some n -> data (disk st) n = data d0 n).

Lemma alone_inv_step (d0 : Disk) (st : state) (ev : event) :
  who ev = First -> alone_inv d0 st -> alone_inv d0 (step st ev).
Proof.
  intros Hw (J1 & J2 & J3 & J4 & J5 & J6).
  pose proof (step_self st ev) as S1. pose proof (step_other st ev) as S2.
  rewrite Hw in S1, S2. simpl in S2.
  unfold alone_inv. rewrite S1, S2, step_disk. clear S1 S2.
  unfold advance. rewrite Hw.
  destruct (at_ st First) as [| | |g|g|g text|g| |e] eqn:E; simpl;
    try (assert (P : at_path (disk st) = at_path d0) by (apply J2; discriminate)).
  - repeat split; auto; try discriminate.
  - destruct (_ =? _)%string; [|destruct (refused ev)]; simpl;
      repeat split; auto; try discriminate.
  - destruct (refused ev); simpl; [repeat split; auto; try discriminate|].
    unfold open_tmp. destruct (at_tmp (disk st)) as [n|] eqn:T; simpl.
    + split; [exact J1|]. split; [auto|].
      split; [intros f H; inversion H; subst; apply J4; reflexivity|].
      split; [rewrite T; exact J4|]. split; [exact J5|].
      intros m Hm Hn. destruct (Nat.eqb_spec m n) as [->|Hne]; [|apply J6; assumption].
      destruct (J4 n eq_refl) as [H|H]; [contradiction | lia].
    + split; [exact J1|]. split; [auto|].
      split; [intros f H; inversion H; subst; right; exact J5|].
      split; [intros f H; inversion H; subst; right; exact J5|].
      split; [lia|].
      intros m Hm Hn. destruct (Nat.eqb_spec m (fresh (disk st))) as [->|Hne];
        [lia | apply J6; assumption].
  - destruct (refused ev); simpl; [repeat split; auto; try discriminate|].
    destruct (lock (disk st) g); simpl; repeat split; auto;
      try (intros f H; inversion H; subst; apply J3; reflexivity).
  - repeat split; auto;
      try (intros f H; inversion H; subst; apply J3; reflexivity).
  - assert (K : forall c m, m < fresh d0 -> at_tmp d0 <> Some m ->
                (if Nat.eqb m g then c else data (disk st) m) = data d0 m).
    { intros c m Hm Hn. destruct (Nat.eqb_spec m g) as [->|Hne]; [|apply J6; assumption].
      destruct (J3 g eq_refl) as [H|H]; [contradiction | lia]. }
    destruct (refused ev); simpl; repeat split; auto; try discriminate;
      try (intros f H; inversion H; subst; apply J3; reflexivity).
  - destruct (refused ev); simpl; [repeat split; auto; try discriminate|].
    destruct (at_tmp (disk st)) as [n|] eqn:T; simpl.
    + repeat split; auto; try discriminate; try (intros H; elim H; reflexivity).
    + repeat split; auto; try discriminate. rewrite T. exact J4.
  - repeat split; auto; try discriminate.
  - repeat split; auto; try discriminate.
Qed.

(** X8.  Whenever a [record] call that runs alone raises, at whichever step
    of the save the operating system refuses, the entry has been appended to
    the records in memory, the ledger path names the file it named before, and
    that file holds what it held: the object then counts a spend that the
    ledger file does not hold. *)
Theorem failed_save_leaves_the_ledger_file (p : string) (e1 e2 : CostRecord)
    (m0 : objects) (d0 : Disk) (events : list event) (e : exn) :
  Forall (fun ev => who ev = First) events ->
  at_ (run events (start p e1 e2 m0 d0)) First = Raised e ->
  let st := run events (start p e1 e2 m0 d0) in
  records_of (memory st) First = records_of m0 First ++ [e1]
  /\ at_path (disk st) = at_path d0
  /\ forall n, at_path d0 = Some n -> n < fresh d0 -> at_tmp d0 <> Some n ->
       data (disk st) n = data d0 n.
Proof.
  intros Hall Hr st.
  assert (J : alone_inv d0 st).
  { apply (run_invariant_on (fun ev => who ev = First)); [|exact Hall|].
    - intros s ev. apply alone_inv_step.
    - unfold alone_inv. simpl. repeat split; auto; try discriminate; try lia. }
  assert (M : memory_inv m0 st).
  { apply run_invariant; [apply memory_inv_step|].
    unfold memory_inv. simpl. destruct m0 as [rs|r1 r2].
    - exists []. rewrite app_nil_r. auto.
    - rewrite !app_nil_r. reflexivity. }
  destruct J as (J1 & J2 & _ & _ & _ & J6).
  fold st in Hr. unfold memory_inv in M. rewrite Hr, J1 in M. simpl in M.
  destruct (run_fixed events (start p e1 e2 m0 d0)) as [_ He]. fold st in He.
  rewrite He in M. simpl in M.
  split; [|split].
  - destruct m0 as [rs|r1 r2]; simpl.
    + destruct M as (l & Hm & Hl).
      destruct Hl as [(A & _)|[(_ & _ & ->)|[(A & _)|(_ & A & _)]]]; try discriminate.
      rewrite Hm. reflexivity.
    + rewrite M. reflexivity.
  - apply J2. rewrite Hr. discriminate.
  - intros n _ Hn Ht. apply J6; assumption.
Qed.

Definition disk_full : exn :=
  {| exn_cls := OSError; exn_args := [Lit "No space left on device"] |}.

Lemma failed_save_leaves_the_ledger_file_witness :
  let st := run (map go [First; First; First; First; First]
                 ++ [{| who := First; refused := Some disk_full; shorter := false |}])
                two_processes in
  at_ st First = Raised disk_full
  /\ records_of (memory st) First = [scenario_entry] ++ [call_by_blue]
  /\ at_path (disk st) = at_path ledger_of_one
  /\ forall n, at_path ledger_of_one = Some n -> n < fresh ledger_of_one ->
       at_tmp ledger_of_one <> Some n ->
       data (disk st) n = data ledger_of_one n.
Proof.
  split; [reflexivity|].
  apply (failed_save_leaves_the_ledger_file ledger_path_of_two call_by_blue call_by_red
           (Separate [scenario_entry] [scenario_entry]) ledger_of_one
           (map go [First; First; First; First; First]
            ++ [{| who := First; refused := Some disk_full; shorter := false |}])
           disk_full).
  - repeat constructor.
  - reflexivity.
Defined.

(** Evaluating a run step by step, from the innermost state outwards; [Hd]
    says that the directory part of the path is not empty, [Hl] that the lock
    asked for is free. *)
Ltac take_steps Hd Hl :=
  repeat match goal with
         | |- context [step (Build_state ?a ?b ?c ?d ?e ?f) ?ev] =>
             let E := fresh "E" in
             eassert (E : step (Build_state a b c d e f) ev = _);
             [ unfold step, advance; cbn -[Builtins.dirname String.eqb Nat.eqb];
               repeat (rewrite ?Hd, ?Hl, ?Nat.eqb_refl;
                       cbn -[Builtins.dirname String.eqb Nat.eqb]);
               reflexivity
             | rewrite E; clear E ]
         end.

(** The steps of one call, run alone and unrefused, leave the ledger that
    [CostTracker.record] leaves with its [_save] taken as a whole. *)
Lemma alone_is_record (self : CostTracker.t) (w : World) (now now_log : float)
    (source model : string) (pc rc : int) (duration : float)
    (e2 : CostRecord) (others : list CostRecord) (d0 : Disk) :
  Builtins.dirname (path self) <> ""%string -> read_only w = false ->
  (forall n, lock d0 n = None) ->
  let e1 := new_entry now source model pc rc duration in
  let st := run (map go [First; First; First; First; First; First; First])
                (start (path self) e1 e2 (Separate (records self) others) d0) in
  at_ st First = Returned
  /\ ledger_file (disk st) = Some (Whole (records self ++ [e1]))
  /\ files (snd (fst (record self w now now_log source model pc rc duration))) (path self)
     = Ledger (records self ++ [e1])
  /\ snd (record self w now now_log source model pc rc duration)
     = Return (estimate_cost source model pc rc).
Proof.
  intros Hd Hr Hl e1 st.
  destruct (record_unfold self w now now_log source model pc rc duration)
    as (_ & _ & Hret).
  cbv zeta in Hret. fold e1 in Hret.
  destruct (save_writes (append self e1) w Hd Hr) as (S1 & S2 & _).
  destruct (Hret S1) as (R1 & R2 & _).
  split; [|split; [|split; [rewrite R2; exact S2 | exact R1]]].
  - subst st. apply String.eqb_neq in Hd.
    destruct d0 as [ap tp dt fr lk]. simpl in Hl.
    unfold run, start, go. cbn [map fold_left].
    destruct tp as [t|];
      take_steps Hd Hl; reflexivity.
  - subst st. apply String.eqb_neq in Hd.
    destruct d0 as [ap tp dt fr lk]. simpl in Hl.
    unfold run, start, go. cbn [map fold_left].
    destruct tp as [t|];
      take_steps Hd Hl;
      unfold ledger_file; cbn -[Nat.eqb]; rewrite ?Nat.eqb_refl; reflexivity.
Qed.

(** *** Two saves on the shared temporary name *)

(** The first call appends and writes its list; the second call appends and
    opens the temporary file, which is the file the first has just written;
    the first renames it. *)
Definition second_opens_before_first_renames : list event :=
  map go [First; First; First; First; First; First; Second; Second; Second; First].

(** The second call locks, writes, and renames. *)
Definition second_finishes : list event :=
  map go [Second; Second; Second; Second].

(** X22.  Both saves use the one name [self.path + ".tmp"], and [open]
    truncates the file under it before [flock] is asked.  When the second call
    opens the temporary file between the write and the rename of the first,
    the first call returns with the ledger path naming an empty file, which is
    no JSON document; the second call then writes its own list into that file
    in place and raises [FileNotFoundError] from [os.replace], and the record
    of the first call is in no file. *)
Theorem shared_temporary_name_breaks_overlapping_saves (p : string)
    (e1 e2 : CostRecord) (r1 r2 : list CostRecord) (d0 : Disk) :
  Builtins.dirname p <> ""%string -> at_tmp d0 = None -> lock d0 (fresh d0) = None ->
  let st1 := run second_opens_before_first_renames (start p e1 e2 (Separate r1 r2) d0) in
  let st2 := run second_finishes st1 in
  at_ st1 First = Returned
  /\ ledger_file (disk st1) = Some Empty
  /\ at_ st2 First = Returned
  /\ at_ st2 Second = Raised (no_such_file (p ++ ".tmp"))
  /\ ledger_file (disk st2) = Some (Whole (r2 ++ [e2])).
Proof.
  intros Hd Ht Hl. apply String.eqb_neq in Hd.
  destruct d0 as [ap tp dt fr lk]. simpl in Ht, Hl. subst tp.
  unfold second_opens_before_first_renames, second_finishes, run, start, go.
  cbn [map fold_left].
  take_steps Hd Hl.
  unfold ledger_file. cbn -[Nat.eqb]. rewrite ?Nat.eqb_refl.
  repeat split.
Qed.

Lemma shared_temporary_name_breaks_overlapping_saves_witness :
  let st1 := run second_opens_before_first_renames two_processes in
  let st2 := run second_finishes st1 in
  at_ st1 First = Returned
  /\ ledger_file (disk st1) = Some Empty
  /\ at_ st2 First = Returned
  /\ at_ st2 Second = Raised (no_such_file (ledger_path_of_two ++ ".tmp"))
  /\ ledger_file (disk st2) = Some (Whole ([scenario_entry] ++ [call_by_red])).
Proof.
  apply (shared_temporary_name_breaks_overlapping_saves ledger_path_of_two
           call_by_blue call_by_red [scenario_entry] [scenario_entry] ledger_of_one).
  - vm_compute. discriminate.
  - reflexivity.
  - reflexivity.
Defined.

End OverlapFacts.

(* ================================================================== *)
(** * Part VI: further properties of the ledger *)
(* ================================================================== *)

Section MoreLedgerFacts.

Import Pricing CostTracker.

Unset Implicit Arguments.

(** *** More binary64 facts *)

Lemma zero_mul (y : float) : nonneg_finite y -> (0 * y)%float = 0%float.
Proof.
  unfold nonneg_finite. intros H. apply Prim2SF_inj. rewrite FloatAxioms.mul_spec.
  unfold SF64mul.
  replace (Prim2SF 0) with (S754_zero false) by (vm_compute; reflexivity).
  destruct (Prim2SF y) as [[]|[]| |[] my ey]; simpl in *; try discriminate; reflexivity.
Qed.

Lemma Prim2SF_nan : Prim2SF nan = S754_nan.
Proof. vm_compute. reflexivity. Qed.

Lemma is_nan_spec (x : float) : Prim2SF x = S754_nan -> x = nan.
Proof. intros H. apply Prim2SF_inj. rewrite H, Prim2SF_nan. reflexivity. Qed.

Lemma add_nan_r (x : float) : (x + nan)%float = nan.
Proof.
  apply is_nan_spec. rewrite FloatAxioms.add_spec, Prim2SF_nan. unfold SF64add.
  destruct (Prim2SF x) as [[]|[]| |[] m e]; reflexivity.
Qed.

Lemma add_nan_l (x : float) : (nan + x)%float = nan.
Proof.
  apply is_nan_spec. rewrite FloatAxioms.add_spec, Prim2SF_nan. reflexivity.
Qed.

Lemma ltb_nan_r (c : float) : (c <? nan)%float = false.
Proof.
  rewrite FloatAxioms.ltb_spec, Prim2SF_nan. unfold SFltb.
  destruct (Prim2SF c) as [[]|[]| |[] m e]; reflexivity.
Qed.

Lemma fold_add_nan (xs : list float) : fold_left PrimFloat.add xs nan = nan.
Proof.
  induction xs as [|x xs IH]; simpl; [reflexivity|]. rewrite add_nan_l. exact IH.
Qed.

(** A sum with a NaN among its terms is NaN. *)
Lemma sum_nan (xs : list float) : In nan xs -> Builtins.sum xs = nan.
Proof.
  unfold Builtins.sum. generalize 0%float.
  induction xs as [|x xs IH]; intros acc H; [destruct H|].
  simpl. destruct H as [->|H].
  - rewrite add_nan_r. apply fold_add_nan.
  - apply IH. exact H.
Qed.

(** Adding to the float zero a value above it gives the value back. *)
Lemma zero_add_pos (x : float) : (0 <? x)%float = true -> (0 + x)%float = x.
Proof.
  intros H. apply Prim2SF_inj. rewrite FloatAxioms.ltb_spec in H.
  rewrite FloatAxioms.add_spec. unfold SF64add.
  replace (Prim2SF 0) with (S754_zero false) in * by (vm_compute; reflexivity).
  destruct (Prim2SF x) as [[]|[]| |[] m e]; simpl in *; try discriminate; reflexivity.
Qed.

(** *** The estimate and the rates *)

(** X1.  An estimate is never negative and never NaN, whatever the source, the
    model and the two character counts; without characters it is exactly 0. *)
Theorem estimate_cost_never_negative (source model : string)
    (prompt_chars response_chars : int) :
  (0 <=? estimate_cost source model prompt_chars response_chars)%float = true
  /\ estimate_cost source model 0%uint63 0%uint63 = 0%float.
Proof.
  split; [apply nonneg_leb, estimate_nonneg|].
  unfold estimate_cost. destruct (rates_nonneg_finite source model) as [Hi Ho].
  replace (Builtins.int_truediv 0%uint63 CHARS_PER_TOKEN) with 0%float
    by (vm_compute; reflexivity).
  rewrite (zero_mul _ Hi), (zero_mul _ Ho).
  vm_compute. reflexivity.
Qed.

(** X2.  No lookup gives a rate above the fallback's or below zero: the
    fallback rates bound every rate the estimate can use. *)
Theorem lookup_rates_within_fallback (source model : string) :
  (0 <=? input (_lookup_pricing source model))%float = true
  /\ (input (_lookup_pricing source model) <=? input fallback)%float = true
  /\ (0 <=? output (_lookup_pricing source model))%float = true
  /\ (output (_lookup_pricing source model) <=? output fallback)%float = true.
Proof.
  pose proof (lookup_candidates source model) as H.
  set (p := _lookup_pricing source model) in *. clearbody p. simpl in H.
  repeat (destruct H as [H|H]; [subst p; repeat split; vm_compute; reflexivity|]).
  elim H.
Qed.

(** X3.  For [openai], every model name that starts with [gpt-4o], other than
    the exact name [gpt-4o-mini], gets the rates of [gpt-4o]: the entry
    [gpt-4o] is declared first and is a prefix of [gpt-4o-mini], so a dated
    mini model is priced as the large one. *)
Theorem gpt_4o_prefix_shadows_the_mini_entry (model : string) :
  String.prefix "gpt-4o" model = true -> model <> "gpt-4o-mini"%string ->
  _lookup_pricing "openai" model = {| input := 2.50; output := 10.00 |}.
Proof.
  intros Hp Hm. unfold _lookup_pricing.
  change ("openai" =? "ollama")%string with false. cbv iota.
  unfold dict_get, PRICING. cbn [find fst]. unfold key_eqb, prefix_match.
  cbn [fst snd].
  change ("google" =? "openai")%string with false.
  change ("ollama" =? "openai")%string with false.
  change ("openai" =? "openai")%string with true.
  cbn [andb].
  destruct (String.eqb_spec "gpt-4o" model) as [E|E]; [reflexivity|].
  destruct (String.eqb_spec "gpt-4o-mini" model) as [E'|E'];
    [elim Hm; symmetry; exact E'|].
  cbn [option_map]. rewrite Hp. reflexivity.
Qed.

Lemma gpt_4o_prefix_shadows_the_mini_entry_witness :
  _lookup_pricing "openai" "gpt-4o-mini-2024-07-18" = {| input := 2.50; output := 10.00 |}.
Proof.
  apply (gpt_4o_prefix_shadows_the_mini_entry "gpt-4o-mini-2024-07-18").
  - reflexivity.
  - discriminate.
Defined.

(** X4.  Of the sources a configuration accepts, [llamacpp] and [azure] have no
    pricing entry: whatever the model, their calls are priced at the fallback
    rates, the local [llamacpp] included. *)
Theorem accepted_sources_without_entry_pay_fallback (source model : string) :
  Configuration.checked_source (Some source) = Some source ->
  source <> "ollama"%string -> source <> "google"%string -> source <> "openai"%string ->
  (source = "llamacpp"%string \/ source = "azure"%string)
  /\ _lookup_pricing source model = fallback.
Proof.
  intros Hc H1 H2 H3.
  assert (Hs : source = "llamacpp"%string \/ source = "azure"%string).
  { unfold Configuration.checked_source in Hc. simpl in Hc.
    destruct (String.eqb_spec source "llamacpp"); [auto|].
    destruct (String.eqb_spec source "azure"); [auto|].
    destruct (String.eqb_spec source "openai"); [contradiction|].
    destruct (String.eqb_spec source "ollama"); [contradiction|].
    destruct (String.eqb_spec source "google"); [contradiction|].
    simpl in Hc. discriminate. }
  split; [exact Hs|].
  unfold _lookup_pricing. apply String.eqb_neq in H1. rewrite H1.
  rewrite dict_get_missing.
  - rewrite find_nowhere; [reflexivity|].
    intros kv Hin. unfold prefix_match. simpl in Hin.
    repeat (destruct Hin as [Hin|Hin];
            [subst kv; simpl; destruct Hs as [-> | ->]; reflexivity|]).
    elim Hin.
  - intros price Hin. simpl in Hin.
    repeat (destruct Hin as [Hin|Hin];
            [inversion Hin; subst; destruct Hs; discriminate|]).
    exact Hin.
Qed.

Lemma accepted_sources_without_entry_pay_fallback_witness :
  ("llamacpp"%string = "llamacpp"%string \/ "llamacpp"%string = "azure"%string)
  /\ _lookup_pricing "llamacpp" "mistral-7b-instruct.gguf" = fallback.
Proof.
  apply (accepted_sources_without_entry_pay_fallback "llamacpp" "mistral-7b-instruct.gguf");
    [reflexivity | discriminate | discriminate | discriminate].
Defined.

(** *** The rolling window *)

Lemma filter_all {A : Type} (f : A -> bool) (l : list A) :
  (forall x, In x l -> f x = true) -> filter f l = l.
Proof.
  induction l as [|a l IH]; simpl; intros H; [reflexivity|].
  rewrite (H a (or_introl eq_refl)), IH; [reflexivity|].
  intros x Hx. apply H. right. exact Hx.
Qed.

Lemma filter_none {A : Type} (f : A -> bool) (l : list A) :
  (forall x, In x l -> f x = false) -> filter f l = [].
Proof.
  induction l as [|a l IH]; simpl; intros H; [reflexivity|].
  rewrite (H a (or_introl eq_refl)), IH; [reflexivity|].
  intros x Hx. apply H. right. exact Hx.
Qed.

(** X5.  When every record is at most 86400 seconds old, the cut-off instant
    included, the 24-hour spend is the lifetime spend. *)
Theorem spend_last_24h_counts_every_recent_record (self : CostTracker.t) (now : float) :
  (forall r, In r (records self) -> (now - 86400 <=? ts r)%float = true) ->
  spend_last_24h self now = spend_total self.
Proof.
  intros H. unfold spend_last_24h, spend_total.
  rewrite (filter_all _ _ H). reflexivity.
Qed.

Lemma spend_last_24h_counts_every_recent_record_witness :
  spend_last_24h scenario_ledger 87400 = spend_total scenario_ledger.
Proof.
  apply (spend_last_24h_counts_every_recent_record scenario_ledger 87400).
  intros r Hr. simpl in Hr.
  repeat (destruct Hr as [Hr|Hr]; [subst r; vm_compute; reflexivity|]).
  elim Hr.
Defined.

(** X6.  When every record is older than 86400 seconds, or carries a timestamp
    that does not compare (NaN), the 24-hour spend is zero and the daily check
    is on the estimate alone. *)
Theorem spend_last_24h_ignores_old_records (self : CostTracker.t) (now : float) :
  (forall r, In r (records self) -> (now - 86400 <=? ts r)%float = false) ->
  spend_last_24h self now = 0%float
  /\ forall x, check_budget self now x
               = if (daily_cap self <? 0 + x)%float then
                   Raise {| exn_cls := CostLimitExceeded;
                            exn_args := daily_message 0 x (daily_cap self) |}
                 else if (total_cap self <? spend_total self + x)%float then
                   Raise {| exn_cls := CostLimitExceeded;
                            exn_args := total_message (spend_total self) x (total_cap self) |}
                 else Return tt.
Proof.
  intros H.
  assert (E : spend_last_24h self now = 0%float).
  { unfold spend_last_24h. rewrite (filter_none _ _ H). reflexivity. }
  split; [exact E|]. intros x. unfold check_budget. rewrite E. reflexivity.
Qed.

Lemma spend_last_24h_ignores_old_records_witness :
  spend_last_24h scenario_ledger 1000000 = 0%float
  /\ forall x, check_budget scenario_ledger 1000000 x
               = if (daily_cap scenario_ledger <? 0 + x)%float then
                   Raise {| exn_cls := CostLimitExceeded;
                            exn_args := daily_message 0 x (daily_cap scenario_ledger) |}
                 else if (total_cap scenario_ledger <? spend_total scenario_ledger + x)%float then
                   Raise {| exn_cls := CostLimitExceeded;
                            exn_args := total_message (spend_total scenario_ledger) x
                                          (total_cap scenario_ledger) |}
                 else Return tt.
Proof.
  apply (spend_last_24h_ignores_old_records scenario_ledger 1000000).
  intros r Hr. simpl in Hr.
  repeat (destruct Hr as [Hr|Hr]; [subst r; vm_compute; reflexivity|]).
  elim Hr.
Defined.

(** *** Costs that are not numbers *)

(** X7.  [json.load] accepts [NaN].  One record whose cost is NaN makes the
    lifetime sum NaN, so the lifetime check never fires; when that record is
    within the window no check fires, whatever the estimate and the caps.  An
    estimate that is NaN passes every check too. *)
Theorem nan_cost_switches_off_the_caps (self : CostTracker.t) (now : float)
    (r : CostRecord) :
  In r (records self) -> Prim2SF (cost r) = S754_nan ->
  (forall x, (total_cap self <? spend_total self + x)%float = false)
  /\ ((now - 86400 <=? ts r)%float = true ->
      forall x, check_budget self now x = Return tt)
  /\ check_budget self now nan = Return tt.
Proof.
  intros Hin Hnan. apply is_nan_spec in Hnan.
  assert (T : spend_total self = nan).
  { unfold spend_total. apply sum_nan. rewrite <- Hnan. apply in_map. exact Hin. }
  split; [|split].
  - intros x. rewrite T, add_nan_l. apply ltb_nan_r.
  - intros Hw x. unfold check_budget.
    assert (D : spend_last_24h self now = nan).
    { unfold spend_last_24h. apply sum_nan. rewrite <- Hnan. apply in_map.
      apply filter_In. split; assumption. }
    rewrite D, T, !add_nan_l, !ltb_nan_r. reflexivity.
  - unfold check_budget. rewrite !add_nan_r, !ltb_nan_r. reflexivity.
Qed.

Definition unpriced_entry : CostRecord :=
  {| ts := 1000; source := "openai"; model := "gpt-4o";
     prompt_chars := 2400000%uint63; response_chars := 0%uint63;
     duration := 1.25; cost := nan |}.

Lemma nan_cost_switches_off_the_caps_witness :
  (forall x, (total_cap (with_records scenario_ledger [scenario_entry; unpriced_entry])
              <? spend_total (with_records scenario_ledger [scenario_entry; unpriced_entry]) + x)%float
             = false)
  /\ ((2000 - 86400 <=? ts unpriced_entry)%float = true ->
      forall x, check_budget (with_records scenario_ledger [scenario_entry; unpriced_entry])
                  2000 x = Return tt)
  /\ check_budget (with_records scenario_ledger [scenario_entry; unpriced_entry]) 2000 nan
     = Return tt.
Proof.
  apply (nan_cost_switches_off_the_caps
           (with_records scenario_ledger [scenario_entry; unpriced_entry]) 2000
           unpriced_entry).
  - simpl. right. left. reflexivity.
  - vm_compute. reflexivity.
Defined.

(** *** Writes that fail *)

(** [os.path.dirname] is empty exactly for a path without a slash. *)
Lemma rfind_slash_none (cs : list ascii) :
  Builtins.rfind_slash cs = None <-> ~ In "/"%char cs.
Proof.
  induction cs as [|c cs IH]; simpl.
  - split; [intros _ H; exact H | reflexivity].
  - destruct (Builtins.rfind_slash cs) as [i|].
    + split; [discriminate|]. intros H. exfalso.
      assert (Hn : ~ In "/"%char cs) by (intros Hc; apply H; right; exact Hc).
      apply IH in Hn. discriminate.
    + destruct (Ascii.eqb_spec c "/") as [E|E].
      * split; [discriminate|]. intros H. elim H. left. exact E.
      * split; [|reflexivity]. intros _ [H|H]; [exact (E H)|].
        revert H. apply IH. reflexivity.
Qed.

Lemma rfind_slash_lt (cs : list ascii) (i : nat) :
  Builtins.rfind_slash cs = Some i -> i < List.length cs.
Proof.
  revert i. induction cs as [|c cs IH]; simpl; intros i; [discriminate|].
  destruct (Builtins.rfind_slash cs) as [j|].
  - intros H. inversion H. specialize (IH j eq_refl). lia.
  - destruct (Ascii.eqb c "/"); [|discriminate]. intros H. inversion H. lia.
Qed.

Lemma rstrip_slash_nil (l : list ascii) :
  Builtins.rstrip_slash l = [] -> forallb (fun c => Ascii.eqb c "/") l = true.
Proof.
  induction l as [|c l IH]; simpl; [reflexivity|].
  destruct (Builtins.rstrip_slash l) as [|d r].
  - destruct (Ascii.eqb c "/"); [|discriminate]. intros _. apply IH. reflexivity.
  - discriminate.
Qed.

Lemma dirname_empty (p : string) :
  Builtins.dirname p = ""%string <-> ~ In "/"%char (list_ascii_of_string p).
Proof.
  unfold Builtins.dirname. rewrite <- rfind_slash_none.
  destruct (Builtins.rfind_slash (list_ascii_of_string p)) as [i|] eqn:E.
  - split; [|discriminate]. intros H. exfalso.
    apply rfind_slash_lt in E.
    destruct (list_ascii_of_string p) as [|c cs]; [simpl in E; lia|].
    cbn [firstn] in H.
    destruct (forallb (fun c0 => Ascii.eqb c0 "/") (c :: firstn i cs)) eqn:F.
    + simpl in H. discriminate.
    + assert (R : Builtins.rstrip_slash (c :: firstn i cs) = []).
      { destruct (Builtins.rstrip_slash (c :: firstn i cs)); [reflexivity|].
        simpl in H. discriminate. }
      apply rstrip_slash_nil in R. congruence.
  - split; reflexivity.
Qed.

(** X9.  A ledger whose path is a bare file name cannot be saved:
    [os.path.dirname] is empty for a path without a slash, [os.makedirs]
    raises [FileNotFoundError] on the empty path, and every [record] raises
    it, on any file system, before a file is written. *)
Theorem record_needs_a_directory_in_the_path (self : CostTracker.t) (w : World)
    (now now_log : float) (source model : string) (pc rc : int) (duration : float) :
  ~ In "/"%char (list_ascii_of_string (path self)) ->
  record self w now now_log source model pc rc duration
  = ((append self (new_entry now source model pc rc duration), w),
     Raise {| exn_cls := FileNotFoundError; exn_args := [Lit ""] |}).
Proof.
  intros Hs.
  destruct (record_unfold self w now now_log source model pc rc duration)
    as (_ & Hraise & _).
  cbv zeta in Hraise. apply Hraise. apply dirname_empty in Hs.
  unfold _save, makedirs.
  change (path (append self (new_entry now source model pc rc duration)))
    with (path self).
  rewrite Hs. reflexivity.
Qed.

Lemma record_needs_a_directory_in_the_path_witness :
  record {| path := "cost_ledger.json"; daily_cap := 2.00; total_cap := 10.00;
            logger := true; records := [] |}
    empty_world 2000 2001 "google" "gemini-2.5-pro" 800000%uint63 40000%uint63 3.14159
  = ((append {| path := "cost_ledger.json"; daily_cap := 2.00; total_cap := 10.00;
                logger := true; records := [] |}
        (new_entry 2000 "google" "gemini-2.5-pro" 800000%uint63 40000%uint63 3.14159),
      empty_world),
     Raise {| exn_cls := FileNotFoundError; exn_args := [Lit ""] |}).
Proof.
  apply (record_needs_a_directory_in_the_path
           {| path := "cost_ledger.json"; daily_cap := 2.00; total_cap := 10.00;
              logger := true; records := [] |}
           empty_world 2000 2001 "google" "gemini-2.5-pro"
           800000%uint63 40000%uint63 3.14159).
  simpl. intuition discriminate.
Defined.

(** *** Construction, then the first record *)

(** X10.  A ledger file that is no JSON document is not kept: the object
    starts without records, and the first [record] replaces the file by the one
    new entry, so the spend that the caps are checked against starts again from
    that entry. *)
Theorem first_record_replaces_a_corrupt_file (p why : string)
    (daily total : option float) (lg : bool) (w : World)
    (now now_log : float) (source model : string) (pc rc : int) (duration : float) :
  files w p = Malformed why ->
  Builtins.dirname p <> ""%string -> read_only w = false ->
  exists self w1,
    __init__ p daily total lg w = (w1, Return self)
    /\ records self = []
    /\ snd (record self w1 now now_log source model pc rc duration)
       = Return (estimate_cost source model pc rc)
    /\ files (snd (fst (record self w1 now now_log source model pc rc duration))) p
       = Ledger [new_entry now source model pc rc duration].
Proof.
  intros Hf Hd Hr. unfold __init__.
  set (self0 := {| path := p;
                   daily_cap := match daily with Some c => c | None => DEFAULT_DAILY_CAP end;
                   total_cap := match total with Some c => c | None => DEFAULT_TOTAL_CAP end;
                   logger := lg; records := [] |}).
  destruct (load_returns self0 w) as (L1 & L2 & L3).
  { intros why' H. change (path self0) with p in H. congruence. }
  change (path self0) with p in L1.
  assert (E : loaded_records (files w p) = []) by (rewrite Hf; reflexivity).
  rewrite E in L1.
  exists (with_records self0 []), (fst (_load self0 w)).
  split; [rewrite <- L1; apply surjective_pairing|].
  split; [reflexivity|].
  set (w1 := fst (_load self0 w)) in *.
  destruct (record_unfold (with_records self0 []) w1 now now_log source model pc rc duration)
    as (_ & _ & Hret).
  cbv zeta in Hret.
  destruct (save_writes (append (with_records self0 [])
                           (new_entry now source model pc rc duration)) w1)
    as (S1 & S2 & _); [exact Hd | rewrite L3; exact Hr |].
  destruct (Hret S1) as (R1 & R2 & _).
  split; [exact R1|]. rewrite R2. exact S2.
Qed.

Lemma first_record_replaces_a_corrupt_file_witness :
  exists self w1,
    __init__ "/data/cost_ledger.json" None None true
      (set_file empty_world "/data/cost_ledger.json" (Malformed "Expecting value"))
    = (w1, Return self)
    /\ records self = []
    /\ snd (record self w1 2000 2001 "google" "gemini-2.5-pro"
              800000%uint63 40000%uint63 3.14159)
       = Return (estimate_cost "google" "gemini-2.5-pro" 800000%uint63 40000%uint63)
    /\ files (snd (fst (record self w1 2000 2001 "google" "gemini-2.5-pro"
                          800000%uint63 40000%uint63 3.14159))) "/data/cost_ledger.json"
       = Ledger [new_entry 2000 "google" "gemini-2.5-pro"
                   800000%uint63 40000%uint63 3.14159].
Proof.
  apply (first_record_replaces_a_corrupt_file "/data/cost_ledger.json" "Expecting value"
           None None true
           (set_file empty_world "/data/cost_ledger.json" (Malformed "Expecting value"))).
  - reflexivity.
  - vm_compute. discriminate.
  - reflexivity.
Defined.

(** X11.  A cap of 0.0 given to the constructor is kept, not replaced by the
    default (the test is [is not None]): on a ledger without records every
    estimate above zero is refused by the daily check, and an estimate of zero
    passes it. *)
Theorem zero_daily_cap_refuses_every_positive_estimate (p : string)
    (total : option float) (lg : bool) (w : World) (now x : float) :
  files w p = Absent -> (0 <? x)%float = true ->
  exists self,
    __init__ p (Some 0%float) total lg w = (w, Return self)
    /\ daily_cap self = 0%float
    /\ check_budget self now x
       = Raise {| exn_cls := CostLimitExceeded; exn_args := daily_message 0 x 0 |}
    /\ (forall e, check_budget self now 0 = Raise e -> exn_args e <> daily_message 0 0 0).
Proof.
  intros Hf Hx. unfold __init__, _load, exists_. simpl path. rewrite Hf.
  eexists. split; [reflexivity|]. split; [reflexivity|].
  unfold check_budget, spend_last_24h, spend_total. simpl.
  change (Builtins.sum []) with 0%float.
  rewrite (zero_add_pos x Hx), Hx.
  split; [reflexivity|].
  intros e. destruct (_ <? 0)%float; intros H; inversion H.
  simpl. discriminate.
Qed.

Lemma zero_daily_cap_refuses_every_positive_estimate_witness :
  exists self,
    __init__ "/data/cost_ledger.json" (Some 0%float) None false empty_world
    = (empty_world, Return self)
    /\ daily_cap self = 0%float
    /\ check_budget self 2000 0.000001
       = Raise {| exn_cls := CostLimitExceeded;
                  exn_args := daily_message 0 0.000001 0 |}
    /\ (forall e, check_budget self 2000 0 = Raise e -> exn_args e <> daily_message 0 0 0).
Proof.
  apply (zero_daily_cap_refuses_every_positive_estimate "/data/cost_ledger.json"
           None false empty_world 2000 0.000001); reflexivity.
Defined.

(** *** What the persistence functions leave alone *)

(** X12.  [_save] touches two paths only, the ledger's and the temporary one
    beside it; when it returns the temporary path holds no file, whatever was
    there before. *)
Theorem save_touches_only_the_ledger_and_its_temporary (self : CostTracker.t)
    (w : World) :
  (forall q, q <> path self -> q <> (path self ++ ".tmp")%string ->
             files (fst (_save self w)) q = files w q)
  /\ (snd (_save self w) = Return tt ->
      files (fst (_save self w)) (path self ++ ".tmp")%string = Absent)
  /\ log (fst (_save self w)) = log w.
Proof.
  unfold _save. destruct (makedirs w (Builtins.dirname (path self))) as [[]|e]; simpl.
  - split; [|split; [|reflexivity]].
    + intros q H1 H2. apply String.eqb_neq in H1, H2. rewrite H1, H2. reflexivity.
    + intros _. rewrite String.eqb_refl. reflexivity.
  - split; [|split]; [reflexivity | discriminate | reflexivity].
Qed.

(** X13.  [_load] writes no file, in none of its five cases; it logs at most
    one line, a warning, and none without a logger. *)
Theorem load_never_writes (self : CostTracker.t) (w : World) :
  files (fst (_load self w)) = files w
  /\ read_only (fst (_load self w)) = read_only w
  /\ (log (fst (_load self w)) = log w
      \/ logger self = true
         /\ exists line, log (fst (_load self w)) = log w ++ [(WARNING, line)]).
Proof.
  unfold _load, exists_, open_and_load.
  destruct (files w (path self)) as [|why|why|why|rs]; simpl; auto;
    destruct (logger self); simpl; auto;
    (split; [reflexivity|split; [reflexivity|right; split; [reflexivity|eexists; reflexivity]]]).
Qed.

(** *** Estimates below the stored precision *)

(** [round(x, 6)] of a float that is at most the float written [5e-7] is 0:
    that float lies below one half of [1e-6], and so does every float under
    it. *)
Lemma round_6_below_half_unit (x : float) :
  nonneg x -> (x <=? 5e-7)%float = true -> Builtins.round x 6 = 0%float.
Proof.
  intros Hn Hle. unfold nonneg in Hn. unfold Builtins.round.
  rewrite FloatAxioms.leb_spec in Hle.
  replace (Prim2SF 5e-7) with (S754_finite false 4722366482869645 (-73)) in Hle
    by (vm_compute; reflexivity).
  pose proof (Prim2SF_valid x) as Hv.
  destruct (Prim2SF x) as [[]|[]| |[] m e] eqn:Hx; simpl in Hn; try discriminate.
  - apply Prim2SF_inj. rewrite Hx. vm_compute. reflexivity.
  - apply valid_mantissa in Hv.
    unfold SFleb, SFcompare in Hle.
    assert (Hq : exists k, e = Z.neg k
                 /\ (2 * (Z.pos m * 10 ^ Z.of_nat 6) < 2 ^ Z.pos k)%Z).
    { destruct (Z.compare_spec e (-73)) as [He|He|He].
      - exists 73%positive. split; [exact He|].
        rewrite ?Pos.compare_cont_spec in Hle. simpl in Hle.
        change (10 ^ Z.of_nat 6)%Z with 1000000%Z.
        change (2 ^ 73)%Z with 9444732965739290427392%Z.
        destruct (Pos.compare_spec m 4722366482869645) as [Hm|Hm|Hm].
        * subst m. reflexivity.
        * apply Pos2Z.pos_lt_pos in Hm. clear Hle Hv. lia.
        * discriminate Hle.
      - destruct e as [|k|k]; try lia. exists k. split; [reflexivity|].
        change (10 ^ Z.of_nat 6)%Z with 1000000%Z.
        assert (2 ^ 74 <= 2 ^ Z.pos k)%Z by (apply Z.pow_le_mono_r; lia).
        change (2 ^ 74)%Z with 18889465931478580854784%Z in *.
        change (2 ^ 53)%Z with 9007199254740992%Z in Hv. lia.
      - discriminate. }
    destruct Hq as (k & -> & Hlt).
    assert (Hr : Builtins.round_half_even (Z.pos m * 10 ^ Z.of_nat 6) (2 ^ Z.pos k) = 0%Z).
    { unfold Builtins.round_half_even.
      assert (Hp : (0 <= Z.pos m * 10 ^ Z.of_nat 6)%Z).
      { apply Z.mul_nonneg_nonneg; [lia | apply Z.pow_nonneg; lia]. }
      rewrite Z.div_small by lia. rewrite Z.mod_small by lia.
      destruct (Z.compare_spec (2 * (Z.pos m * 10 ^ Z.of_nat 6)) (2 ^ Z.pos k));
        try lia; reflexivity. }
    rewrite Hr. vm_compute. reflexivity.
Qed.

(** X14.  The entry keeps the estimate rounded to six decimals, while [record]
    returns the estimate itself: a call estimated at no more than the float
    [5e-7] is stored with a cost of exactly 0 and adds nothing to either
    spend. *)
Theorem small_estimates_are_stored_as_zero (now : float) (source model : string)
    (pc rc : int) (duration : float) :
  (estimate_cost source model pc rc <=? 5e-7)%float = true ->
  cost (new_entry now source model pc rc duration) = 0%float.
Proof.
  intros H. unfold new_entry. simpl.
  apply round_6_below_half_unit; [apply estimate_nonneg | exact H].
Qed.

Lemma small_estimates_are_stored_as_zero_witness :
  (0 <? estimate_cost "google" "gemini-2.0-flash" 8%uint63 2%uint63)%float = true
  /\ cost (new_entry 2000 "google" "gemini-2.0-flash" 8%uint63 2%uint63 0.5) = 0%float.
Proof.
  split; [vm_compute; reflexivity|].
  apply (small_estimates_are_stored_as_zero 2000 "google" "gemini-2.0-flash"
           8%uint63 2%uint63 0.5).
  vm_compute. reflexivity.
Defined.

End MoreLedgerFacts.

(* ================================================================== *)
(** * Part VII: further properties of the round loop *)
(* ================================================================== *)

Section MoreSchedulerFacts.

Import UserDefinedGame.

Unset Implicit Arguments.

(** The timeline entry [record_narration] makes of a narration. *)
Definition narrated (n : string) : string * string := ("Game Control"%string, n).

(** The three messages of the loop, one per human player, in the order of
    [self.players]. *)
Definition greetings (g : UserDefinedGame.t) : list (string * content) :=
  map (fun p => (gameroom p, YouAre (name p))) (humans g).

Definition prompts_to (ps : list Player) (n : string) : list (string * content) :=
  map (fun p => (gameroom p, HowDoYouRespond n)) (filter is_human ps).

Definition farewells (g : UserDefinedGame.t) (n : string) : list (string * content) :=
  map (fun p => (gameroom p, GameOver n)) (humans g).

(** A move whose calls all return, the adjudication with [outcome]. *)
Definition move_returns (env : Env) (g : UserDefinedGame.t) (move : nat)
    (outcome : string) : Prop :=
  (forall i p, nth_error (players g) i = Some p -> answered env move i p)
  /\ adjudicate env move = Return outcome.

(** The narration the timeline ends with when move [m] starts. *)
Definition narration_before (g : UserDefinedGame.t) (outcome : nat -> string) (m : nat)
  : string :=
  match m with
  | O => scenario g
  | S m' => outcome m'
  end.

(** What a piece of the run adds: entries to the timeline, messages, calls,
    completed moves; the advisors are untouched. *)
Record adds (s s' : Run) (h : History) (ms : list (string * content))
    (cs : list call) (k : nat) : Prop := {
  ad_history : history s' = history s ++ h;
  ad_sent : sent s' = sent s ++ ms;
  ad_calls : calls s' = calls s ++ cs;
  ad_advisors : advisors s' = advisors s;
  ad_moves : moves_completed s' = moves_completed s + k
}.

Lemma adds_refl (s : Run) : adds s s [] [] [] 0.
Proof. constructor; rewrite ?app_nil_r; auto. Qed.

Lemma adds_trans (s s' s'' : Run) h1 ms1 cs1 k1 h2 ms2 cs2 k2 :
  adds s s' h1 ms1 cs1 k1 -> adds s' s'' h2 ms2 cs2 k2 ->
  adds s s'' (h1 ++ h2) (ms1 ++ ms2) (cs1 ++ cs2) (k1 + k2).
Proof.
  intros [A1 A2 A3 A4 A5] [B1 B2 B3 B4 B5]. constructor.
  - rewrite B1, A1, app_assoc. reflexivity.
  - rewrite B2, A2, app_assoc. reflexivity.
  - rewrite B3, A3, app_assoc. reflexivity.
  - congruence.
  - lia.
Qed.

Definition latest (s : Run) (n : string) : Prop :=
  exists h a, history s = h ++ [(a, n)].

Lemma latest_narration_is (s : Run) (n : string) :
  latest s n -> latest_narration s = (s, Return n).
Proof.
  intros (h & a & H). unfold latest_narration. rewrite H, rev_unit. reflexivity.
Qed.

Lemma latest_kept (s s' : Run) (n : string) :
  history s' = history s -> latest s n -> latest s' n.
Proof. intros E (h & a & H). exists h, a. congruence. Qed.

(** Polling players that all answer: every human player is shown the latest
    narration, and nothing is written to the timeline. *)
Lemma poll_exact (env : Env) (move : nat) (n : string) (ps : list Player) :
  forall (idx : nat) (responses : History) (s : Run),
  latest s n ->
  (forall i p, nth_error ps i = Some p -> answered env move (idx + i) p) ->
  exists s' rs,
    poll env move idx ps responses s = (s', Return rs)
    /\ adds s s' [] (prompts_to ps n) (poll_calls move idx ps) 0.
Proof.
  induction ps as [|p ps IH]; intros idx responses s Hl Hans.
  - exists s, responses. split; [reflexivity | apply adds_refl].
  - destruct (Hans 0 p eq_refl) as [r Hr]. rewrite Nat.add_0_r in Hr.
    assert (Hans' : forall i q, nth_error ps i = Some q -> answered env move (S idx + i) q).
    { intros i q Hq. specialize (Hans (S i) q Hq).
      rewrite Nat.add_succ_r in Hans. exact Hans. }
    unfold answer in Hr. simpl poll. unfold prompts_to. simpl poll_calls. unfold call_of.
    simpl filter.
    destruct (is_human p) eqn:Hk.
    + erewrite bind_returns by reflexivity.
      erewrite bind_returns.
      2:{ erewrite bind_returns by (apply latest_narration_is; exact Hl).
          erewrite bind_returns by reflexivity.
          unfold await at 1. unfold bind at 1. rewrite Hr.
          erewrite bind_returns by reflexivity. reflexivity. }
      match goal with |- context [poll env move (S idx) ps ?rs ?s1] =>
        destruct (IH (S idx) rs s1) as (s' & rs' & P1 & P2);
          [apply (latest_kept s); [reflexivity | exact Hl] | exact Hans' |] end.
      exists s', rs'. split; [exact P1|].
      destruct P2 as [B1 B2 B3 B4 B5]. simpl in *. constructor; simpl; auto.
      * rewrite B2, <- app_assoc. reflexivity.
      * rewrite B3, <- app_assoc. reflexivity.
    + erewrite bind_returns by reflexivity.
      erewrite bind_returns.
      2:{ unfold await at 1. unfold bind at 1. rewrite Hr.
          erewrite bind_returns by reflexivity. reflexivity. }
      match goal with |- context [poll env move (S idx) ps ?rs ?s1] =>
        destruct (IH (S idx) rs s1) as (s' & rs' & P1 & P2);
          [apply (latest_kept s); [reflexivity | exact Hl] | exact Hans' |] end.
      exists s', rs'. split; [exact P1|].
      destruct P2 as [B1 B2 B3 B4 B5]. simpl in *. constructor; simpl; auto.
      rewrite B3, <- app_assoc. reflexivity.
Qed.

(** A move whose calls all return adds the outcome to the timeline, and
    nothing else. *)
Lemma one_move_exact (env : Env) (g : UserDefinedGame.t) (m : nat) (n outcome : string)
    (s : Run) :
  latest s n -> move_returns env g m outcome ->
  exists s',
    one_move env g m s = (s', Return tt)
    /\ adds s s' [narrated outcome] (prompts_to (players g) n) (move_calls g m) 1.
Proof.
  intros Hl [Hans Hadj]. unfold one_move.
  erewrite bind_returns by reflexivity.
  erewrite bind_returns by reflexivity.
  match goal with |- context [bind (poll env m 0 (players g) []) _ ?s1] =>
    destruct (poll_exact env m n (players g) 0 [] s1) as (s2 & rs & P1 & P2);
      [apply (latest_kept s); [reflexivity | exact Hl] | exact Hans |] end.
  erewrite bind_returns by exact P1.
  erewrite bind_returns by reflexivity.
  erewrite bind_returns by reflexivity.
  erewrite bind_returns by (unfold await; rewrite Hadj; reflexivity).
  erewrite bind_returns by reflexivity.
  erewrite bind_returns by reflexivity.
  eexists. split; [reflexivity|].
  destruct P2 as [B1 B2 B3 B4 B5]. simpl in *.
  rewrite app_nil_r in B1.
  constructor; simpl; auto.
  - rewrite B1. reflexivity.
  - rewrite B3. unfold move_calls. rewrite app_assoc. reflexivity.
  - lia.
Qed.

(** A run of moves that all return. *)
Lemma moves_exact (env : Env) (g : UserDefinedGame.t) (outcome : nat -> string) (k : nat) :
  forall (a : nat) (s : Run),
  latest s (narration_before g outcome a) ->
  (forall m, a <= m < a + k -> move_returns env g m (outcome m)) ->
  exists s',
    for_each (seq a k) (one_move env g) s = (s', Return tt)
    /\ adds s s'
         (map (fun m => narrated (outcome m)) (seq a k))
         (List.concat (map (fun m => prompts_to (players g) (narration_before g outcome m))
                           (seq a k)))
         (List.concat (map (move_calls g) (seq a k)))
         k.
Proof.
  induction k as [|k IH]; intros a s Hl Hok.
  - exists s. split; [reflexivity | apply adds_refl].
  - destruct (one_move_exact env g a _ (outcome a) s Hl (Hok a ltac:(lia)))
      as (s1 & O1 & O2).
    destruct (IH (S a) s1) as (s' & P1 & P2).
    + exists (history s), "Game Control"%string. apply (ad_history _ _ _ _ _ _ O2).
    + intros m Hm. apply Hok. lia.
    + exists s'. simpl. unfold bind. rewrite O1. split; [exact P1|].
      apply (adds_trans _ _ _ _ _ _ _ _ _ _ _ O2 P2).
Qed.

(** The closing loop: every human player is sent the latest narration. *)
Lemma farewell_exact (n : string) (ps : list Player) :
  forall s,
  latest s n ->
  exists s',
    for_each ps (fun player =>
      if is_human player then
        narration <- latest_narration ;;
        interface_send_message (gameroom player) (GameOver narration)
      else ret tt) s = (s', Return tt)
    /\ adds s s' [] (map (fun p => (gameroom p, GameOver n)) (filter is_human ps)) [] 0
    /\ log s' = log s.
Proof.
  induction ps as [|p ps IH]; intros s Hl; simpl.
  - exists s. split; [reflexivity|]. split; [apply adds_refl | reflexivity].
  - destruct (is_human p) eqn:Hk.
    + erewrite bind_returns.
      2:{ erewrite bind_returns by (apply latest_narration_is; exact Hl). reflexivity. }
      match goal with |- context [for_each ps _ ?s1] =>
        destruct (IH s1) as (s' & P1 & P2 & P3);
          [apply (latest_kept s); [reflexivity | exact Hl] |] end.
      exists s'. split; [exact P1|].
      destruct P2 as [B1 B2 B3 B4 B5]. simpl in *.
      split; [|exact P3]. constructor; simpl; auto.
      rewrite B2, <- app_assoc. reflexivity.
    + erewrite bind_returns by reflexivity.
      destruct (IH s Hl) as (s' & P1 & P2 & P3). exists s'. auto.
Qed.

Lemma latest_after_moves (g : UserDefinedGame.t) (outcome : nat -> string) (k : nat)
    (s : Run) :
  history s = narrated (scenario g) :: map (fun m => narrated (outcome m)) (seq 0 k) ->
  latest s (narration_before g outcome k).
Proof.
  intros H. destruct k as [|k].
  - exists [], "Game Control"%string. exact H.
  - exists (narrated (scenario g) :: map (fun m => narrated (outcome m)) (seq 0 k)),
           "Game Control"%string.
    rewrite H, seq_S, map_app. reflexivity.
Qed.

(** The state when the loop over the moves starts. *)
Lemma game_setup (env : Env) (g : UserDefinedGame.t) (s0 : Run) :
  exists s3,
    game env g s0
    = ((try_except
          (for_each (seq 0 (moves g)) (one_move env g))
          CostLimitExceeded
          (fun e =>
             logger_emit CostTracker.WARNING
               ([Lit "Budget exceeded, stopping game: "] ++ exn_args e) ;;
             for_each (players g) (fun player =>
               if is_human player then
                 interface_send_message (gameroom player) (GameStopped e)
               else ret tt))) ;;
       for_each (players g) (fun player =>
         if is_human player then
           narration <- latest_narration ;;
           interface_send_message (gameroom player) (GameOver narration)
         else ret tt) ;;
       (fun s => logger_emit CostTracker.INFO (game_complete_line g (moves_completed s)) s) ;;
       logger_emit CostTracker.INFO [Lit "Terminating advisor chats."] ;;
       fun s => set_advisors (map deactivate (advisors s)) s) s3
    /\ history s3 = [narrated (scenario g)]
    /\ sent s3 = sent s0 ++ greetings g
    /\ calls s3 = calls s0
    /\ advisors s3 = advisors s0
    /\ moves_completed s3 = 0.
Proof.
  unfold game.
  erewrite bind_returns by reflexivity.
  erewrite bind_returns by reflexivity.
  erewrite bind_returns by reflexivity.
  erewrite bind_returns by reflexivity.
  erewrite bind_returns by reflexivity.
  erewrite bind_returns by reflexivity.
  match goal with |- context [bind (for_each (players g) ?body) _ ?s1] =>
    destruct (notify_humans (fun p => YouAre (name p)) (players g) s1)
      as (s2 & N1 & N2 & N3 & N4 & N5) end.
  erewrite bind_returns by exact N1.
  erewrite bind_returns by reflexivity.
  eexists. split; [reflexivity|].
  destruct N2 as [B1 B2 B3 _]. simpl in *. rewrite app_nil_r in B1.
  repeat split; auto.
Qed.

(** X15.  A game whose calls all return plays every move and returns.  The
    timeline it leaves is the scenario followed by the outcomes of the moves in
    order, whatever the timeline held before: the players' responses are not
    written to it.  Every human player is greeted once, is shown before each
    move the narration the timeline ends with (the scenario, then the outcome
    of the move before), and is sent the last outcome as the game-over message;
    no other message is sent.  All moves are counted and every advisor ends
    inactive. *)
Theorem game_plays_every_move (env : Env) (g : UserDefinedGame.t)
    (outcome : nat -> string) (s0 : Run) :
  (forall m, m < moves g -> move_returns env g m (outcome m)) ->
  let s := fst (game env g s0) in
  snd (game env g s0) = Return tt
  /\ history s = map narrated (scenario g :: map outcome (seq 0 (moves g)))
  /\ sent s
     = sent s0 ++ greetings g
       ++ List.concat (map (fun m => prompts_to (players g) (narration_before g outcome m))
                           (seq 0 (moves g)))
       ++ farewells g (narration_before g outcome (moves g))
  /\ calls s = calls s0 ++ List.concat (map (move_calls g) (seq 0 (moves g)))
  /\ moves_completed s = moves g
  /\ advisors s = map deactivate (advisors s0).
Proof.
  intros Hok s. subst s.
  destruct (game_setup env g s0) as (s3 & G & H1 & H2 & H3 & H4 & H5). rewrite G.
  destruct (moves_exact env g outcome (moves g) 0 s3) as (s4 & L1 & L2).
  { exists [], "Game Control"%string. exact H1. }
  { intros m Hm. apply Hok. lia. }
  erewrite bind_returns by (unfold try_except; rewrite L1; reflexivity).
  destruct L2 as [A1 A2 A3 A4 A5].
  destruct (farewell_exact (narration_before g outcome (moves g)) (players g) s4)
    as (s5 & F1 & F2 & F3).
  { apply latest_after_moves. rewrite A1, H1. reflexivity. }
  erewrite bind_returns by exact F1.
  erewrite bind_returns by reflexivity.
  erewrite bind_returns by reflexivity.
  unfold set_advisors, modify. simpl.
  destruct F2 as [B1 B2 B3 B4 B5]. rewrite app_nil_r in B1, B3.
  split; [reflexivity|].
  split; [rewrite B1, A1, H1, map_map; reflexivity|].
  split; [rewrite B2, A2, H2, <- !app_assoc; reflexivity|].
  split; [rewrite B3, A3, H3; reflexivity|].
  split; [rewrite B5, A5, H5; lia|].
  rewrite B4, A4, H4. reflexivity.
Qed.

Definition answering_env : Env :=
  {| respond := fun _ _ => Return "We hold position."%string;
     interface_get_message := fun _ _ => Return "Evacuate the docks."%string;
     adjudicate := fun move =>
       Return (if Nat.even move then "The storm worsens." else "The storm passes.")%string |}.

Definition after_an_earlier_game : Run :=
  {| history := [("Game Control", "An earlier scenario."); ("Game Control", "Its outcome.")]%string;
     sent := []; calls := []; headers := []; log := [];
     advisors := [ {| name := "Sage"; kind := ai; gameroom := "";
                      chatroom := "chat0042"; active := true |} ];
     moves_completed := 0 |}.

Lemma game_plays_every_move_witness :
  let outcome := fun move =>
    (if Nat.even move then "The storm worsens." else "The storm passes.")%string in
  let s := fst (game answering_env four_round_game after_an_earlier_game) in
  snd (game answering_env four_round_game after_an_earlier_game) = Return tt
  /\ history s = map narrated (scenario four_round_game
                                :: map outcome (seq 0 (moves four_round_game)))
  /\ sent s
     = sent after_an_earlier_game ++ greetings four_round_game
       ++ List.concat (map (fun m => prompts_to (players four_round_game)
                                       (narration_before four_round_game outcome m))
                           (seq 0 (moves four_round_game)))
       ++ farewells four_round_game
            (narration_before four_round_game outcome (moves four_round_game))
  /\ calls s = calls after_an_earlier_game
               ++ List.concat (map (move_calls four_round_game)
                                   (seq 0 (moves four_round_game)))
  /\ moves_completed s = moves four_round_game
  /\ advisors s = map deactivate (advisors after_an_earlier_game).
Proof.
  intros outcome.
  apply (game_plays_every_move answering_env four_round_game outcome after_an_earlier_game).
  intros m Hm. split.
  - intros i p Hp. unfold answered, answer. simpl.
    destruct (is_human p); eexists; reflexivity.
  - reflexivity.
Defined.

(** *** Errors that are not budget errors *)

(** A call of the move raises: the call of the player at a position, human or
    AI, or the adjudication. *)
Definition failure (env : Env) (g : UserDefinedGame.t) (move : nat)
    (where_ : failing_call) (e : exn) : Prop :=
  match where_ with
  | AtPlayer j =>
      (exists p, nth_error (players g) j = Some p /\ answer env move j p = Raise e)
      /\ (forall i p, i < j -> nth_error (players g) i = Some p -> answered env move i p)
  | AtAdjudication =>
      (forall i p, nth_error (players g) i = Some p -> answered env move i p)
      /\ adjudicate env move = Raise e
  end.

(** The prompts of the move that fails: to the human players up to the failing
    call. *)
Definition failed_move_prompts (g : UserDefinedGame.t) (n : string) (where_ : failing_call)
  : list (string * content) :=
  match where_ with
  | AtPlayer j => prompts_to (firstn (S j) (players g)) n
  | AtAdjudication => prompts_to (players g) n
  end.

Lemma bind_raises {A B : Type} (m : M A) (k : A -> M B) (s s' : Run) (e : exn) :
  m s = (s', Raise e) -> bind m k s = (s', Raise e).
Proof. intros H. unfold bind. rewrite H. reflexivity. Qed.

Lemma poll_step_exact (env : Env) (move idx : nat) (n : string) (p : Player) (s : Run) :
  latest s n -> answered env move idx p ->
  exists s1 r,
    (forall ps responses,
       poll env move idx (p :: ps) responses s
       = poll env move (S idx) ps (responses ++ [(name p, r)]) s1)
    /\ adds s s1 [] (prompts_to [p] n) [call_of move idx p] 0.
Proof.
  intros Hl [r Hr]. unfold answer in Hr. unfold call_of, prompts_to. simpl filter.
  destruct (is_human p) eqn:Hk.
  - eexists _, r. split.
    + intros ps responses. simpl poll. rewrite Hk.
      erewrite bind_returns by reflexivity.
      erewrite bind_returns.
      2:{ erewrite bind_returns by (apply latest_narration_is; exact Hl).
          erewrite bind_returns by reflexivity.
          unfold await at 1. unfold bind at 1. rewrite Hr.
          erewrite bind_returns by reflexivity. reflexivity. }
      reflexivity.
    + constructor; simpl; rewrite ?app_nil_r; auto.
  - eexists _, r. split.
    + intros ps responses. simpl poll. rewrite Hk.
      erewrite bind_returns by reflexivity.
      erewrite bind_returns.
      2:{ unfold await at 1. unfold bind at 1. rewrite Hr.
          erewrite bind_returns by reflexivity. reflexivity. }
      reflexivity.
    + constructor; simpl; rewrite ?app_nil_r; auto.
Qed.

(** Polling up to a player whose call raises: the players after it are not
    polled, and a human player whose call raises has been prompted. *)
Lemma poll_fails_exact (env : Env) (move : nat) (n : string) (e : exn) (j : nat) :
  forall (ps : list Player) (idx : nat) (responses : History) (s : Run) (p : Player),
  latest s n ->
  nth_error ps j = Some p ->
  answer env move (idx + j) p = Raise e ->
  (forall i q, i < j -> nth_error ps i = Some q -> answered env move (idx + i) q) ->
  exists s',
    poll env move idx ps responses s = (s', Raise e)
    /\ adds s s' [] (prompts_to (firstn (S j) ps) n)
         (poll_calls move idx (firstn (S j) ps)) 0.
Proof.
  induction j as [|j IH]; intros ps idx responses s p Hl Hnth Hraise Hbefore.
  - destruct ps as [|p0 ps]; [discriminate|]. simpl in Hnth. injection Hnth as ->.
    rewrite Nat.add_0_r in Hraise. unfold answer in Hraise.
    simpl poll. unfold prompts_to. simpl firstn. simpl filter. simpl poll_calls.
    unfold call_of.
    destruct (is_human p) eqn:Hk.
    + erewrite bind_returns by reflexivity.
      eexists. split.
      * apply bind_raises.
        erewrite bind_returns by (apply latest_narration_is; exact Hl).
        erewrite bind_returns by reflexivity.
        apply bind_raises. unfold await. rewrite Hraise. reflexivity.
      * constructor; simpl; rewrite ?app_nil_r; auto.
    + erewrite bind_returns by reflexivity.
      eexists. split.
      * apply bind_raises. apply bind_raises. unfold await. rewrite Hraise. reflexivity.
      * constructor; simpl; rewrite ?app_nil_r; auto.
  - destruct ps as [|q ps]; [discriminate|]. simpl in Hnth.
    assert (Hq : answered env move idx q).
    { specialize (Hbefore 0 q ltac:(lia) eq_refl). rewrite Nat.add_0_r in Hbefore.
      exact Hbefore. }
    destruct (poll_step_exact env move idx n q s Hl Hq) as (s1 & r & S1 & S2).
    rewrite S1.
    destruct (IH ps (S idx) (responses ++ [(name q, r)]) s1 p) as (s' & P1 & P2).
    + destruct Hl as (h & a & Hh). exists h, a.
      rewrite (ad_history _ _ _ _ _ _ S2), app_nil_r. exact Hh.
    + exact Hnth.
    + rewrite <- Hraise. f_equal. lia.
    + intros i q' Hi Hq'. specialize (Hbefore (S i) q' ltac:(lia) Hq').
      rewrite Nat.add_succ_r in Hbefore. exact Hbefore.
    + exists s'. split; [exact P1|].
      pose proof (adds_trans _ _ _ _ _ _ _ _ _ _ _ S2 P2) as T.
      simpl in T. unfold prompts_to in *. rewrite <- map_app, <- filter_app in T.
      exact T.
Qed.

Lemma one_move_fails_exact (env : Env) (g : UserDefinedGame.t) (m : nat) (n : string)
    (where_ : failing_call) (e : exn) (s : Run) :
  latest s n -> failure env g m where_ e ->
  exists s',
    one_move env g m s = (s', Raise e)
    /\ adds s s' [] (failed_move_prompts g n where_) (failed_move_calls g m where_) 0.
Proof.
  intros Hl Hf. unfold one_move.
  erewrite bind_returns by reflexivity.
  erewrite bind_returns by reflexivity.
  destruct where_ as [j|]; simpl in Hf.
  - destruct Hf as ([p [Hnth Hraise]] & Hbefore).
    match goal with |- context [bind (poll env m 0 (players g) []) _ ?s1] =>
      destruct (poll_fails_exact env m n e j (players g) 0 [] s1 p) as (s2 & P1 & P2);
        [apply (latest_kept s); [reflexivity | exact Hl] | exact Hnth | exact Hraise
        | exact Hbefore |] end.
    exists s2. split; [apply bind_raises; exact P1|].
    destruct P2 as [B1 B2 B3 B4 B5]. simpl in *. constructor; simpl; auto.
  - destruct Hf as [Hans Hraise].
    match goal with |- context [bind (poll env m 0 (players g) []) _ ?s1] =>
      destruct (poll_exact env m n (players g) 0 [] s1) as (s2 & rs & P1 & P2);
        [apply (latest_kept s); [reflexivity | exact Hl] | exact Hans |] end.
    erewrite bind_returns by exact P1.
    erewrite bind_returns by reflexivity.
    erewrite bind_returns by reflexivity.
    eexists. split.
    + apply bind_raises. unfold await. rewrite Hraise. reflexivity.
    + destruct P2 as [B1 B2 B3 B4 B5]. simpl in *. constructor; simpl; auto.
      rewrite B3. unfold move_calls. rewrite app_assoc. reflexivity.
Qed.

(** X16.  An exception that is no budget error, raised by a call of move [k]
    (a player's call, an AI's or a human's, or the adjudication), is not
    handled: [game] raises it.  No call is awaited after the failing one, the
    human players get neither a stop notice nor the game-over message, the
    advisors keep their [active] flag, and the timeline ends with the outcome
    of move [k - 1]. *)
Theorem other_errors_leave_the_game (env : Env) (g : UserDefinedGame.t)
    (outcome : nat -> string) (k : nat) (where_ : failing_call) (e : exn) (s0 : Run) :
  k < moves g ->
  (forall m, m < k -> move_returns env g m (outcome m)) ->
  failure env g k where_ e ->
  issubclass (exn_cls e) CostLimitExceeded = false ->
  let s := fst (game env g s0) in
  snd (game env g s0) = Raise e
  /\ calls s
     = calls s0 ++ List.concat (map (move_calls g) (seq 0 k))
       ++ failed_move_calls g k where_
  /\ sent s
     = sent s0 ++ greetings g
       ++ List.concat (map (fun m => prompts_to (players g) (narration_before g outcome m))
                           (seq 0 k))
       ++ failed_move_prompts g (narration_before g outcome k) where_
  /\ Forall quiet (skipn (List.length (sent s0)) (sent s))
  /\ advisors s = advisors s0
  /\ history s = map narrated (scenario g :: map outcome (seq 0 k))
  /\ moves_completed s = k.
Proof.
  intros Hk Hbefore Hfail Hcls s. subst s.
  destruct (game_setup env g s0) as (s3 & G & H1 & H2 & H3 & H4 & H5). rewrite G.
  destruct (moves_exact env g outcome k 0 s3) as (s4 & L1 & L2).
  { exists [], "Game Control"%string. exact H1. }
  { intros m Hm. apply Hbefore. lia. }
  destruct L2 as [A1 A2 A3 A4 A5].
  destruct (one_move_fails_exact env g k (narration_before g outcome k) where_ e s4)
    as (s5 & F1 & F2).
  { apply latest_after_moves. rewrite A1, H1. reflexivity. }
  { exact Hfail. }
  destruct F2 as [B1 B2 B3 B4 B5]. rewrite app_nil_r in B1.
  assert (Hloop : for_each (seq 0 (moves g)) (one_move env g) s3 = (s5, Raise e)).
  { rewrite (seq_split k (moves g) Hk), for_each_app, L1. simpl. unfold bind.
    rewrite F1. reflexivity. }
  erewrite bind_raises by (unfold try_except; rewrite Hloop, Hcls; reflexivity).
  simpl.
  assert (Hs : sent s5
               = sent s0 ++ greetings g
                 ++ List.concat
                      (map (fun m => prompts_to (players g) (narration_before g outcome m))
                           (seq 0 k))
                 ++ failed_move_prompts g (narration_before g outcome k) where_).
  { rewrite B2, A2, H2, <- !app_assoc. reflexivity. }
  split; [reflexivity|].
  split; [rewrite B3, A3, H3, <- app_assoc; reflexivity|].
  split; [exact Hs|].
  split.
  { rewrite Hs, skipn_app, skipn_all, Nat.sub_diag. simpl.
    apply Forall_app. split; [|apply Forall_app; split].
    - apply Forall_forall. intros x Hx. apply in_map_iff in Hx.
      destruct Hx as (p & <- & _). reflexivity.
    - apply Forall_forall. intros x Hx. apply in_concat in Hx.
      destruct Hx as (l & Hl & Hx). apply in_map_iff in Hl. destruct Hl as (m & <- & _).
      apply in_map_iff in Hx. destruct Hx as (p & <- & _). reflexivity.
    - apply Forall_forall. intros x Hx.
      destruct where_; apply in_map_iff in Hx; destruct Hx as (p & <- & _); reflexivity. }
  split; [rewrite B4, A4, H4; reflexivity|].
  split; [rewrite B1, A1, H1, map_map; reflexivity|].
  rewrite B5, A5, H5. lia.
Qed.

Definition connection_lost : exn :=
  {| exn_cls := RuntimeError; exn_args := [Lit "connection lost"] |}.

Definition failing_env : Env :=
  {| respond := fun _ _ => Return "We hold position."%string;
     interface_get_message := fun move _ =>
       if Nat.eqb move 1 then Raise connection_lost
       else Return "Evacuate the docks."%string;
     adjudicate := fun _ => Return "The storm worsens."%string |}.

Lemma other_errors_leave_the_game_witness :
  snd (game failing_env four_round_game before_the_game) = Raise connection_lost
  /\ calls (fst (game failing_env four_round_game before_the_game))
     = [ GetMessage 0 0; Respond 0 1; Respond 0 2; Adjudicate 0; GetMessage 1 0 ]
  /\ advisors (fst (game failing_env four_round_game before_the_game))
     = advisors before_the_game
  /\ moves_completed (fst (game failing_env four_round_game before_the_game)) = 1.
Proof.
  pose proof (other_errors_leave_the_game failing_env four_round_game
                (fun _ => "The storm worsens."%string) 1 (AtPlayer 0)
                connection_lost before_the_game) as H.
  destruct H as (H1 & H2 & _ & _ & H5 & _ & H7).
  - simpl. lia.
  - intros m Hm. split.
    + intros i p Hp. unfold answered, answer. simpl.
      destruct m as [|m]; [|lia]. destruct (is_human p); eexists; reflexivity.
    + reflexivity.
  - simpl. split.
    + eexists. split; reflexivity.
    + intros i p Hi. lia.
  - reflexivity.
  - split; [exact H1|]. split; [exact H2|]. split; [exact H5 | exact H7].
Defined.

End MoreSchedulerFacts.

(* ================================================================== *)
(** * Part VIII: the merged configuration *)
(* ================================================================== *)

Section MergeFacts.

Import MergeConfig.

Unset Implicit Arguments.

(** The players the user's choices make human. *)
Definition chosen_humans (roles : list (string * string)) (ps : list (string * PlayerCfg))
  : list (string * PlayerCfg) :=
  filter (fun item => (ScenarioLoader.role_of roles (fst item) =? "human")%string) ps.

Definition humans_of (ps : list (string * PlayerCfg)) : list (string * PlayerCfg) :=
  filter (fun item => is_human (snd item)) ps.

Definition references_of (ps : list (string * PlayerCfg)) : list (option (list string)) :=
  map (fun item => player_advisors (snd item)) ps.

Definition advisor_names (c : Config) : list string :=
  match advisors c with
  | Some l => map fst l
  | None => []
  end.

Definition chosen_roles (user_choices : UserChoices) : list (string * string) :=
  match roles user_choices with Some r => r | None => [] end.

Definition chosen_advisors (user_choices : UserChoices) : list string :=
  match active_advisors user_choices with Some l => l | None => [] end.

Lemma label_some (i : nat) : i < 26 -> exists l, label i = Some l.
Proof.
  intros H. do 26 (destruct i as [|i]; [eexists; reflexivity|]). lia.
Qed.

Lemma label_none (i : nat) : 26 <= i -> label i = None.
Proof.
  intros H. do 26 (destruct i as [|i]; [lia|]). reflexivity.
Qed.

Lemma label_defined (i : nat) (l : string) : label i = Some l -> i < 26.
Proof.
  intros H. destruct (Nat.lt_ge_cases i 26) as [Hi|Hi]; [exact Hi|].
  rewrite (label_none i Hi) in H. discriminate.
Qed.

Lemma labels_differ : NoDup (map label (seq 0 26)).
Proof.
  simpl. repeat (constructor; [simpl; intuition discriminate|]). constructor.
Qed.

Lemma labels_differ_upto (n : nat) : n <= 26 -> NoDup (map label (seq 0 n)).
Proof.
  intros H. pose proof labels_differ as D.
  replace 26 with (n + (26 - n)) in D by lia.
  rewrite seq_app, map_app in D. apply NoDup_app_remove_r in D. exact D.
Qed.

(** The role loop when it runs to its end. *)
Lemma assign_roles_returns (roles : list (string * string)) :
  forall (ps r : list (string * PlayerCfg)) (hi : nat),
  assign_roles roles hi ps = (r, false) ->
  map (fun item => (fst item, kind (snd item))) r
  = map (fun n => (n, Some (ScenarioLoader.role_of roles n))) (map fst ps)
  /\ map (fun item => ioid (snd item)) (humans_of r)
     = map label (seq hi (List.length (humans_of r)))
  /\ (hi <= 26 -> hi + List.length (humans_of r) <= 26)
  /\ references_of r = references_of ps.
Proof.
  induction ps as [|[n c] ps IH]; intros r hi H; simpl in H.
  - inversion H. simpl. repeat split; auto. lia.
  - destruct (ScenarioLoader.role_of roles n =? "human")%string eqn:Hk.
    + destruct (label hi) as [l|] eqn:Hl; [|inversion H].
      destruct (assign_roles roles (S hi) ps) as [rest raised] eqn:Hr.
      inversion H. subst r raised. clear H.
      destruct (IH rest (S hi) Hr) as (I1 & I2 & I3 & I4).
      apply label_defined in Hl as Hlt.
      assert (Hh : is_human (set_ioid (set_kind c (ScenarioLoader.role_of roles n)) l) = true)
        by (unfold is_human; simpl; exact Hk).
      unfold humans_of in *. simpl. rewrite Hh. simpl.
      rewrite I1, I2, I4, Hl. repeat split; auto. intros _. specialize (I3 Hlt). lia.
    + destruct (assign_roles roles hi ps) as [rest raised] eqn:Hr.
      inversion H. subst r raised. clear H.
      destruct (IH rest hi Hr) as (I1 & I2 & I3 & I4).
      assert (Hh : is_human (set_kind c (ScenarioLoader.role_of roles n)) = false)
        by (unfold is_human; simpl; exact Hk).
      unfold humans_of in *. simpl. rewrite Hh.
      rewrite I1, I4. repeat split; auto.
Qed.

(** The role loop raises exactly when it meets a 27th human player. *)
Lemma assign_roles_raises (roles : list (string * string)) :
  forall (ps : list (string * PlayerCfg)) (hi : nat),
  hi <= 26 ->
  (snd (assign_roles roles hi ps) = true
   <-> 26 < hi + List.length (chosen_humans roles ps)).
Proof.
  induction ps as [|[n c] ps IH]; intros hi Hhi; simpl.
  - split; [discriminate | lia].
  - destruct (ScenarioLoader.role_of roles n =? "human")%string eqn:Hk; simpl.
    + destruct (label hi) as [l|] eqn:Hl.
      * apply label_defined in Hl.
        destruct (assign_roles roles (S hi) ps) as [rest raised] eqn:Hr. simpl.
        specialize (IH (S hi) ltac:(lia)). rewrite Hr in IH. simpl in IH.
        rewrite IH. unfold chosen_humans. lia.
      * simpl. split; [intros _|reflexivity].
        destruct (Nat.lt_ge_cases hi 26) as [Hi|Hi]; [|lia].
        destruct (label_some hi Hi) as [l Hl']. congruence.
    + destruct (assign_roles roles hi ps) as [rest raised] eqn:Hr. simpl.
      specialize (IH hi Hhi). rewrite Hr in IH. exact IH.
Qed.

(** The role loop keeps the names and the advisor references of the entries. *)
Lemma assign_roles_In (roles : list (string * string)) (n : string) (p1 : PlayerCfg) :
  forall (ps r : list (string * PlayerCfg)) (hi : nat) (b : bool),
  assign_roles roles hi ps = (r, b) -> In (n, p1) r ->
  exists p0, In (n, p0) ps /\ player_advisors p1 = player_advisors p0.
Proof.
  induction ps as [|[m c] ps IH]; intros r hi b H Hin; simpl in H.
  - inversion H. subst r. elim Hin.
  - destruct (ScenarioLoader.role_of roles m =? "human")%string.
    + destruct (label hi) as [l|].
      * destruct (assign_roles roles (S hi) ps) as [rest raised] eqn:Hr.
        inversion H. subst r b. destruct Hin as [Hin|Hin].
        -- inversion Hin. subst. exists c. split; [left; reflexivity | reflexivity].
        -- destruct (IH rest (S hi) raised Hr Hin) as (p0 & I1 & I2).
           exists p0. split; [right; exact I1 | exact I2].
      * inversion H. subst r b. destruct Hin as [Hin|Hin].
        -- inversion Hin. subst. exists c. split; [left; reflexivity | reflexivity].
        -- exists p1. split; [right; exact Hin | reflexivity].
    + destruct (assign_roles roles hi ps) as [rest raised] eqn:Hr.
      inversion H. subst r b. destruct Hin as [Hin|Hin].
      * inversion Hin. subst. exists c. split; [left; reflexivity | reflexivity].
      * destruct (IH rest hi raised Hr Hin) as (p0 & I1 & I2).
        exists p0. split; [right; exact I1 | exact I2].
Qed.

Lemma filter_references_kind (active : list string) (p : PlayerCfg) :
  kind (filter_references active p) = kind p /\ ioid (filter_references active p) = ioid p.
Proof. unfold filter_references. destruct (player_advisors p); split; reflexivity. Qed.

Lemma filter_references_humans (active : list string) (ps : list (string * PlayerCfg)) :
  humans_of (map (fun item => (fst item, filter_references active (snd item))) ps)
  = map (fun item => (fst item, filter_references active (snd item))) (humans_of ps).
Proof.
  unfold humans_of. induction ps as [|[n c] ps IH]; simpl; [reflexivity|].
  assert (E : is_human (filter_references active c) = is_human c).
  { unfold is_human. rewrite (proj1 (filter_references_kind active c)). reflexivity. }
  rewrite E. destruct (is_human c); simpl; rewrite IH; reflexivity.
Qed.

Lemma filter_references_In (active : list string) (p : PlayerCfg) (refs : list string)
    (a : string) :
  player_advisors (filter_references active p) = Some refs -> In a refs ->
  is_active active a = true
  /\ exists refs0, player_advisors p = Some refs0 /\ In a refs0.
Proof.
  unfold filter_references. destruct (player_advisors p) as [refs0|] eqn:E; simpl.
  - intros H Hin. inversion H. subst refs. apply filter_In in Hin. destruct Hin as [H1 H2].
    split; [exact H2|]. exists refs0. split; [reflexivity | exact H1].
  - rewrite E. discriminate.
Qed.

(** What a call that returns has done. *)
Lemma merge_config_returns (template : Config) (infra : Infra) (uc : UserChoices)
    (template' c : Config) :
  merge_config template infra uc = (template', Returns c) ->
  exists ps ps1,
    players template = Some ps
    /\ assign_roles (chosen_roles uc) 0 ps = (ps1, false)
    /\ players c
       = Some (map (fun item => (fst item, filter_references (chosen_advisors uc) (snd item))) ps1)
    /\ players template' = players c
    /\ advisors template' = advisors template
    /\ advisors c
       = Some (filter (fun item => is_active (chosen_advisors uc) (fst item))
                 (match advisors template with Some l => l | None => [] end))
    /\ ai_only c
       = Some (negb (existsb (fun item => is_human (snd item))
                       (map (fun item => (fst item,
                                          filter_references (chosen_advisors uc) (snd item)))
                            ps1))).
Proof.
  unfold merge_config. fold (chosen_roles uc). fold (chosen_advisors uc).
  destruct (infra_data_directory infra) as [dd|]; [|discriminate].
  destruct (infra_game_id_file infra) as [gif|]; [|discriminate].
  destruct (players template) as [ps|]; [|discriminate].
  destruct (assign_roles (chosen_roles uc) 0 ps) as [ps1 raised] eqn:Hr.
  destruct raised; [discriminate|].
  intros H. inversion H. subst. clear H.
  exists ps, ps1. simpl. repeat split; auto.
  destruct (advisors template) as [[|a l]|]; reflexivity.
Qed.

Lemma merge_config_returned (template : Config) (infra : Infra) (uc : UserChoices)
    (c : Config) :
  snd (merge_config template infra uc) = Returns c ->
  merge_config template infra uc = (fst (merge_config template infra uc), Returns c).
Proof. intros H. rewrite <- H. apply surjective_pairing. Qed.

Lemma existsb_map {A B : Type} (f : B -> bool) (g : A -> B) (l : list A) :
  existsb f (map g l) = existsb (fun x => f (g x)) l.
Proof. induction l as [|a l IH]; simpl; [reflexivity | rewrite IH; reflexivity]. Qed.

(** A scenario with two players and two advisors, and the choices of a
    session. *)
Definition storm_template : Config :=
  {| data_directory := None; game_id_file := None; source := None; model := None;
     players :=
       Some [ ("Harbour Master"%string,
               {| kind := None; ioid := None;
                  player_advisors := Some ["Sage"; "Scout"]%string;
                  player_other_keys := [("persona", "Runs the port.")]%string |});
              ("Mayor"%string,
               {| kind := None; ioid := None;
                  player_advisors := Some ["Scout"]%string;
                  player_other_keys := [("persona", "Runs the town.")]%string |}) ];
     advisors :=
       Some [ ("Sage"%string, {| persona := "A cautious analyst"; goals := [] |});
              ("Scout"%string, {| persona := "A field observer"; goals := [] |}) ];
     moves := Some 6%Z; ai_only := None;
     other_keys := [("title", "Crisis"); ("scenario", "A storm closes the port.")]%string |}.

Definition storm_infra : Infra :=
  {| infra_data_directory := Some "/data/snowglobe/"%string;
     infra_game_id_file := Some "/data/snowglobe/game.id"%string;
     infra_source := Some "openai"%string;
     infra_model := Some "gpt-4o"%string |}.

Definition first_choices : UserChoices :=
  {| roles := Some [("Mayor", "human")]%string;
     active_advisors := Some ["Sage"]%string;
     chosen_moves := Some 4%Z |}.

Definition second_choices : UserChoices :=
  {| roles := Some [("Mayor", "human"); ("Harbour Master", "human")]%string;
     active_advisors := Some ["Sage"; "Scout"]%string;
     chosen_moves := None |}.

Definition first_merge : Config * outcome :=
  Eval vm_compute in merge_config storm_template storm_infra first_choices.

Definition first_config : Config :=
  Eval vm_compute in
    match snd first_merge with Returns c => c | Raises _ => storm_template end.

Definition second_config : Config :=
  Eval vm_compute in
    match snd (merge_config (fst first_merge) storm_infra second_choices) with
    | Returns c => c
    | Raises _ => storm_template
    end.

(** X17.  In the dict [merge_config] returns, the human players carry, in the
    order of the scenario, the identifiers [PlayerA], [PlayerB], ...: the i-th
    human player gets the i-th capital letter, there are at most 26 of them and
    no two share an identifier. *)
Theorem merge_config_labels_humans (template : Config) (infra : Infra)
    (uc : UserChoices) (c : Config) :
  snd (merge_config template infra uc) = Returns c ->
  exists ps,
    players c = Some ps
    /\ List.length (humans_of ps) <= 26
    /\ map (fun item => ioid (snd item)) (humans_of ps)
       = map label (seq 0 (List.length (humans_of ps)))
    /\ NoDup (map (fun item => ioid (snd item)) (humans_of ps))
    /\ Forall (fun item => ioid (snd item) <> None) (humans_of ps).
Proof.
  intros H. apply merge_config_returned in H.
  destruct (merge_config_returns _ _ _ _ _ H) as (ps & ps1 & H1 & H2 & H3 & _).
  destruct (assign_roles_returns _ _ _ _ H2) as (_ & I2 & I3 & _).
  eexists. split; [exact H3|].
  rewrite filter_references_humans, length_map, map_map. simpl.
  assert (E : map (fun x : string * PlayerCfg =>
                     ioid (filter_references (chosen_advisors uc) (snd x))) (humans_of ps1)
              = map (fun item => ioid (snd item)) (humans_of ps1)).
  { apply map_ext. intros [n p]. apply filter_references_kind. }
  rewrite E, I2.
  assert (Hle : List.length (humans_of ps1) <= 26) by (specialize (I3 ltac:(lia)); lia).
  split; [exact Hle|]. split; [reflexivity|].
  split; [apply labels_differ_upto; exact Hle|].
  apply Forall_forall. intros [n p] Hin.
  apply (in_map (fun item : string * PlayerCfg => ioid (snd item))) in Hin.
  rewrite map_map in Hin. simpl in Hin. rewrite E, I2 in Hin.
  apply in_map_iff in Hin. destruct Hin as (i & Hi & Hs). apply in_seq in Hs.
  destruct (label_some i ltac:(lia)) as [l Hl]. simpl. rewrite <- Hi, Hl. discriminate.
Qed.

Lemma merge_config_labels_humans_witness :
  exists ps,
    players second_config = Some ps
    /\ List.length (humans_of ps) <= 26
    /\ map (fun item => ioid (snd item)) (humans_of ps)
       = map label (seq 0 (List.length (humans_of ps)))
    /\ NoDup (map (fun item => ioid (snd item)) (humans_of ps))
    /\ Forall (fun item => ioid (snd item) <> None) (humans_of ps).
Proof.
  apply (merge_config_labels_humans (fst first_merge) storm_infra second_choices
           second_config).
  reflexivity.
Defined.

(** X18.  With the required keys present, [merge_config] raises the
    [IndexError] of [string.ascii_uppercase[human_index]] exactly when more
    than 26 players are made human, and returns otherwise. *)
Theorem merge_config_raises_beyond_26_humans (template : Config) (infra : Infra)
    (uc : UserChoices) (ps : list (string * PlayerCfg)) :
  infra_data_directory infra <> None -> infra_game_id_file infra <> None ->
  players template = Some ps ->
  (snd (merge_config template infra uc) = Raises IndexError
   <-> 26 < List.length (chosen_humans (chosen_roles uc) ps))
  /\ (List.length (chosen_humans (chosen_roles uc) ps) <= 26
      <-> exists c, snd (merge_config template infra uc) = Returns c).
Proof.
  intros Hd Hg Hp.
  pose proof (assign_roles_raises (chosen_roles uc) ps 0 ltac:(lia)) as R. simpl in R.
  unfold merge_config. fold (chosen_roles uc).
  destruct (infra_data_directory infra) as [dd|]; [|contradiction].
  destruct (infra_game_id_file infra) as [gif|]; [|contradiction].
  rewrite Hp.
  destruct (assign_roles (chosen_roles uc) 0 ps) as [ps1 raised]. simpl in R.
  destruct raised; simpl.
  - assert (26 < List.length (chosen_humans (chosen_roles uc) ps)) by (apply R; reflexivity).
    split; split; auto; try lia. intros [c Hc]. discriminate.
  - assert (~ 26 < List.length (chosen_humans (chosen_roles uc) ps)).
    { intros H. apply R in H. discriminate. }
    split; split; try discriminate; try lia. intros _. eexists. reflexivity.
Qed.

Lemma merge_config_raises_beyond_26_humans_witness :
  (snd (merge_config storm_template storm_infra second_choices) = Raises IndexError
   <-> 26 < List.length (chosen_humans (chosen_roles second_choices)
                           (match players storm_template with Some l => l | None => [] end)))
  /\ (List.length (chosen_humans (chosen_roles second_choices)
                     (match players storm_template with Some l => l | None => [] end)) <= 26
      <-> exists c, snd (merge_config storm_template storm_infra second_choices) = Returns c).
Proof.
  apply (merge_config_raises_beyond_26_humans storm_template storm_infra second_choices
           (match players storm_template with Some l => l | None => [] end)).
  - discriminate.
  - discriminate.
  - reflexivity.
Defined.

(** X19.  [merge_config] keeps the advisor references consistent: when every
    advisor a player of the template refers to is an advisor of the template,
    every advisor a player of the merged dict refers to is an advisor of the
    merged dict, and is one of the active ones. *)
Theorem merged_advisor_references_resolve (template : Config) (infra : Infra)
    (uc : UserChoices) (c : Config) :
  snd (merge_config template infra uc) = Returns c ->
  (forall ps n p refs a,
     players template = Some ps -> In (n, p) ps -> player_advisors p = Some refs ->
     In a refs -> In a (advisor_names template)) ->
  forall ps n p refs a,
    players c = Some ps -> In (n, p) ps -> player_advisors p = Some refs ->
    In a refs ->
    In a (advisor_names c) /\ In a (chosen_advisors uc).
Proof.
  intros H Hwf ps' n p refs a Hps Hin Hrefs Ha.
  apply merge_config_returned in H.
  destruct (merge_config_returns _ _ _ _ _ H) as (ps & ps1 & H1 & H2 & H3 & _ & _ & H6 & _).
  rewrite H3 in Hps. inversion Hps. subst ps'. clear Hps.
  apply in_map_iff in Hin. destruct Hin as ([n1 p1] & E & Hin1).
  simpl in E. inversion E. subst n p. clear E.
  destruct (filter_references_In _ _ _ _ Hrefs Ha) as (Hact & refs0 & R1 & R2).
  destruct (assign_roles_In _ _ _ _ _ _ _ H2 Hin1) as (p0 & P1 & P2).
  rewrite P2 in R1.
  pose proof (Hwf ps n1 p0 refs0 a H1 P1 R1 R2) as Hn.
  split.
  - unfold advisor_names in *. rewrite H6.
    destruct (advisors template) as [l|]; [|elim Hn].
    apply in_map_iff in Hn. destruct Hn as ([m adv] & E & Hl). simpl in E. subst m.
    apply in_map_iff. exists (a, adv). split; [reflexivity|].
    apply filter_In. split; [exact Hl | exact Hact].
  - unfold is_active in Hact. apply existsb_exists in Hact.
    destruct Hact as (x & Hx & Hq). apply String.eqb_eq in Hq. subst x. exact Hx.
Qed.

Lemma merged_advisor_references_resolve_witness :
  snd (merge_config storm_template storm_infra first_choices) = Returns first_config
  /\ forall ps n p refs a,
       players first_config = Some ps -> In (n, p) ps -> player_advisors p = Some refs ->
       In a refs ->
       In a (advisor_names first_config) /\ In a (chosen_advisors first_choices).
Proof.
  split; [reflexivity|].
  apply (merged_advisor_references_resolve storm_template storm_infra first_choices
           first_config).
  - reflexivity.
  - intros ps n p refs a Hps Hin Hrefs Ha. inversion Hps. subst ps. clear Hps.
    simpl in Hin. destruct Hin as [Hin|[Hin|[]]]; inversion Hin; subst; clear Hin;
      simpl in Hrefs; inversion Hrefs; subst; clear Hrefs; simpl in Ha; simpl; tauto.
Defined.

(** X20.  [dict(template)] copies the top level only, so the role and
    reference updates are made on the template's own player entries, while the
    filtered advisors go to the copy.  Over two merges of one template object:
    an advisor that the first merge left out is back among the advisors when
    the second merge makes it active, but the players' references to it are
    not; what the players refer to after the second merge is active in both. *)
Theorem dropped_references_stay_dropped (template : Config) (infra infra' : Infra)
    (uc uc' : UserChoices) (c c' : Config) :
  snd (merge_config template infra uc) = Returns c ->
  snd (merge_config (fst (merge_config template infra uc)) infra' uc') = Returns c' ->
  players (fst (merge_config template infra uc)) = players c
  /\ advisors (fst (merge_config template infra uc)) = advisors template
  /\ advisors c'
     = Some (filter (fun item => is_active (chosen_advisors uc') (fst item))
               (match advisors template with Some l => l | None => [] end))
  /\ forall ps n p refs a,
       players c' = Some ps -> In (n, p) ps -> player_advisors p = Some refs ->
       In a refs ->
       is_active (chosen_advisors uc) a = true /\ is_active (chosen_advisors uc') a = true.
Proof.
  intros H H'.
  apply merge_config_returned in H. apply merge_config_returned in H'.
  destruct (merge_config_returns _ _ _ _ _ H) as (ps & ps1 & H1 & H2 & H3 & H4 & H5 & _).
  set (t1 := fst (merge_config template infra uc)) in *.
  destruct (merge_config_returns _ _ _ _ _ H') as (qs & qs1 & G1 & G2 & G3 & _ & _ & G6 & _).
  split; [exact H4|]. split; [exact H5|]. split; [rewrite G6, H5; reflexivity|].
  intros ps' n p refs a Hps Hin Hrefs Ha.
  rewrite G3 in Hps. inversion Hps. subst ps'. clear Hps.
  apply in_map_iff in Hin. destruct Hin as ([n1 p1] & E & Hin1).
  simpl in E. inversion E. subst n p. clear E.
  destruct (filter_references_In _ _ _ _ Hrefs Ha) as (Hact' & refs0 & R1 & R2).
  split; [|exact Hact'].
  destruct (assign_roles_In _ _ _ _ _ _ _ G2 Hin1) as (p0 & P1 & P2).
  rewrite P2 in R1.
  rewrite H4, H3 in G1. inversion G1. subst qs. clear G1.
  apply in_map_iff in P1. destruct P1 as ([n2 p2] & E & _).
  simpl in E. inversion E. subst n1 p0. clear E.
  destruct (filter_references_In _ _ _ _ R1 R2) as (Hact & _). exact Hact.
Qed.

Lemma dropped_references_stay_dropped_witness :
  players (fst (merge_config storm_template storm_infra first_choices))
  = players first_config
  /\ advisors (fst (merge_config storm_template storm_infra first_choices))
     = advisors storm_template
  /\ advisors second_config
     = Some (filter (fun item => is_active (chosen_advisors second_choices) (fst item))
               (match advisors storm_template with Some l => l | None => [] end))
  /\ forall ps n p refs a,
       players second_config = Some ps -> In (n, p) ps -> player_advisors p = Some refs ->
       In a refs ->
       is_active (chosen_advisors first_choices) a = true
       /\ is_active (chosen_advisors second_choices) a = true.
Proof.
  apply (dropped_references_stay_dropped storm_template storm_infra storm_infra
           first_choices second_choices first_config second_config); reflexivity.
Defined.

Lemma humans_of_names (l : list (string * PlayerCfg)) :
  map fst (humans_of l)
  = map fst (filter (fun x : string * option string =>
                       match snd x with Some k => (k =? "human")%string | None => false end)
                    (map (fun item => (fst item, kind (snd item))) l)).
Proof.
  unfold humans_of. induction l as [|[n p] l IH]; simpl; [reflexivity|].
  unfold is_human at 1. destruct (kind p) as [k|]; [destruct (k =? "human")%string|];
    simpl; rewrite IH; reflexivity.
Qed.

Lemma chosen_humans_names (roles : list (string * string)) (l : list (string * PlayerCfg)) :
  map fst (filter (fun x : string * option string =>
                     match snd x with Some k => (k =? "human")%string | None => false end)
                  (map (fun n => (n, Some (ScenarioLoader.role_of roles n))) (map fst l)))
  = map fst (chosen_humans roles l).
Proof.
  unfold chosen_humans. induction l as [|[n p] l IH]; simpl; [reflexivity|].
  destruct (ScenarioLoader.role_of roles n =? "human")%string; simpl; rewrite IH; reflexivity.
Qed.

(** X21.  The kinds and the [ai_only] flag of the merged dict are those of the
    role table alone: every player of the scenario gets the chosen role,
    ['ai'] without a choice, roles given for other names are ignored, and
    [ai_only] is set exactly when no player of the scenario is made human. *)
Theorem merge_config_kinds_follow_the_roles (template : Config) (infra : Infra)
    (uc : UserChoices) (c : Config) :
  snd (merge_config template infra uc) = Returns c ->
  exists ps0 ps,
    players template = Some ps0 /\ players c = Some ps
    /\ map (fun item => (fst item, kind (snd item))) ps
       = map (fun x => (fst x, Some (snd x)))
             (ScenarioLoader.merged_kinds (chosen_roles uc) (map fst ps0))
    /\ ai_only c = Some (ScenarioLoader.merged_ai_only (chosen_roles uc) (map fst ps0))
    /\ map fst (humans_of ps) = map fst (chosen_humans (chosen_roles uc) ps0).
Proof.
  intros H. apply merge_config_returned in H.
  destruct (merge_config_returns _ _ _ _ _ H)
    as (ps & ps1 & H1 & H2 & H3 & _ & _ & _ & H7).
  destruct (assign_roles_returns _ _ _ _ H2) as (I1 & _).
  set (ps2 := map (fun item => (fst item, filter_references (chosen_advisors uc) (snd item)))
                  ps1) in *.
  assert (K : map (fun item => (fst item, kind (snd item))) ps2
              = map (fun n => (n, Some (ScenarioLoader.role_of (chosen_roles uc) n)))
                    (map fst ps)).
  { rewrite <- I1. unfold ps2. rewrite map_map. apply map_ext. intros [n p]. simpl.
    rewrite (proj1 (filter_references_kind _ p)). reflexivity. }
  exists ps, ps2. split; [exact H1|]. split; [exact H3|].
  split; [|split].
  - rewrite K. unfold ScenarioLoader.merged_kinds. rewrite !map_map. reflexivity.
  - rewrite H7. f_equal. unfold ScenarioLoader.merged_ai_only, ScenarioLoader.has_human.
    f_equal. unfold ScenarioLoader.merged_kinds. rewrite !existsb_map. simpl.
    transitivity (existsb (fun x : string * option string =>
                             match snd x with Some k => (k =? "human")%string | None => false end)
                          (map (fun item => (fst item, kind (snd item))) ps2)).
    + rewrite existsb_map. reflexivity.
    + rewrite K, !existsb_map. reflexivity.
  - transitivity (map fst (filter (fun x : string * option string =>
                             match snd x with Some k => (k =? "human")%string | None => false end)
                          (map (fun item => (fst item, kind (snd item))) ps2))).
    + apply humans_of_names.
    + rewrite K. apply chosen_humans_names.
Qed.

Lemma merge_config_kinds_follow_the_roles_witness :
  exists ps0 ps,
    players storm_template = Some ps0 /\ players first_config = Some ps
    /\ map (fun item => (fst item, kind (snd item))) ps
       = map (fun x => (fst x, Some (snd x)))
             (ScenarioLoader.merged_kinds (chosen_roles first_choices) (map fst ps0))
    /\ ai_only first_config
       = Some (ScenarioLoader.merged_ai_only (chosen_roles first_choices) (map fst ps0))
    /\ map fst (humans_of ps) = map fst (chosen_humans (chosen_roles first_choices) ps0).
Proof.
  apply (merge_config_kinds_follow_the_roles storm_template storm_infra first_choices
           first_config).
  reflexivity.
Defined.

End MergeFacts.

(* ================================================================== *)
(** * Part IX: construction and [__call__] *)
(* ================================================================== *)

Section CallFacts.

Import UserDefinedGame.

Unset Implicit Arguments.

(** The tasks of a launch, all running: the state of the group when the last
    of them has been created. *)
Definition running (l : launch) : list task_status :=
  match l with
  | Await _ => [Running]
  | TaskGroup tasks => map (fun _ => Running) tasks
  end.

(** The players [__init__] builds are human exactly where the configured kind
    is ['human']. *)
Lemma build_players_humans (gameroom chatroom : string) :
  forall (ps : list (string * MergeConfig.PlayerCfg)) (l : list Player),
  GameConstruction.build_players gameroom chatroom ps = Configuration.Ok l ->
  existsb is_human l = existsb (fun item => MergeConfig.is_human (snd item)) ps.
Proof.
  induction ps as [|[n c] ps IH]; intros l H; simpl in H.
  - inversion H. reflexivity.
  - unfold MergeConfig.is_human at 1. simpl.
    destruct (MergeConfig.kind c) as [k|]; simpl in H; [|discriminate].
    destruct (k =? "human")%string.
    + destruct (MergeConfig.ioid c); simpl in H; [|discriminate].
      destruct (GameConstruction.build_players gameroom chatroom ps) as [rest|];
        simpl in H; [|discriminate].
      inversion H. reflexivity.
    + destruct (k =? "ai")%string.
      * destruct (GameConstruction.player_item c "persona"); simpl in H; [|discriminate].
        destruct (GameConstruction.player_item c "goals"); simpl in H; [|discriminate].
        destruct (GameConstruction.build_players gameroom chatroom ps) as [rest|];
          simpl in H; [|discriminate].
        inversion H. simpl. apply IH. reflexivity.
      * simpl in H.
        destruct (GameConstruction.build_players gameroom chatroom ps) as [rest|];
          simpl in H; [|discriminate].
        inversion H. subst. apply IH. reflexivity.
Qed.

Lemma no_human_filter (l : list Player) :
  existsb is_human l = false <-> filter is_human l = [].
Proof.
  induction l as [|p l IH]; simpl; [tauto|].
  destruct (is_human p); simpl; [split; discriminate | exact IH].
Qed.

Lemma chat_sessions_of_group (room : string) (l : list Player) :
  chat_sessions (TaskGroup (map (fun a => ChatSession a room) l ++ [Game]))
  = map (fun a => ChatSession a room) l.
Proof.
  simpl. induction l as [|a l IH]; simpl; [reflexivity | rewrite IH; reflexivity].
Qed.

Lemma running_nth (l : launch) (j : nat) :
  j < List.length (running l) -> nth_error (running l) j = Some Running.
Proof.
  intros H. destruct (nth_error (running l) j) as [st|] eqn:E.
  - apply nth_error_In in E. destruct l as [c|tasks]; simpl in E.
    + destruct E as [<-|[]]. reflexivity.
    + apply in_map_iff in E. destruct E as (x & <- & _). reflexivity.
  - apply nth_error_None in E. lia.
Qed.

Lemma build_advisors_rooms (room : string)
    (advisors : list (string * MergeConfig.AdvisorCfg)) :
  map (fun a => ChatSession a (chatroom a)) (GameConstruction.build_advisors room advisors)
  = map (fun a => ChatSession a room) (GameConstruction.build_advisors room advisors)
  /\ map name (GameConstruction.build_advisors room advisors) = map fst advisors.
Proof.
  unfold GameConstruction.build_advisors. rewrite !map_map. simpl. split; reflexivity.
Qed.

Lemma from_dict_returns (merged : MergeConfig.Config) (config : Configuration.t) :
  Configuration.from_dict merged = Configuration.Ok config ->
  MergeConfig.players merged = Some (Configuration.players config)
  /\ Configuration.ai_only config
     = match MergeConfig.ai_only merged with Some b => b | None => false end.
Proof.
  unfold Configuration.from_dict, Configuration.bind, Configuration.need.
  destruct (MergeConfig.data_directory merged); [|discriminate].
  destruct (MergeConfig.game_id_file merged); [|discriminate].
  destruct (Configuration.item merged "goals"); [|discriminate].
  destruct (Configuration.item merged "title"); [|discriminate].
  destruct (Configuration.item merged "scenario"); [|discriminate].
  destruct (MergeConfig.moves merged); [|discriminate].
  destruct (Configuration.item merged "timestep"); [|discriminate].
  destruct (Configuration.item merged "nature"); [|discriminate].
  destruct (Configuration.item merged "mode"); [|discriminate].
  destruct (MergeConfig.players merged); [|discriminate].
  intros H. inversion H. simpl. split; reflexivity.
Qed.

(** C9.  [__call__] follows the controller's [ai_only] flag, which the
    constructor copies from the configuration.  With the flag set it awaits the
    round loop alone and starts no chat session.  With the flag unset it
    creates, in one task group, one chat session per configured advisor, each
    in the chat room of the game, and then the round loop; in that group the
    first task to end with an exception, the round loop or a chat session,
    leaves every sibling cancelled.  When the configuration is the one
    [merge_config] produced, the flag is set exactly when no player of the
    controller is human. *)
Theorem call_starts_chat_sessions_by_the_ai_only_flag
    (config : Configuration.t) (ioid : string) (g : UserDefinedGame.t) (s : Run) :
  GameConstruction.__init__ config ioid = Configuration.Ok (g, s) ->
  (Configuration.ai_only config = true ->
   __call__ g s = Await Game /\ chat_sessions (__call__ g s) = [])
  /\ (Configuration.ai_only config = false ->
      __call__ g s
      = TaskGroup (map (fun a => ChatSession a ("chat" ++ ioid)%string) (advisors s)
                   ++ [Game])
      /\ map name (advisors s) = map fst (Configuration.advisors config)
      /\ chat_sessions (__call__ g s)
         = map (fun a => ChatSession a ("chat" ++ ioid)%string) (advisors s)
      /\ forall i e,
           i < List.length (running (__call__ g s)) ->
           nth_error (settle (running (__call__ g s)) i (Raises e)) i = Some (Failed e)
           /\ forall j, j <> i -> j < List.length (running (__call__ g s)) ->
                nth_error (settle (running (__call__ g s)) i (Raises e)) j
                = Some Cancelled)
  /\ (forall template infra user_choices merged,
        snd (MergeConfig.merge_config template infra user_choices)
        = MergeConfig.Returns merged ->
        Configuration.from_dict merged = Configuration.Ok config ->
        (Configuration.ai_only config = true <-> filter is_human (players g) = [])).
Proof.
  intros H. unfold GameConstruction.__init__, Configuration.bind in H. cbv zeta in H.
  set (room := ("chat" ++ ioid)%string) in *. set (groom := ("game" ++ ioid)%string) in *.
  clearbody room groom.
  destruct (GameConstruction.build_players groom room (Configuration.players config))
    as [ps|] eqn:Hps; [|discriminate].
  inversion H. subst g s. clear H. unfold __call__.
  cbn [UserDefinedGame.ai_only UserDefinedGame.advisors UserDefinedGame.players].
  destruct (build_advisors_rooms room (Configuration.advisors config)) as [R1 R2].
  split; [|split].
  - intros ->. split; reflexivity.
  - intros ->. rewrite R1.
    split; [reflexivity|]. split; [exact R2|].
    split; [apply chat_sessions_of_group|].
    intros i e Hi.
    set (l := TaskGroup (map (fun a => ChatSession a room)
                             (GameConstruction.build_advisors room
                                (Configuration.advisors config)) ++ [Game])) in *.
    destruct (settle_failure (running l) i e (running_nth l i Hi)) as (S1 & S2 & _).
    split; [exact S1|].
    intros j Hj Hlt. apply (S2 j Running Hj (running_nth l j Hlt)).
  - intros template infra uc merged Hm Hd.
    apply merge_config_returned in Hm.
    destruct (merge_config_returns _ _ _ _ _ Hm)
      as (ps0 & ps1 & _ & _ & M3 & _ & _ & _ & M7).
    destruct (from_dict_returns _ _ Hd) as [D1 D2].
    rewrite M3 in D1. inversion D1 as [D1']. rewrite M7 in D2.
    rewrite <- no_human_filter, (build_players_humans _ _ _ _ Hps), <- D1', D2.
    destruct (existsb _ _); simpl; split; congruence.
Qed.

(** A scenario as the web interface merges it, with one human player, and the
    same scenario as a configuration file for an unattended run, where no
    player is human and the file does not give [ai_only]. *)
Definition port_players (mayor : MergeConfig.PlayerCfg) : list (string * MergeConfig.PlayerCfg) :=
  [ ("Harbour Master"%string,
     {| MergeConfig.kind := Some "ai"%string; MergeConfig.ioid := None;
        MergeConfig.player_advisors := Some ["Sage"]%string;
        MergeConfig.player_other_keys :=
          [("persona", "Runs the port."); ("goals", "safety")]%string |});
    ("Mayor"%string, mayor) ].

Definition port_dict (mayor : MergeConfig.PlayerCfg) : MergeConfig.Config :=
  {| MergeConfig.data_directory := Some "/data/snowglobe/"%string;
     MergeConfig.game_id_file := Some "/data/snowglobe/game.id"%string;
     MergeConfig.source := Some (Some "openai"%string);
     MergeConfig.model := Some (Some "gpt-4o"%string);
     MergeConfig.players := Some (port_players mayor);
     MergeConfig.advisors :=
       Some [ ("Sage"%string,
               {| MergeConfig.persona := "A cautious analyst"; MergeConfig.goals := [] |}) ];
     MergeConfig.moves := Some 4%Z;
     MergeConfig.ai_only := None;
     MergeConfig.other_keys :=
       [("goals", "safety: keep the town safe"); ("title", "Crisis");
        ("scenario", "A storm closes the port."); ("timestep", "one hour");
        ("nature", "true"); ("mode", "default")]%string |}.

Definition undecided_mayor : MergeConfig.PlayerCfg :=
  {| MergeConfig.kind := None; MergeConfig.ioid := None;
     MergeConfig.player_advisors := None;
     MergeConfig.player_other_keys :=
       [("persona", "Runs the town."); ("goals", "safety")]%string |}.

Definition ai_mayor : MergeConfig.PlayerCfg :=
  {| MergeConfig.kind := Some "ai"%string; MergeConfig.ioid := None;
     MergeConfig.player_advisors := None;
     MergeConfig.player_other_keys :=
       [("persona", "Runs the town."); ("goals", "safety")]%string |}.

Definition port_infra : MergeConfig.Infra :=
  {| MergeConfig.infra_data_directory := Some "/data/snowglobe/"%string;
     MergeConfig.infra_game_id_file := Some "/data/snowglobe/game.id"%string;
     MergeConfig.infra_source := Some "openai"%string;
     MergeConfig.infra_model := Some "gpt-4o"%string |}.

Definition mayor_is_human : MergeConfig.UserChoices :=
  {| MergeConfig.roles := Some [("Mayor", "human")]%string;
     MergeConfig.active_advisors := Some ["Sage"]%string;
     MergeConfig.chosen_moves := Some 4%Z |}.

Definition sage : Player :=
  {| name := "Sage"; kind := ai; gameroom := ""; chatroom := "chat0042"; active := true |}.

Definition port_merged : MergeConfig.Config :=
  Eval vm_compute in
    match snd (MergeConfig.merge_config (port_dict undecided_mayor) port_infra mayor_is_human)
    with
    | MergeConfig.Returns c => c
    | MergeConfig.Raises _ => port_dict undecided_mayor
    end.

Definition port_config (d : MergeConfig.Config) : Configuration.t :=
  {| Configuration.data_dir := "/data/snowglobe/";
     Configuration.game_id_file := "/data/snowglobe/game.id";
     Configuration.source := Some "openai"%string;
     Configuration.model := Some "gpt-4o"%string;
     Configuration.goals := "safety: keep the town safe";
     Configuration.title := "Crisis";
     Configuration.scenario := "A storm closes the port.";
     Configuration.moves := 4;
     Configuration.timestep := "one hour";
     Configuration.nature := "true";
     Configuration.mode := "default";
     Configuration.players :=
       match MergeConfig.players d with Some l => l | None => [] end;
     Configuration.advisors :=
       match MergeConfig.advisors d with Some l => l | None => [] end;
     Configuration.ai_only :=
       match MergeConfig.ai_only d with Some b => b | None => false end |}.

Definition port_game (human_mayor : bool) : UserDefinedGame.t :=
  {| ioid := "0042"; title := "Crisis"; scenario := "A storm closes the port.";
     players :=
       [ {| name := "Harbour Master"; kind := ai; gameroom := ""; chatroom := "";
            active := true |};
         if human_mayor then
           {| name := "Mayor"; kind := human; gameroom := "game0042";
              chatroom := "chat0042"; active := true |}
         else
           {| name := "Mayor"; kind := ai; gameroom := ""; chatroom := "";
              active := true |} ];
     ai_only := false; moves := 4 |}.

Definition port_start : Run :=
  {| history := []; sent := []; calls := []; headers := []; log := [];
     advisors := [sage]; moves_completed := 0 |}.

Lemma call_starts_chat_sessions_by_the_ai_only_flag_witness :
  Configuration.from_dict port_merged = Configuration.Ok (port_config port_merged)
  /\ (Configuration.ai_only (port_config port_merged) = true ->
   __call__ (port_game true) port_start = Await Game
   /\ chat_sessions (__call__ (port_game true) port_start) = [])
  /\ (Configuration.ai_only (port_config port_merged) = false ->
      __call__ (port_game true) port_start
      = TaskGroup (map (fun a => ChatSession a ("chat" ++ "0042")%string)
                       (advisors port_start) ++ [Game])
      /\ map name (advisors port_start)
         = map fst (Configuration.advisors (port_config port_merged))
      /\ chat_sessions (__call__ (port_game true) port_start)
         = map (fun a => ChatSession a ("chat" ++ "0042")%string) (advisors port_start)
      /\ forall i e,
           i < List.length (running (__call__ (port_game true) port_start)) ->
           nth_error (settle (running (__call__ (port_game true) port_start)) i (Raises e)) i
           = Some (Failed e)
           /\ forall j, j <> i ->
                j < List.length (running (__call__ (port_game true) port_start)) ->
                nth_error (settle (running (__call__ (port_game true) port_start)) i
                             (Raises e)) j
                = Some Cancelled)
  /\ (forall template infra user_choices merged,
        snd (MergeConfig.merge_config template infra user_choices)
        = MergeConfig.Returns merged ->
        Configuration.from_dict merged = Configuration.Ok (port_config port_merged) ->
        (Configuration.ai_only (port_config port_merged) = true
         <-> filter is_human (players (port_game true)) = [])).
Proof.
  split; [reflexivity|].
  apply (call_starts_chat_sessions_by_the_ai_only_flag (port_config port_merged) "0042"
           (port_game true) port_start).
  reflexivity.
Defined.

(** The session of the configuration file is fully AI, and [__call__] starts
    the advisor's chat session all the same. *)
Lemma all_ai_session_from_a_file_starts_chat_sessions :
  Configuration.__init__ (port_dict ai_mayor)
  = Configuration.Ok (port_config (port_dict ai_mayor))
  /\ GameConstruction.__init__ (port_config (port_dict ai_mayor)) "0042"
     = Configuration.Ok (port_game false, port_start)
  /\ filter is_human (players (port_game false)) = []
  /\ chat_sessions (__call__ (port_game false) port_start) = [ChatSession sage "chat0042"].
Proof. repeat split. Qed.

End CallFacts.
